(** * The caption worker of instabot (src/caption/main.go)

    A shallow embedding of the worker: the message handler [handleRedis], the
    captioning call [process], the image fetch [getPhoto], the subscription
    loop [setupRedis] and the constructor [NewWorker], together with the parts
    of Go's standard library whose behaviour the handler depends on
    (encoding/json for the two wire records, unicode/utf8, unicode/utf16,
    strconv).

    Conventions:
    - Go strings are byte sequences: they are modelled by [string], whose
      characters are the 256 values of [ascii].  Integers are [Z]; the range
      of the Go type is checked where the library checks it.
    - A pointer that may be nil is an [option]; reading through nil is a
      panic ([deref]), which ends the program.
    - Calls that leave the process (HTTP, Redis, the environment) are
      answered by a [World]; what the process does outside is recorded in a
      trace of [Event]s.  A log line is recorded by its format string.
    - A goroutine is run where it is started and recorded as one event; a
      panic in it ends the program, as in Go.  The loop over the
      subscription never ends: a call that does not return has the outcome
      [Blocked].
    - encoding/json is modelled as in the Go releases of the time of the
      repository: a backspace and a form feed are written as escapes of four
      hexadecimal digits (later releases have a short escape for them; the
      decoder reads both), and the nesting of a text is not bounded. *)

From Stdlib Require Import ZArith Lia List Bool Ascii String.
Import ListNotations.
Local Set Warnings "-register-all".
Local Open Scope string_scope.
Local Open Scope Z_scope.

(** ** Bytes *)

Definition byte := ascii.

(** Numeric value of a byte, [0 <= bv c < 256]. *)
Definition bv (c : byte) : Z := Z.of_N (N_of_ascii c).

(** Conversion to a byte, as Go's [byte(x)]: the low eight bits. *)
Definition byte_of (z : Z) : byte := ascii_of_N (Z.to_N (z mod 256)).

(** One-byte string. *)
Definition str1 (c : byte) : string := String c EmptyString.

(** The double quote, byte 0x22. *)
Definition dquote : byte := "034"%char.
Definition backslash : byte := "\"%char.

(** [s[n:]] for [n <= len(s)]. *)
Fixpoint drop (n : nat) (s : string) : string :=
  match n, s with
  | O, _ => s
  | S n', String _ t => drop n' t
  | S _, EmptyString => EmptyString
  end.

(** [s[:n]] for [n <= len(s)]. *)
Fixpoint take (n : nat) (s : string) : string :=
  match n, s with
  | O, _ => EmptyString
  | S n', String c t => String c (take n' t)
  | S _, EmptyString => EmptyString
  end.

(** ** unicode/utf8 *)

Module utf8.

Definition RuneError : Z := 0xFFFD.
Definition RuneSelf : Z := 0x80.
Definition MaxRune : Z := 0x10FFFF.
Definition surrogateMin : Z := 0xD800.
Definition surrogateMax : Z := 0xDFFF.

Definition t2 : Z := 0xC0.
Definition t3 : Z := 0xE0.
Definition t4 : Z := 0xF0.
Definition tx : Z := 0x80.
Definition maskx : Z := 0x3F.
Definition mask2 : Z := 0x1F.
Definition mask3 : Z := 0x0F.
Definition mask4 : Z := 0x07.
Definition locb : Z := 0x80.
Definition hicb : Z := 0xBF.
Definition rune1Max : Z := 0x7F.
Definition rune2Max : Z := 0x7FF.
Definition rune3Max : Z := 0xFFFF.

(** The table [first] of the package, by ranges: what the first byte of a
    sequence announces ([as], [xx], or a size with the range accepted for
    the second byte). *)
Inductive first_info : Type :=
| ASCII
| Invalid
| Lead (sz : nat) (lo hi : Z).

Definition first (b : Z) : first_info :=
  if b <? 0x80 then ASCII
  else if b <? 0xC2 then Invalid
  else if b <? 0xE0 then Lead 2 locb hicb
  else if b =? 0xE0 then Lead 3 0xA0 hicb
  else if b <? 0xED then Lead 3 locb hicb
  else if b =? 0xED then Lead 3 locb 0x9F
  else if b <? 0xF0 then Lead 3 locb hicb
  else if b =? 0xF0 then Lead 4 0x90 hicb
  else if b <? 0xF4 then Lead 4 locb hicb
  else if b =? 0xF4 then Lead 4 locb 0x8F
  else Invalid.

(** [utf8.DecodeRuneInString]: the rune at the head of [s] and its width;
    [(RuneError, 1)] for an invalid encoding, [(RuneError, 0)] for the empty
    string. *)
Definition DecodeRune (s : string) : Z * nat :=
  match s with
  | EmptyString => (RuneError, 0%nat)
  | String c0 t =>
    let s0 := bv c0 in
    match first s0 with
    | ASCII => (s0, 1%nat)
    | Invalid => (RuneError, 1%nat)
    | Lead sz lo hi =>
      if (String.length s <? sz)%nat then (RuneError, 1%nat) else
      match t with
      | EmptyString => (RuneError, 1%nat)
      | String c1 t1 =>
        let s1 := bv c1 in
        if (s1 <? lo) || (hi <? s1) then (RuneError, 1%nat)
        else if (sz <=? 2)%nat then
          (Z.lor (Z.shiftl (Z.land s0 mask2) 6) (Z.land s1 maskx), 2%nat)
        else
        match t1 with
        | EmptyString => (RuneError, 1%nat)
        | String c2 t2 =>
          let s2 := bv c2 in
          if (s2 <? locb) || (hicb <? s2) then (RuneError, 1%nat)
          else if (sz <=? 3)%nat then
            (Z.lor (Z.lor (Z.shiftl (Z.land s0 mask3) 12)
                          (Z.shiftl (Z.land s1 maskx) 6))
                   (Z.land s2 maskx), 3%nat)
          else
          match t2 with
          | EmptyString => (RuneError, 1%nat)
          | String c3 _ =>
            let s3 := bv c3 in
            if (s3 <? locb) || (hicb <? s3) then (RuneError, 1%nat)
            else
              (Z.lor (Z.lor (Z.lor (Z.shiftl (Z.land s0 mask4) 18)
                                   (Z.shiftl (Z.land s1 maskx) 12))
                            (Z.shiftl (Z.land s2 maskx) 6))
                     (Z.land s3 maskx), 4%nat)
          end
        end
      end
    end
  end.

(** [utf8.EncodeRune] (also [utf8.AppendRune]): the UTF-8 encoding of [r];
    a surrogate or out-of-range rune is encoded as [RuneError]. *)
Definition encode3 (r : Z) : string :=
  String (byte_of (Z.lor t3 (Z.shiftr r 12)))
 (String (byte_of (Z.lor tx (Z.land (Z.shiftr r 6) maskx)))
 (String (byte_of (Z.lor tx (Z.land r maskx))) EmptyString)).

Definition EncodeRune (r : Z) : string :=
  if (0 <=? r) && (r <=? rune1Max) then str1 (byte_of r)
  else if (0 <=? r) && (r <=? rune2Max) then
    String (byte_of (Z.lor t2 (Z.shiftr r 6)))
   (String (byte_of (Z.lor tx (Z.land r maskx))) EmptyString)
  else if (r <? 0) || (MaxRune <? r)
          || ((surrogateMin <=? r) && (r <=? surrogateMax)) then
    encode3 RuneError
  else if r <=? rune3Max then encode3 r
  else
    String (byte_of (Z.lor t4 (Z.shiftr r 18)))
   (String (byte_of (Z.lor tx (Z.land (Z.shiftr r 12) maskx)))
   (String (byte_of (Z.lor tx (Z.land (Z.shiftr r 6) maskx)))
   (String (byte_of (Z.lor tx (Z.land r maskx))) EmptyString))).

(** [utf8.ValidString]: no position of [s] decodes to [(RuneError, 1)]. *)
Fixpoint valid_from (fuel : nat) (s : string) : bool :=
  match s with
  | EmptyString => true
  | String _ _ =>
    match fuel with
    | O => false
    | S fuel' =>
      let '(r, size) := DecodeRune s in
      if (r =? RuneError) && (size =? 1)%nat then false
      else valid_from fuel' (drop size s)
    end
  end.

Definition ValidString (s : string) : bool := valid_from (String.length s) s.

End utf8.

(** ** unicode/utf16 *)

Module utf16.

Definition surr1 : Z := 0xD800.
Definition surr2 : Z := 0xDC00.
Definition surr3 : Z := 0xE000.
Definition surrSelf : Z := 0x10000.

Definition IsSurrogate (r : Z) : bool := (surr1 <=? r) && (r <? surr3).

Definition DecodeRune (r1 r2 : Z) : Z :=
  if (surr1 <=? r1) && (r1 <? surr2) && (surr2 <=? r2) && (r2 <? surr3)
  then Z.lor (Z.shiftl (r1 - surr1) 10) (r2 - surr2) + surrSelf
  else utf8.RuneError.

End utf16.

(** ** strconv *)

Module strconv.

Definition digit (d : Z) : byte := byte_of (48 + d).

(** [formatBits] in base 10: the decimal digits of [u >= 0], most significant
    first, in front of [acc].  A uint64 has at most 20 digits. *)
Fixpoint formatBits (fuel : nat) (u : Z) (acc : string) : string :=
  match fuel with
  | O => acc
  | S fuel' =>
    let acc' := String (digit (u mod 10)) acc in
    if u <? 10 then acc' else formatBits fuel' (u / 10) acc'
  end.

(** [strconv.FormatInt(i, 10)] (and [AppendInt]) for an int64 [i]. *)
Definition FormatInt (i : Z) : string :=
  if i <? 0 then String "-" (formatBits 20 (- i) EmptyString)
  else formatBits 20 i EmptyString.

Definition maxUint64 : Z := 2 ^ 64 - 1.

(** The loop of [strconv.ParseUint(s, 10, 64)]; [None] is an error
    ([ErrSyntax] or [ErrRange]).  [n] is a uint64: the sum wraps around. *)
Fixpoint parseUint_loop (s : string) (n : Z) : option Z :=
  match s with
  | EmptyString => Some n
  | String c t =>
    if (48 <=? bv c) && (bv c <=? 57) then
      let d := bv c - 48 in
      if maxUint64 / 10 + 1 <=? n then None
      else
        let n10 := n * 10 in
        let n1 := (n10 + d) mod 2 ^ 64 in
        if (n1 <? n10) || (maxUint64 <? n1) then None
        else parseUint_loop t n1
    else None
  end.

Definition ParseUint (s : string) : option Z :=
  match s with
  | EmptyString => None
  | _ => parseUint_loop s 0
  end.

(** [strconv.ParseInt(s, 10, 64)]. *)
Definition ParseInt (s : string) : option Z :=
  match s with
  | EmptyString => None
  | String c t =>
    let neg := Ascii.eqb c "-" in
    let s' := if Ascii.eqb c "+" || neg then t else s in
    match ParseUint s' with
    | None => None
    | Some un =>
      let cutoff := 2 ^ 63 in
      if negb neg && (cutoff <=? un) then None
      else if neg && (cutoff <? un) then None
      else Some (if neg then - un else un)
    end
  end.

End strconv.

(** ** Errors *)

Inductive error : Type :=
| errorString (msg : string)          (* errors.New(msg) *)
| SyntaxError                         (* json: malformed or truncated text *)
| UnmarshalTypeError (Value Field : string)
                                      (* json: value not fit for the field *)
| externalError (msg : string).       (* reported by net/http, io or redis *)

Definition is_err (e : option error) : bool :=
  match e with Some _ => true | None => false end.

(** ** encoding/json *)

Module json.

(** A parsed JSON text.  Strings and object keys are held unquoted, numbers
    as their literal. *)
Inductive value : Type :=
| Null
| Bool (b : bool)
| Number (lit : string)
| Str (s : string)
| Array (elems : list value)
| Object (members : list (string * value)).

(** *** Encoding *)

Definition hex (n : Z) : byte :=
  match String.get (Z.to_nat n) "0123456789abcdef" with
  | Some c => c
  | None => "0"%char
  end.

(** [htmlSafeSet]: the ASCII bytes written as they are when HTML escaping
    is on, as in [json.Marshal]: all of 0x20..0x7f but the double quote,
    the backslash and the characters less-than, greater-than, ampersand. *)
Definition htmlSafeSet (b : Z) : bool :=
  (0x20 <=? b) && (b <? 0x80)
  && negb (b =? 0x22) && negb (b =? 0x5C)
  && negb (b =? 0x3C) && negb (b =? 0x3E) && negb (b =? 0x26).

(** The ASCII case of the loop of [encodeState.string] (escapeHTML = true):
    what is written for a byte below [utf8.RuneSelf]. *)
Definition encode_ascii (c : byte) : string :=
  let b := bv c in
  if htmlSafeSet b then str1 c
  else if (b =? 0x5C) || (b =? 0x22) then String backslash (str1 c)
  else if b =? 0x0A then "\n"
  else if b =? 0x0D then "\r"
  else if b =? 0x09 then "\t"
  else String backslash "u00" ++ String (hex (Z.shiftr b 4)) (str1 (hex (Z.land b 0xF))).

(** The six bytes written for an invalid byte: the escape of U+FFFD. *)
Definition replacement : string := String backslash "ufffd".

(** The loop of [encodeState.string], without the surrounding quotes. *)
Fixpoint encode_bytes (fuel : nat) (s : string) : string :=
  match fuel with
  | O => EmptyString
  | S fuel' =>
    match s with
    | EmptyString => EmptyString
    | String c t =>
      if bv c <? utf8.RuneSelf then encode_ascii c ++ encode_bytes fuel' t
      else
        let '(r, size) := utf8.DecodeRune s in
        if (r =? utf8.RuneError) && (size =? 1)%nat then
          replacement ++ encode_bytes fuel' (drop size s)
        else if (r =? 0x2028) || (r =? 0x2029) then
          String backslash "u202" ++ str1 (hex (Z.land r 0xF))
                  ++ encode_bytes fuel' (drop size s)
        else take size s ++ encode_bytes fuel' (drop size s)
    end
  end.

Definition encodeString (s : string) : string :=
  String dquote (encode_bytes (String.length s) s ++ str1 dquote).

(** *** Scanning *)

Definition isSpace (c : byte) : bool :=
  Ascii.eqb c " " || Ascii.eqb c "009" || Ascii.eqb c "013"
  || Ascii.eqb c "010".

Fixpoint skip_space (s : string) : string :=
  match s with
  | String c t => if isSpace c then skip_space t else s
  | EmptyString => s
  end.

Definition isDigit (c : byte) : bool := (48 <=? bv c) && (bv c <=? 57).

Definition isHex (c : byte) : bool :=
  isDigit c || ((97 <=? bv c) && (bv c <=? 102))
  || ((65 <=? bv c) && (bv c <=? 70)).

Definition cons_lit (c : byte) (r : option (string * string))
  : option (string * string) :=
  match r with
  | Some (lit, rest) => Some (String c lit, rest)
  | None => None
  end.

(** The string states of the scanner ([stateInString], [stateInStringEsc],
    [stateInStringEscU]...), entered after the opening quote: the raw text
    up to the closing quote, and what follows it. *)
Fixpoint scan_string (s : string) : option (string * string) :=
  match s with
  | EmptyString => None
  | String c t =>
    if Ascii.eqb c dquote then Some (EmptyString, t)
    else if Ascii.eqb c backslash then
      match t with
      | EmptyString => None
      | String e t' =>
        if Ascii.eqb e "b" || Ascii.eqb e "f" || Ascii.eqb e "n"
           || Ascii.eqb e "r" || Ascii.eqb e "t" || Ascii.eqb e backslash
           || Ascii.eqb e "/" || Ascii.eqb e dquote
        then cons_lit c (cons_lit e (scan_string t'))
        else if Ascii.eqb e "u" then
          match t' with
          | String h1 (String h2 (String h3 (String h4 t''))) =>
            if isHex h1 && isHex h2 && isHex h3 && isHex h4 then
              cons_lit c (cons_lit e (cons_lit h1 (cons_lit h2
                (cons_lit h3 (cons_lit h4 (scan_string t''))))))
            else None
          | _ => None
          end
        else None
      end
    else if bv c <? 0x20 then None
    else cons_lit c (scan_string t)
  end.

(** The number states of the scanner. *)
Inductive numState : Type :=
| stateNeg | state1 | state0 | stateDot | stateDot0
| stateE | stateESign | stateE0.

(** One step inside a number: the next state, or [None] when the byte is
    not part of the number. *)
Definition num_step (st : numState) (c : byte) : option numState :=
  match st with
  | stateNeg =>
    if Ascii.eqb c "0" then Some state0
    else if isDigit c then Some state1 else None
  | state1 =>
    if isDigit c then Some state1
    else if Ascii.eqb c "." then Some stateDot
    else if Ascii.eqb c "e" || Ascii.eqb c "E" then Some stateE
    else None
  | state0 =>
    if Ascii.eqb c "." then Some stateDot
    else if Ascii.eqb c "e" || Ascii.eqb c "E" then Some stateE
    else None
  | stateDot => if isDigit c then Some stateDot0 else None
  | stateDot0 =>
    if isDigit c then Some stateDot0
    else if Ascii.eqb c "e" || Ascii.eqb c "E" then Some stateE
    else None
  | stateE =>
    if Ascii.eqb c "+" || Ascii.eqb c "-" then Some stateESign
    else if isDigit c then Some stateE0 else None
  | stateESign => if isDigit c then Some stateE0 else None
  | stateE0 => if isDigit c then Some stateE0 else None
  end.

(** The states in which a number may end. *)
Definition num_final (st : numState) : bool :=
  match st with
  | state1 | state0 | stateDot0 | stateE0 => true
  | _ => false
  end.

Fixpoint scan_number (st : numState) (s : string)
  : option (string * string) :=
  match s with
  | EmptyString => if num_final st then Some (EmptyString, s) else None
  | String c t =>
    match num_step st c with
    | Some st' => cons_lit c (scan_number st' t)
    | None => if num_final st then Some (EmptyString, s) else None
    end
  end.

(** [s] without the prefix [p], when it starts with it. *)
Fixpoint strip_prefix (p s : string) : option string :=
  match p, s with
  | EmptyString, _ => Some s
  | String a p', String b s' =>
    if Ascii.eqb a b then strip_prefix p' s' else None
  | String _ _, EmptyString => None
  end.

(** *** Unquoting *)

Definition hexval (c : byte) : Z :=
  if isDigit c then bv c - 48
  else if (97 <=? bv c) && (bv c <=? 102) then bv c - 97 + 10
  else if (65 <=? bv c) && (bv c <=? 70) then bv c - 65 + 10
  else -1.

(** [getu4]: the rune of a leading [\uXXXX], or -1. *)
Definition getu4 (s : string) : Z :=
  match s with
  | String c0 (String c1 (String h1 (String h2 (String h3 (String h4 _))))) =>
    if Ascii.eqb c0 backslash && Ascii.eqb c1 "u"
       && isHex h1 && isHex h2 && isHex h3 && isHex h4
    then ((hexval h1 * 16 + hexval h2) * 16 + hexval h3) * 16 + hexval h4
    else -1
  | _ => -1
  end.

Definition app_opt (p : string) (r : option string) : option string :=
  match r with
  | Some s => Some (p ++ s)
  | None => None
  end.

(** [unquoteBytes], on the text between the quotes: escapes are decoded and
    invalid UTF-8 is replaced by U+FFFD.  [None] is [ok = false]. *)
Fixpoint unquote_from (fuel : nat) (s : string) : option string :=
  match s with
  | EmptyString => Some EmptyString
  | String c t =>
    match fuel with
    | O => None
    | S fuel' =>
      if Ascii.eqb c backslash then
        match t with
        | EmptyString => None
        | String e t' =>
          if Ascii.eqb e dquote || Ascii.eqb e backslash
             || Ascii.eqb e "/" || Ascii.eqb e "039"
          then app_opt (str1 e) (unquote_from fuel' t')
          else if Ascii.eqb e "b" then
            app_opt (str1 "008"%char) (unquote_from fuel' t')
          else if Ascii.eqb e "f" then
            app_opt (str1 "012"%char) (unquote_from fuel' t')
          else if Ascii.eqb e "n" then
            app_opt (str1 "010"%char) (unquote_from fuel' t')
          else if Ascii.eqb e "r" then
            app_opt (str1 "013"%char) (unquote_from fuel' t')
          else if Ascii.eqb e "t" then
            app_opt (str1 "009"%char) (unquote_from fuel' t')
          else if Ascii.eqb e "u" then
            let rr := getu4 s in
            if rr <? 0 then None
            else
              let r := drop 6 s in
              if utf16.IsSurrogate rr then
                let dec := utf16.DecodeRune rr (getu4 r) in
                if negb (dec =? utf8.RuneError) then
                  app_opt (utf8.EncodeRune dec)
                          (unquote_from fuel' (drop 6 r))
                else
                  app_opt (utf8.EncodeRune utf8.RuneError)
                          (unquote_from fuel' r)
              else app_opt (utf8.EncodeRune rr) (unquote_from fuel' r)
          else None
        end
      else if Ascii.eqb c dquote || (bv c <? 0x20) then None
      else if bv c <? utf8.RuneSelf then
        app_opt (str1 c) (unquote_from fuel' t)
      else
        let '(rr, size) := utf8.DecodeRune s in
        app_opt (utf8.EncodeRune rr) (unquote_from fuel' (drop size s))
    end
  end.

Definition unquote (raw : string) : option string :=
  unquote_from (String.length raw) raw.

(** A string literal after its opening quote: the Go string it denotes and
    the text after the closing quote.  Unquoting does not fail on a literal
    the scanner accepts ([parse_string_total]). *)
Definition parse_string (s : string) : option (string * string) :=
  match scan_string s with
  | Some (raw, rest) =>
    match unquote raw with
    | Some u => Some (u, rest)
    | None => None
    end
  | None => None
  end.

(** *** Parsing

    The grammar the scanner accepts, with the values it delimits.  Every
    recursive call is made on a strictly shorter text, so the fuel
    [S (length s)] is never exhausted ([parse_value_fuel_enough]). *)

Definition number_value (c : byte) (r : option (string * string))
  : option (value * string) :=
  match r with
  | Some (lit, rest) => Some (Number (String c lit), rest)
  | None => None
  end.

Definition literal_value (v : value) (r : option string)
  : option (value * string) :=
  match r with
  | Some rest => Some (v, rest)
  | None => None
  end.

(** An object key with its colon: [s] starts at the opening quote. *)
Definition parse_key (s : string) : option (string * string) :=
  match s with
  | String c t =>
    if Ascii.eqb c dquote then
      match parse_string t with
      | Some (k, rest) =>
        match skip_space rest with
        | String c' rest' =>
          if Ascii.eqb c' ":" then Some (k, rest') else None
        | EmptyString => None
        end
      | None => None
      end
    else None
  | EmptyString => None
  end.

Section Steps.

(** The parsers for a value, for the rest of an array and for the rest of
    an object, each given the three parsers it calls on shorter texts. *)
Variable parse_value : string -> option (value * string).
Variable parse_elements : string -> list value -> option (value * string).
Variable parse_members
  : string -> list (string * value) -> option (value * string).

Definition value_step (s : string) : option (value * string) :=
  match skip_space s with
  | EmptyString => None
  | String c t =>
    if Ascii.eqb c "{" then
      match skip_space t with
      | EmptyString => None
      | String c' t' =>
        if Ascii.eqb c' "}" then Some (Object [], t')
        else
          match parse_key (String c' t') with
          | Some (k, rest) =>
            match parse_value rest with
            | Some (v, rest') => parse_members rest' [(k, v)]
            | None => None
            end
          | None => None
          end
      end
    else if Ascii.eqb c "[" then
      match skip_space t with
      | EmptyString => None
      | String c' t' =>
        if Ascii.eqb c' "]" then Some (Array [], t')
        else
          match parse_value (String c' t') with
          | Some (v, rest) => parse_elements rest [v]
          | None => None
          end
      end
    else if Ascii.eqb c dquote then
      match parse_string t with
      | Some (u, rest) => Some (Str u, rest)
      | None => None
      end
    else if Ascii.eqb c "-" then number_value c (scan_number stateNeg t)
    else if Ascii.eqb c "0" then number_value c (scan_number state0 t)
    else if isDigit c then number_value c (scan_number state1 t)
    else if Ascii.eqb c "t" then
      literal_value (Bool true) (strip_prefix "rue" t)
    else if Ascii.eqb c "f" then
      literal_value (Bool false) (strip_prefix "alse" t)
    else if Ascii.eqb c "n" then
      literal_value Null (strip_prefix "ull" t)
    else None
  end.

(** After an array element: a comma and the next element, or the end. *)
Definition elements_step (s : string) (acc : list value)
  : option (value * string) :=
  match skip_space s with
  | EmptyString => None
  | String c t =>
    if Ascii.eqb c "," then
      match parse_value t with
      | Some (v, rest) => parse_elements rest (v :: acc)
      | None => None
      end
    else if Ascii.eqb c "]" then Some (Array (rev acc), t)
    else None
  end.

(** After an object member: a comma and the next member, or the end. *)
Definition members_step (s : string) (acc : list (string * value))
  : option (value * string) :=
  match skip_space s with
  | EmptyString => None
  | String c t =>
    if Ascii.eqb c "," then
      match parse_key (skip_space t) with
      | Some (k, rest) =>
        match parse_value rest with
        | Some (v, rest') => parse_members rest' ((k, v) :: acc)
        | None => None
        end
      | None => None
      end
    else if Ascii.eqb c "}" then Some (Object (rev acc), t)
    else None
  end.

End Steps.

Fixpoint parse_value (fuel : nat) (s : string) {struct fuel}
  : option (value * string) :=
  match fuel with
  | O => None
  | S fuel' =>
    value_step (parse_value fuel') (parse_elements fuel')
               (parse_members fuel') s
  end
with parse_elements (fuel : nat) (s : string) (acc : list value)
  {struct fuel} : option (value * string) :=
  match fuel with
  | O => None
  | S fuel' => elements_step (parse_value fuel') (parse_elements fuel') s acc
  end
with parse_members (fuel : nat) (s : string) (acc : list (string * value))
  {struct fuel} : option (value * string) :=
  match fuel with
  | O => None
  | S fuel' => members_step (parse_value fuel') (parse_members fuel') s acc
  end.

(** The first JSON value of [data] and the text after it. *)
Definition parse_prefix (data : string) : option (value * string) :=
  parse_value (S (String.length data)) data.

(** [checkValid]: [data] is one JSON value, surrounded by white space. *)
Definition parse (data : string) : option value :=
  match parse_prefix data with
  | Some (v, rest) =>
    match skip_space rest with
    | EmptyString => Some v
    | String _ _ => None
    end
  | None => None
  end.

(** *** Field names

    A key selects the field whose name equals it, else the first field whose
    name matches it under the case folding [foldFunc] picks for that name. *)

Definition caseMask : Z := 0xDF.
Definition kelvin : Z := 0x212A.
Definition smallLongEss : Z := 0x17F.

Definition isUpperMasked (u : Z) : bool := (65 <=? u) && (u <=? 90).

Fixpoint simpleLetterEqualFold (s t : string) : bool :=
  match s, t with
  | EmptyString, EmptyString => true
  | String a s', String b t' =>
    (Z.land (bv a) caseMask =? Z.land (bv b) caseMask)
    && simpleLetterEqualFold s' t'
  | _, _ => false
  end.

Fixpoint asciiEqualFold (s t : string) : bool :=
  match s, t with
  | EmptyString, EmptyString => true
  | String a s', String b t' =>
    (Ascii.eqb a b
     || (isUpperMasked (Z.land (bv a) caseMask)
         && (Z.land (bv a) caseMask =? Z.land (bv b) caseMask)))
    && asciiEqualFold s' t'
  | _, _ => false
  end.

Fixpoint equalFoldRight (s t : string) : bool :=
  match s with
  | EmptyString =>
    match t with EmptyString => true | String _ _ => false end
  | String sb s' =>
    match t with
    | EmptyString => false
    | String tb t' =>
      if bv tb <? utf8.RuneSelf then
        (Ascii.eqb sb tb
         || (isUpperMasked (Z.land (bv sb) caseMask)
             && (Z.land (bv sb) caseMask =? Z.land (bv tb) caseMask)))
        && equalFoldRight s' t'
      else
        let '(tr, size) := utf8.DecodeRune t in
        (if Ascii.eqb sb "s" || Ascii.eqb sb "S" then tr =? smallLongEss
         else if Ascii.eqb sb "k" || Ascii.eqb sb "K" then tr =? kelvin
         else false)
        && equalFoldRight s' (drop size t)
    end
  end.

Fixpoint has_special_letter (s : string) : bool :=
  match s with
  | EmptyString => false
  | String b t =>
    let u := Z.land (bv b) caseMask in
    (u =? 75) || (u =? 83) || has_special_letter t
  end.

Fixpoint has_non_letter (s : string) : bool :=
  match s with
  | EmptyString => false
  | String b t =>
    negb (isUpperMasked (Z.land (bv b) caseMask)) || has_non_letter t
  end.

(** [foldFunc], for a name made of ASCII bytes (as the names of both
    records are; for another name Go takes [bytes.EqualFold]). *)
Definition foldFunc (name : string) : string -> string -> bool :=
  if has_special_letter name then equalFoldRight
  else if has_non_letter name then asciiEqualFold
  else simpleLetterEqualFold.

Fixpoint find_field {F : Type} (fields : list (string * F)) (key : string)
  (found : option F) : option F :=
  match fields with
  | [] => found
  | (name, f) :: rest =>
    if String.eqb name key then Some f
    else
      find_field rest key
        (match found with
         | Some _ => found
         | None => if foldFunc name name key then Some f else None
         end)
  end.

(** *** Storing a value in a field

    What [literalStore], [array] and [object] do with a value, by the kind
    of the destination: set it, leave it (null), or report a type error. *)

Inductive stored (A : Type) : Type :=
| SetTo (a : A)
| Keep
| Mismatch (Value : string).
Arguments SetTo {A} a.
Arguments Keep {A}.
Arguments Mismatch {A} Value.

Definition mismatch_of {A : Type} (v : value) : stored A :=
  match v with
  | Null => Keep
  | Bool _ => Mismatch "bool"
  | Number _ => Mismatch "number"
  | Str _ => Mismatch "string"
  | Array _ => Mismatch "array"
  | Object _ => Mismatch "object"
  end.

Definition as_int64 (v : value) : stored Z :=
  match v with
  | Number lit =>
    match strconv.ParseInt lit with
    | Some n => SetTo n
    | None => Mismatch ("number " ++ lit)
    end
  | _ => mismatch_of v
  end.

Definition as_string (v : value) : stored string :=
  match v with
  | Str s => SetTo s
  | _ => mismatch_of v
  end.

Definition as_bool (v : value) : stored bool :=
  match v with
  | Bool b => SetTo b
  | _ => mismatch_of v
  end.

(** [saveError]: the first error is the one reported. *)
Definition saveError (saved : option error) (e : error) : option error :=
  match saved with
  | Some _ => saved
  | None => Some e
  end.

Definition store {A R : Type} (field : string) (st : stored A)
  (set : A -> R -> R) (acc : R * option error) : R * option error :=
  match st with
  | SetTo a => (set a (fst acc), snd acc)
  | Keep => acc
  | Mismatch what =>
    (fst acc, saveError (snd acc) (UnmarshalTypeError what field))
  end.

End json.

(** ** The wire records *)

Record PhotoMetadata : Type := {
  ChatId : Z;           (* int64, json chat_id *)
  PhotoUrl : string;    (* json photo_url *)
  Caption : string;     (* json caption *)
  StyledUrl : string;   (* json styled_url *)
  Published : bool;     (* json published *)
  PhotoId : string      (* json photo_id *)
}.

Record CaptionApiResponse : Type := {
  Output : string;
  Job_id : Z;           (* int *)
  Err : string
}.

(** The zero values, as [var metadata PhotoMetadata] gives. *)
Definition zero_PhotoMetadata : PhotoMetadata :=
  {| ChatId := 0; PhotoUrl := EmptyString; Caption := EmptyString;
     StyledUrl := EmptyString; Published := false; PhotoId := EmptyString |}.

Definition zero_CaptionApiResponse : CaptionApiResponse :=
  {| Output := EmptyString; Job_id := 0; Err := EmptyString |}.

Definition set_ChatId (x : Z) (m : PhotoMetadata) : PhotoMetadata :=
  {| ChatId := x; PhotoUrl := PhotoUrl m; Caption := Caption m;
     StyledUrl := StyledUrl m; Published := Published m;
     PhotoId := PhotoId m |}.
Definition set_PhotoUrl (x : string) (m : PhotoMetadata) : PhotoMetadata :=
  {| ChatId := ChatId m; PhotoUrl := x; Caption := Caption m;
     StyledUrl := StyledUrl m; Published := Published m;
     PhotoId := PhotoId m |}.
Definition set_Caption (x : string) (m : PhotoMetadata) : PhotoMetadata :=
  {| ChatId := ChatId m; PhotoUrl := PhotoUrl m; Caption := x;
     StyledUrl := StyledUrl m; Published := Published m;
     PhotoId := PhotoId m |}.
Definition set_StyledUrl (x : string) (m : PhotoMetadata) : PhotoMetadata :=
  {| ChatId := ChatId m; PhotoUrl := PhotoUrl m; Caption := Caption m;
     StyledUrl := x; Published := Published m; PhotoId := PhotoId m |}.
Definition set_Published (x : bool) (m : PhotoMetadata) : PhotoMetadata :=
  {| ChatId := ChatId m; PhotoUrl := PhotoUrl m; Caption := Caption m;
     StyledUrl := StyledUrl m; Published := x; PhotoId := PhotoId m |}.
Definition set_PhotoId (x : string) (m : PhotoMetadata) : PhotoMetadata :=
  {| ChatId := ChatId m; PhotoUrl := PhotoUrl m; Caption := Caption m;
     StyledUrl := StyledUrl m; Published := Published m; PhotoId := x |}.

Definition set_Output (x : string) (r : CaptionApiResponse) :=
  {| Output := x; Job_id := Job_id r; Err := Err r |}.
Definition set_Job_id (x : Z) (r : CaptionApiResponse) :=
  {| Output := Output r; Job_id := x; Err := Err r |}.
Definition set_Err (x : string) (r : CaptionApiResponse) :=
  {| Output := Output r; Job_id := Job_id r; Err := x |}.

Inductive PhotoMetadataField : Type :=
| fChatId | fPhotoUrl | fCaption | fStyledUrl | fPublished | fPhotoId.

Inductive CaptionApiResponseField : Type :=
| fOutput | fJob_id | fErr.

Definition PhotoMetadata_fields : list (string * PhotoMetadataField) :=
  [("chat_id", fChatId); ("photo_url", fPhotoUrl); ("caption", fCaption);
   ("styled_url", fStyledUrl); ("published", fPublished);
   ("photo_id", fPhotoId)].

Definition CaptionApiResponse_fields
  : list (string * CaptionApiResponseField) :=
  [("Output", fOutput); ("Job_id", fJob_id); ("Err", fErr)].

(** One member of an object decoded into a PhotoMetadata. *)
Definition PhotoMetadata_member (acc : PhotoMetadata * option error)
  (kv : string * json.value) : PhotoMetadata * option error :=
  let '(key, v) := kv in
  match json.find_field PhotoMetadata_fields key None with
  | None => acc
  | Some fChatId =>
    json.store "PhotoMetadata.chat_id" (json.as_int64 v) set_ChatId acc
  | Some fPhotoUrl =>
    json.store "PhotoMetadata.photo_url" (json.as_string v) set_PhotoUrl acc
  | Some fCaption =>
    json.store "PhotoMetadata.caption" (json.as_string v) set_Caption acc
  | Some fStyledUrl =>
    json.store "PhotoMetadata.styled_url" (json.as_string v) set_StyledUrl acc
  | Some fPublished =>
    json.store "PhotoMetadata.published" (json.as_bool v) set_Published acc
  | Some fPhotoId =>
    json.store "PhotoMetadata.photo_id" (json.as_string v) set_PhotoId acc
  end.

Definition CaptionApiResponse_member (acc : CaptionApiResponse * option error)
  (kv : string * json.value) : CaptionApiResponse * option error :=
  let '(key, v) := kv in
  match json.find_field CaptionApiResponse_fields key None with
  | None => acc
  | Some fOutput =>
    json.store "CaptionApiResponse.Output" (json.as_string v) set_Output acc
  | Some fJob_id =>
    json.store "CaptionApiResponse.Job_id" (json.as_int64 v) set_Job_id acc
  | Some fErr =>
    json.store "CaptionApiResponse.Err" (json.as_string v) set_Err acc
  end.

(** [decodeState.value] on a struct: an object is stored member by member,
    null leaves the struct as it is, anything else is a type error. *)
Definition decode_struct {R : Type}
  (member : R * option error -> string * json.value -> R * option error)
  (v : json.value) (r : R) : R * option error :=
  match v with
  | json.Object members => fold_left member members (r, None)
  | json.Null => (r, None)
  | json.Bool _ => (r, Some (UnmarshalTypeError "bool" EmptyString))
  | json.Number _ => (r, Some (UnmarshalTypeError "number" EmptyString))
  | json.Str _ => (r, Some (UnmarshalTypeError "string" EmptyString))
  | json.Array _ => (r, Some (UnmarshalTypeError "array" EmptyString))
  end.

(** [json.Unmarshal(data, &metadata)]: a text that is not valid JSON leaves
    the record untouched. *)
Definition Unmarshal_PhotoMetadata (data : string) (m : PhotoMetadata)
  : PhotoMetadata * option error :=
  match json.parse data with
  | Some v => decode_struct PhotoMetadata_member v m
  | None => (m, Some SyntaxError)
  end.

Definition quoted_name (name : string) : string :=
  String dquote (name ++ String dquote ":").

Definition encodeBool (b : bool) : string := if b then "true" else "false".

(** [json.Marshal(&metadata)]: the fields in the order of the struct; no
    field of this record can fail to encode. *)
Definition Marshal_PhotoMetadata (m : PhotoMetadata) : string * option error :=
  ("{" ++ quoted_name "chat_id" ++ strconv.FormatInt (ChatId m)
   ++ "," ++ quoted_name "photo_url" ++ json.encodeString (PhotoUrl m)
   ++ "," ++ quoted_name "caption" ++ json.encodeString (Caption m)
   ++ "," ++ quoted_name "styled_url" ++ json.encodeString (StyledUrl m)
   ++ "," ++ quoted_name "published" ++ encodeBool (Published m)
   ++ "," ++ quoted_name "photo_id" ++ json.encodeString (PhotoId m)
   ++ "}", None).

(** ** The world outside the worker

    Calls that leave the process are answered by a [World]: each field gives
    the results of one library call, with the shape the Go API has (a
    pointer result may be nil, modelled by [None]). *)

Record URL : Type := { Host : string }.

(** An [io.ReadCloser]: the bytes it yields and the error that ends the
    reading, [None] standing for [io.EOF]. *)
Record ReadCloser : Type := { content : string; readErr : option error }.

Record Response : Type := { Body : ReadCloser }.

Record Request : Type := {
  Method : string;
  RequestURL : string;
  Header : list (string * string);
  RequestBody : string
}.

Record Message : Type := {
  Channel : string;
  Pattern : string;
  Payload : string
}.

Record World : Type := {
  url_Parse : string -> option URL * option error;
  http_Get : string -> option Response * option error;
  client_Do : Request -> option Response * option error;
  randomBoundary : string;
  redis_Ping : string * option error;
  redis_ReceiveTimeout : option error;
  redis_HSet : string -> string -> string -> bool * option error;
  redis_Publish : string -> string -> Z * option error;
  (* the messages the subscription delivers; its channel is never closed *)
  redis_Channel : list Message;
  (* the process environment: the value of a variable that is set *)
  viper_env : string -> option string;
  (* the value of a variable that is set and not empty, read as an int *)
  viper_env_int : string -> option Z
}.

(** ** Effects

    A computation yields its outcome and the trace of what it did outside
    the process.  [Panic] is a run-time panic (here: a nil pointer
    dereference), which ends the program; [Exit] is [os.Exit]; [Blocked]
    is a call that never returns: it waits for ever, here for the next
    message of a channel that nothing closes.  A log line is recorded by
    its format string. *)

Inductive Outcome (A : Type) : Type :=
| Ret (a : A)
| Panic
| Exit (code : Z)
| Blocked.
Arguments Ret {A} a.
Arguments Panic {A}.
Arguments Exit {A} code.
Arguments Blocked {A}.

Inductive Event : Type :=
| Log (format : string)
| HttpGet (uri : string)
| HttpDo (req : Request)
| Close
| Ping
| Subscribe (channel : string)
| Receive
| HSet (key field value : string)
| Publish (channel payload : string)
| Go (out : Outcome unit) (trace : list Event).

Definition M (A : Type) : Type := Outcome A * list Event.

Definition ret {A : Type} (a : A) : M A := (Ret a, []).

Definition bind {A B : Type} (m : M A) (k : A -> M B) : M B :=
  match m with
  | (Ret a, t) => let '(o, t') := k a in (o, (t ++ t')%list)
  | (Panic, t) => (Panic, t)
  | (Exit c, t) => (Exit c, t)
  | (Blocked, t) => (Blocked, t)
  end.

Declare Scope go_scope.
Delimit Scope go_scope with go.
Notation "x <- m ;; k" := (bind m (fun x => k))
  (at level 61, m at next level, right associativity) : go_scope.
Notation "m ;; k" := (bind m (fun _ => k))
  (at level 61, right associativity) : go_scope.
Local Open Scope go_scope.

Definition emit (e : Event) : M unit := (Ret tt, [e]).
Definition log_Printf (format : string) : M unit := emit (Log format).
Definition panic {A : Type} : M A := (Panic, []).
Definition os_Exit {A : Type} (code : Z) : M A := (Exit code, []).

(** [log.Fatal]: the line, then [os.Exit(1)]. *)
Definition log_Fatal {A : Type} (line : string) : M A :=
  log_Printf line ;; os_Exit 1.

(** Reading through a pointer: nil panics. *)
Definition deref {A : Type} (p : option A) : M A :=
  match p with
  | Some a => ret a
  | None => panic
  end.

Definition when (b : bool) (m : M unit) : M unit := if b then m else ret tt.

(** [go f(x)]: the run of the goroutine is recorded as one event, at the
    point where it is started (of the interleavings, the one in which the
    goroutine is done before its caller goes on).  A panic that nothing
    recovers, or an exit, in any goroutine ends the whole program: the
    caller does not go on. *)
Definition go (m : M unit) : M unit :=
  match fst m with
  | Panic => (Panic, [Go Panic (snd m)])
  | Exit code => (Exit code, [Go (Exit code) (snd m)])
  | o => (Ret tt, [Go o (snd m)])
  end.

(** ** The worker *)

Definition envWorkerRedisAddr := "WORKER_REDIS_ADDR".
Definition envWorkerRedisDb := "WORKER_REDIS_DB".
Definition envWorkerRedisPasswd := "WORKER_REDIS_PASSWD".
Definition envWorkerRedisChannel := "WORKER_REDIS_CHANNEL".
Definition envWorkerCaptionApiUrl := "WORKER_CAPTION_URL".
Definition envWorkerCaptionApiKey := "WORKER_CAPTION_KEY".

Record captionApiConfig : Type := { url : string; key : string }.

Record redisConfig : Type := {
  channel : string;
  addr : string;
  passwd : string;
  db : Z
}.

(** [workerConfig]; its field [redis] is named [redisCfg] here. *)
Record workerConfig : Type := {
  captionApi : captionApiConfig;
  redisCfg : redisConfig
}.

(** [redis.Options], which is all a [redis.Client] is made from. *)
Record Client : Type := { Addr : string; Password : string; DB : Z }.

(** [Worker]; its fields [redis] and [config] are [w_redis], [w_config]. *)
Record Worker : Type := { w_redis : Client; w_config : workerConfig }.

Definition CRLF : string := String "013" (String "010" EmptyString).

(** What [multipart.Writer.CreateFormFile] writes for the first part. *)
Definition formFileHeader (boundary fieldname filename : string) : string :=
  "--" ++ boundary ++ CRLF
  ++ "Content-Disposition: form-data; name=" ++ String dquote fieldname
  ++ String dquote "; filename=" ++ String dquote filename
  ++ String dquote CRLF
  ++ "Content-Type: application/octet-stream" ++ CRLF ++ CRLF.

(** What [multipart.Writer.Close] writes. *)
Definition closingBoundary (boundary : string) : string :=
  CRLF ++ "--" ++ boundary ++ "--" ++ CRLF.

Definition FormDataContentType (boundary : string) : string :=
  "multipart/form-data; boundary=" ++ boundary.

(** [http.Header.Set]. *)
Definition Header_Set (k v : string) (req : Request) : Request :=
  {| Method := Method req; RequestURL := RequestURL req;
     Header :=
       (k, v) :: filter (fun kv => negb (String.eqb (fst kv) k)) (Header req);
     RequestBody := RequestBody req |}.

(** [io.Copy(dst, src)] into a buffer: the bytes copied and the error of
    the source, nil at [io.EOF]. *)
Definition io_Copy (src : ReadCloser) : string * option error :=
  (content src, readErr src).

Definition is_scalar (v : json.value) : bool :=
  match v with
  | json.Object _ | json.Array _ => false
  | _ => true
  end.

(** [json.NewDecoder(body).Decode(&captionResponse)]: the first JSON value
    of the body is decoded, what follows it is left unread.  A value that
    is not complete when the body ends is an error (of syntax, or the read
    error of the body); so is a literal cut off by a read error. *)
Definition Decode_CaptionApiResponse (body : ReadCloser)
  (r : CaptionApiResponse) : CaptionApiResponse * option error :=
  match json.parse_prefix (content body) with
  | Some (v, rest) =>
    match readErr body, rest with
    | Some e, EmptyString =>
      if is_scalar v then (r, Some e)
      else decode_struct CaptionApiResponse_member v r
    | _, _ => decode_struct CaptionApiResponse_member v r
    end
  | None =>
    (r, Some (match readErr body with Some e => e | None => SyntaxError end))
  end.

Section WithWorld.

Variable W : World.

(** [http.NewRequest]: nil with an error when the URL does not parse. *)
Definition http_NewRequest (method target body : string)
  : option Request * option error :=
  match url_Parse W target with
  | (Some _, None) =>
    (Some {| Method := method; RequestURL := target; Header := [];
             RequestBody := body |}, None)
  | (_, Some e) => (None, Some e)
  | (None, None) => (None, Some (externalError "parse"))
  end.

(** [viper.SetDefault] then [viper.GetString], [viper.GetInt], with
    [viper.AutomaticEnv]: a variable that is set to the empty string counts
    as not set, and the default is returned. *)
Definition viper_GetString (name default : string) : string :=
  match viper_env W name with
  | Some v => if String.eqb v EmptyString then default else v
  | None => default
  end.

Definition viper_GetInt (name : string) (default : Z) : Z :=
  match viper_env_int W name with
  | Some v => v
  | None => default
  end.

Definition config : workerConfig :=
  {| captionApi :=
       {| url := viper_GetString envWorkerCaptionApiUrl
                   "https://api.deepai.org/api/neuraltalk";
          key := viper_GetString envWorkerCaptionApiKey EmptyString |};
     redisCfg :=
       {| channel := viper_GetString envWorkerRedisChannel "queue";
          addr := viper_GetString envWorkerRedisAddr "localhost:6379";
          passwd := viper_GetString envWorkerRedisPasswd EmptyString;
          db := viper_GetInt envWorkerRedisDb 0 |} |}.

(** The end of [process] (lines 229-237): the two results returned for a
    decoded response. *)
Definition caption_result (captionResponse : CaptionApiResponse)
  : string * option error :=
  let captionErr :=
    if negb (String.length (Err captionResponse) =? 0)%nat
    then Some (errorString (Err captionResponse))
    else None in
  (Output captionResponse, captionErr).

Definition getPhoto (uri : string) : M (option Response) :=
  let '(parsed, err) := url_Parse W uri in
  p <- deref parsed ;;
  when (String.eqb (Host p) EmptyString || is_err err)
       (log_Printf "[ERROR] Incorrect photo url provided: %s") ;;
  emit (HttpGet uri) ;;
  let '(resp, err) := http_Get W uri in
  when (is_err err) (log_Printf "[ERROR] Could not get the photo by %s") ;;
  ret resp.

Definition process (worker : Worker) (metadata : PhotoMetadata)
  : M (string * option error) :=
  resp <- getPhoto (PhotoUrl metadata) ;;
  let boundary := randomBoundary W in
  (* w.CreateFormFile: a write to a bytes.Buffer does not fail *)
  let fw := formFileHeader boundary "image" "file.jpg" in
  let err : option error := None in
  when (is_err err)
       (log_Printf "[ERROR] Couldn't create image form field: %s") ;;
  r <- deref resp ;;
  let '(image, err) := io_Copy (Body r) in
  when (is_err err)
       (log_Printf "[ERROR] Couldn't write image to field: %s") ;;
  emit Close ;;
  let postData := fw ++ image ++ closingBoundary boundary in
  let '(req, err) :=
    http_NewRequest "POST" (url (captionApi (w_config worker))) postData in
  when (is_err err) (log_Printf "[ERROR] Couldn't create http request: %s") ;;
  rq <- deref req ;;
  let rq := Header_Set "Content-Type" (FormDataContentType boundary) rq in
  let rq := Header_Set "Api-Key" (key (captionApi (w_config worker))) rq in
  emit (HttpDo rq) ;;
  let '(res, err) := client_Do W rq in
  when (is_err err)
       (log_Printf "[ERROR] Couldn't make a request to caption api: %s") ;;
  rs <- deref res ;;
  let '(captionResponse, err) :=
    Decode_CaptionApiResponse (Body rs) zero_CaptionApiResponse in
  when (is_err err)
       (log_Printf "[ERROR] Couldn't read response from api: %s") ;;
  (* the deferred res.Body.Close() *)
  emit Close ;;
  ret (caption_result captionResponse).

Definition handleRedis (worker : Worker) (message : Message) : M unit :=
  log_Printf "[DEBUG] Got message from redis channel %s: %v" ;;
  let '(metadata, err) :=
    Unmarshal_PhotoMetadata (Payload message) zero_PhotoMetadata in
  when (is_err err) (log_Printf "[ERROR] Couldn't decode JSON metadata, %s") ;;
  log_Printf "[DEBUG] Got metadata from message %v" ;;
  if (String.length (Caption metadata) =? 0)%nat then
    res <- process worker metadata ;;
    let '(caption, err) := res in
    if is_err err then
      log_Printf "[ERROR] Couldn't get caption from API: %s"
    else
      let metadata := set_Caption caption metadata in
      emit (HSet (PhotoId metadata) "caption" caption) ;;
      let '(_, err) := redis_HSet W (PhotoId metadata) "caption" caption in
      when (is_err err)
           (log_Printf "[ERROR] Couldn't set caption in redis for %s: %s") ;;
      let '(meta, err) := Marshal_PhotoMetadata metadata in
      when (is_err err) (log_Printf "[ERROR] Couldn't encode JSON: %s") ;;
      emit (Publish (channel (redisCfg (w_config worker))) meta) ;;
      let '(_, err) :=
        redis_Publish W (channel (redisCfg (w_config worker))) meta in
      when (is_err err)
           (log_Printf
              "[ERROR] Couldn't publish photo metadata to redis channel: %s")
  else ret tt.

(** The loop [for message := range ch { go worker.handleRedis(message) }]
    over the messages the channel delivers.  Nothing closes the channel:
    after the last message the loop waits for the next one, for ever. *)
Fixpoint dispatch (worker : Worker) (ch : list Message) : M unit :=
  match ch with
  | [] => (Blocked, [])
  | message :: ch' =>
    go (handleRedis worker message) ;; dispatch worker ch'
  end.

Definition setupRedis (worker : Worker) : M unit :=
  emit Ping ;;
  let '(pong, err) := redis_Ping W in
  (if is_err err then log_Printf "[ERROR] Couldn't ping redis server %s"
   else log_Printf "[DEBUG] got pong from redis %v") ;;
  emit (Subscribe (channel (redisCfg (w_config worker)))) ;;
  let ch := redis_Channel W in
  emit Receive ;;
  let err := redis_ReceiveTimeout W in
  when (is_err err)
       (log_Printf "[ERROR] Couldn't subscribe to redis channel %s: %s") ;;
  log_Printf "[DEBUG] subscribed to redis channel %s: %v" ;;
  dispatch worker ch.

Definition NewWorker : M Worker :=
  let cfg := config in
  (if (String.length (key (captionApi cfg)) =? 0)%nat then
     log_Fatal
       "[FATAL] Couldn't create worker due to laking caption api key"
   else ret tt) ;;
  let worker :=
    {| w_redis := {| Addr := addr (redisCfg cfg);
                     Password := passwd (redisCfg cfg);
                     DB := db (redisCfg cfg) |};
       w_config := cfg |} in
  setupRedis worker ;;
  ret worker.

Definition Start (worker : Worker) : M unit := ret tt.

Definition main : M unit :=
  worker <- NewWorker ;;
  Start worker.

End WithWorld.

(** * Vocabulary of the statements *)

(** ** Bytes of a string *)

Fixpoint all_bytes (P : byte -> bool) (s : string) : bool :=
  match s with
  | EmptyString => true
  | String c t => P c && all_bytes P t
  end.

(** A byte of a multi-byte rune. *)
Definition high (c : byte) : bool := 0x80 <=? bv c.

(** A byte the scanner accepts as it is inside a string. *)
Definition plain (c : byte) : bool :=
  negb (Ascii.eqb c dquote) && negb (Ascii.eqb c backslash)
  && negb (bv c <? 0x20).

(** The escapes of one letter the scanner accepts. *)
Definition short_escape (e : byte) : bool :=
  Ascii.eqb e "b" || Ascii.eqb e "f" || Ascii.eqb e "n"
  || Ascii.eqb e "r" || Ascii.eqb e "t" || Ascii.eqb e backslash
  || Ascii.eqb e "/" || Ascii.eqb e dquote.

(** The escape of a rune by its four hexadecimal digits. *)
Definition escape_u (h1 h2 h3 h4 : byte) : string :=
  String backslash
    (String "u" (String h1 (String h2 (String h3 (str1 h4))))).

Arguments escape_u (h1 h2 h3 h4)%_char.

(** What a scan returns, with [p] in front of the text scanned. *)
Definition prepend (p : string) (r : option (string * string))
  : option (string * string) :=
  match r with
  | Some (lit, rest) => Some (p ++ lit, rest)
  | None => None
  end.

(** A string made of encoded runes: an ASCII byte, or a sequence [p] of two
    bytes or more that [utf8.DecodeRune] takes as a whole. *)
Inductive Valid : string -> Prop :=
| Valid_nil : Valid EmptyString
| Valid_ascii (c : byte) (s : string) :
    bv c < 0x80 -> Valid s -> Valid (String c s)
| Valid_rune (p s : string) (r : Z) :
    (2 <= String.length p)%nat ->
    (forall x, utf8.DecodeRune (p ++ x) = (r, String.length p)) ->
    Valid s -> Valid (p ++ s).

(** The text between the quotes of a literal the scanner accepts. *)
Inductive Escaped : string -> Prop :=
| Escaped_nil : Escaped EmptyString
| Escaped_plain (c : byte) (s : string) :
    plain c = true -> Escaped s -> Escaped (String c s)
| Escaped_short (e : byte) (s : string) :
    short_escape e = true -> Escaped s ->
    Escaped (String backslash (String e s))
| Escaped_u (h1 h2 h3 h4 : byte) (s : string) :
    json.isHex h1 && json.isHex h2 && json.isHex h3 && json.isHex h4 = true ->
    Escaped s -> Escaped (escape_u h1 h2 h3 h4 ++ s).

(** ** Well-formed records and values *)

(** The values of an int64. *)
Definition int64 (z : Z) : Prop := - 2 ^ 63 <= z < 2 ^ 63.

(** A record as the decoder builds them: chatId an int64, the strings valid
    UTF-8. *)
Definition wf_PhotoMetadata (m : PhotoMetadata) : Prop :=
  int64 (ChatId m)
  /\ utf8.ValidString (PhotoUrl m) = true
  /\ utf8.ValidString (Caption m) = true
  /\ utf8.ValidString (StyledUrl m) = true
  /\ utf8.ValidString (PhotoId m) = true.

(** The members [json.Marshal] writes for a record, as parsed. *)
Definition members_of (m : PhotoMetadata) : list (string * json.value) :=
  [("chat_id", json.Number (strconv.FormatInt (ChatId m)));
   ("photo_url", json.Str (PhotoUrl m));
   ("caption", json.Str (Caption m));
   ("styled_url", json.Str (StyledUrl m));
   ("published", json.Bool (Published m));
   ("photo_id", json.Str (PhotoId m))].

(** A member of an object: its value, then the rest of the members. *)
Definition member_then
  (pv : string -> option (json.value * string))
  (pm : string -> list (string * json.value) -> option (json.value * string))
  (k : string) (rest : string) (acc : list (string * json.value))
  : option (json.value * string) :=
  match pv rest with
  | Some (v, rest') => pm rest' ((k, v) :: acc)
  | None => None
  end.

(** A parsed value whose strings, at the top and one level down, are valid
    UTF-8. *)
Definition value_ok (v : json.value) : bool :=
  match v with
  | json.Str s => utf8.ValidString s
  | _ => true
  end.

Definition members_ok (ms : list (string * json.value)) : bool :=
  forallb (fun kv => value_ok (snd kv)) ms.

Definition parsed_ok (v : json.value) : bool :=
  value_ok v
  && match v with
     | json.Object ms => members_ok ms
     | _ => true
     end.

(** ** Traces *)

Definition is_Log (e : Event) : bool :=
  match e with Log _ => true | _ => false end.

(** The events that change the keyed store or the channel. *)
Definition is_write (e : Event) : bool :=
  match e with HSet _ _ _ | Publish _ _ => true | _ => false end.

(** The events of the captioning call. *)
Definition is_fetch (e : Event) : bool :=
  match e with HttpGet _ | HttpDo _ => true | _ => false end.

(** The log lines that open every run of [handleRedis], given the error of
    the decoding. *)
Definition intake_log (derr : option error) : list Event :=
  Log "[DEBUG] Got message from redis channel %s: %v"
  :: (if is_err derr then [Log "[ERROR] Couldn't decode JSON metadata, %s"]
      else [])
  ++ [Log "[DEBUG] Got metadata from message %v"].

(** The request [process] posts for an image. *)
Definition caption_request (W : World) (worker : Worker) (image : string)
  : Request :=
  Header_Set "Api-Key" (key (captionApi (w_config worker)))
    (Header_Set "Content-Type" (FormDataContentType (randomBoundary W))
       {| Method := "POST";
          RequestURL := url (captionApi (w_config worker));
          Header := [];
          RequestBody :=
            formFileHeader (randomBoundary W) "image" "file.jpg"
            ++ image ++ closingBoundary (randomBoundary W) |}).

(** The trace of [process] up to the POST, for a fetched image. *)
Definition fetch_trace (W : World) (worker : Worker) (uri : string)
  (p : URL) (e1 e2 : option error) (r : Response) : list Event :=
  ((if String.eqb (Host p) EmptyString || is_err e1
    then [Log "[ERROR] Incorrect photo url provided: %s"] else [])
   ++ HttpGet uri
   :: (if is_err e2 then [Log "[ERROR] Could not get the photo by %s"]
       else [])
   ++ (if is_err (readErr (Body r))
       then [Log "[ERROR] Couldn't write image to field: %s"] else [])
   ++ [Close; HttpDo (caption_request W worker (content (Body r)))])%list.

(** The trace of [handleRedis] when the captioning call succeeds with
    caption [c]: the write to the keyed store, then the publish of the
    record with its caption set, each followed by its error line if any. *)
Definition persist_trace (W : World) (worker : Worker) (md : PhotoMetadata)
  (c : string) : list Event :=
  let payload := fst (Marshal_PhotoMetadata (set_Caption c md)) in
  let ch := channel (redisCfg (w_config worker)) in
  ([HSet (PhotoId md) "caption" c]
   ++ (if is_err (snd (redis_HSet W (PhotoId md) "caption" c))
       then [Log "[ERROR] Couldn't set caption in redis for %s: %s"]
       else [])
   ++ [Publish ch payload]
   ++ (if is_err (snd (redis_Publish W ch payload))
       then [Log "[ERROR] Couldn't publish photo metadata to redis channel: %s"]
       else []))%list.

(** The goroutine started for a message. *)
Definition spawned (W : World) (worker : Worker) (message : Message) : Event :=
  Go (fst (handleRedis W worker message)) (snd (handleRedis W worker message)).

(** What [setupRedis] does before its loop. *)
Definition subscribe_trace (W : World) (worker : Worker) : list Event :=
  ([Ping;
    if is_err (snd (redis_Ping W))
    then Log "[ERROR] Couldn't ping redis server %s"
    else Log "[DEBUG] got pong from redis %v";
    Subscribe (channel (redisCfg (w_config worker)));
    Receive]
   ++ (if is_err (redis_ReceiveTimeout W)
       then [Log "[ERROR] Couldn't subscribe to redis channel %s: %s"]
       else [])
   ++ [Log "[DEBUG] subscribed to redis channel %s: %v"])%list.

(** The worker [NewWorker] builds from the configuration. *)
Definition worker_of (W : World) : Worker :=
  {| w_redis := {| Addr := addr (redisCfg (config W));
                   Password := passwd (redisCfg (config W));
                   DB := db (redisCfg (config W)) |};
     w_config := config W |}.

(** ** Scenarios

    Concrete worlds and messages, after the scenarios of the
    specification. *)

Definition quoted (s : string) : string := String dquote (s ++ str1 dquote).

Definition photo1 : string := "https://img.example/1.jpg".
Definition captionApiUrl : string := "https://api.deepai.org/api/neuraltalk".

(** A world in which the image of [photo1] can be fetched, no other URL
    has a host (nor can be fetched), and every POST is answered by [reply],
    or fails with a nil response when [reply] is [None]. *)
Definition demo_world (reply : option string) (hset_err : option error)
  (ch : list Message) : World :=
  {| url_Parse := fun u =>
       if String.eqb u photo1 then (Some {| Host := "img.example" |}, None)
       else if String.eqb u captionApiUrl then
         (Some {| Host := "api.deepai.org" |}, None)
       else (Some {| Host := EmptyString |}, None);
     http_Get := fun u =>
       if String.eqb u photo1 then
         (Some {| Body := {| content := "JPEG"; readErr := None |} |}, None)
       else (None, Some (externalError "unsupported protocol scheme"));
     client_Do := fun _ =>
       match reply with
       | Some body =>
         (Some {| Body := {| content := body; readErr := None |} |}, None)
       | None => (None, Some (externalError "connection refused"))
       end;
     randomBoundary := "b0";
     redis_Ping := ("PONG", None);
     redis_ReceiveTimeout := None;
     redis_HSet := fun _ _ _ => (true, hset_err);
     redis_Publish := fun _ _ => (1, None);
     redis_Channel := ch;
     viper_env := fun k =>
       if String.eqb k envWorkerCaptionApiKey then Some "secret" else None;
     viper_env_int := fun _ => None |}.

(** The body of a response of the captioning API. *)
Definition reply_of (output err : string) : string :=
  "{" ++ quoted "Output" ++ ":" ++ quoted output ++ ","
  ++ quoted "Err" ++ ":" ++ quoted err ++ "}".

Definition demo_worker : Worker :=
  {| w_redis := {| Addr := "localhost:6379"; Password := EmptyString;
                   DB := 0 |};
     w_config :=
       {| captionApi := {| url := captionApiUrl; key := "secret" |};
          redisCfg := {| channel := "queue"; addr := "localhost:6379";
                         passwd := EmptyString; db := 0 |} |} |}.

Definition message_of (payload : string) : Message :=
  {| Channel := "queue"; Pattern := EmptyString; Payload := payload |}.

(** The payload of scenario A, and the same once captioned (scenario B). *)
Definition payloadA : string :=
  "{" ++ quoted "photo_id" ++ ":" ++ quoted "p1" ++ ","
  ++ quoted "photo_url" ++ ":" ++ quoted photo1 ++ ","
  ++ quoted "caption" ++ ":" ++ quoted EmptyString ++ "}".

Definition payloadB : string :=
  "{" ++ quoted "photo_id" ++ ":" ++ quoted "p1" ++ ","
  ++ quoted "photo_url" ++ ":" ++ quoted photo1 ++ ","
  ++ quoted "caption" ++ ":" ++ quoted "a dog running" ++ "}".

(** The record [payloadA] decodes to. *)
Definition recordA : PhotoMetadata :=
  {| ChatId := 0; PhotoUrl := photo1; Caption := EmptyString;
     StyledUrl := EmptyString; Published := false; PhotoId := "p1" |}.

(** A record whose caption is the single byte 0xFF, which is not UTF-8. *)
Definition recordFF : PhotoMetadata :=
  set_Caption (str1 "255"%char) recordA.

(** ** More vocabulary: network events, unsafe bytes, more worlds *)

Definition is_Close (e : Event) : bool :=
  match e with Close => true | _ => false end.

(** The events on the network: a request sent, a response body closed. *)
Definition is_network (e : Event) : bool := is_fetch e || is_Close e.

(** A byte that [json.Marshal] never writes as it is: a control byte, or
    one of the three characters HTML gives a meaning to. *)
Definition unsafe (c : byte) : bool :=
  (bv c <? 0x20) || Ascii.eqb c "<" || Ascii.eqb c ">" || Ascii.eqb c "&".

(** What [getPhoto] logs and requests for a URL that parses. *)
Definition getPhoto_trace (uri : string) (p : URL) (e1 e2 : option error)
  : list Event :=
  ((if String.eqb (Host p) EmptyString || is_err e1
    then [Log "[ERROR] Incorrect photo url provided: %s"] else [])
   ++ HttpGet uri
   :: (if is_err e2 then [Log "[ERROR] Could not get the photo by %s"]
       else []))%list.

(** What [process] logs once the POST is answered. *)
Definition reply_trace (e4 : option error) (rs : Response) : list Event :=
  ((if is_err e4
    then [Log "[ERROR] Couldn't make a request to caption api: %s"] else [])
   ++ (if is_err (snd (Decode_CaptionApiResponse (Body rs)
                         zero_CaptionApiResponse))
       then [Log "[ERROR] Couldn't read response from api: %s"] else [])
   ++ [Close])%list.

Definition safe (c : byte) : bool := negb (unsafe c).

(** The message a publish puts on the channel. *)
Definition republished (ch payload : string) : Message :=
  {| Channel := ch; Pattern := EmptyString; Payload := payload |}.

(** [W], with other answers to [url.Parse], [http.Get], and another
    environment. *)
Definition with_url_Parse
  (f : string -> option URL * option error) (W : World) : World :=
  {| url_Parse := f; http_Get := http_Get W; client_Do := client_Do W;
     randomBoundary := randomBoundary W; redis_Ping := redis_Ping W;
     redis_ReceiveTimeout := redis_ReceiveTimeout W;
     redis_HSet := redis_HSet W; redis_Publish := redis_Publish W;
     redis_Channel := redis_Channel W; viper_env := viper_env W;
     viper_env_int := viper_env_int W |}.

Definition with_http_Get
  (f : string -> option Response * option error) (W : World) : World :=
  {| url_Parse := url_Parse W; http_Get := f; client_Do := client_Do W;
     randomBoundary := randomBoundary W; redis_Ping := redis_Ping W;
     redis_ReceiveTimeout := redis_ReceiveTimeout W;
     redis_HSet := redis_HSet W; redis_Publish := redis_Publish W;
     redis_Channel := redis_Channel W; viper_env := viper_env W;
     viper_env_int := viper_env_int W |}.

Definition with_viper_env (f : string -> option string) (W : World) : World :=
  {| url_Parse := url_Parse W; http_Get := http_Get W;
     client_Do := client_Do W;
     randomBoundary := randomBoundary W; redis_Ping := redis_Ping W;
     redis_ReceiveTimeout := redis_ReceiveTimeout W;
     redis_HSet := redis_HSet W; redis_Publish := redis_Publish W;
     redis_Channel := redis_Channel W; viper_env := f;
     viper_env_int := viper_env_int W |}.

(** A world whose environment is empty. *)
Definition keyless_world : World :=
  with_viper_env (fun _ => None) (demo_world None None []).

(** A world in which [url.Parse] fails on a bad escape, returning nil. *)
Definition bad_escape : string := "%zz".

Definition strict_world : World :=
  with_url_Parse
    (fun u =>
       if String.eqb u bad_escape
       then (None, Some (externalError "invalid URL escape"))
       else url_Parse (demo_world None None []) u)
    (demo_world None None []).

(** A world in which the body of the image breaks off after four bytes. *)
Definition broken_body_world (reply : option string) : World :=
  with_http_Get
    (fun _ =>
       (Some {| Body := {| content := "JPEG";
                           readErr := Some (externalError "unexpected EOF") |} |},
        None))
    (demo_world reply None []).

(** A record with the byte 0xFF in every string field. *)
Definition recordBad : PhotoMetadata :=
  {| ChatId := -7; PhotoUrl := str1 "255"%char; Caption := str1 "255"%char;
     StyledUrl := "<" ++ str1 "255"%char; Published := true;
     PhotoId := str1 "255"%char |}.

(** A message whose photo URL has a bad escape, and one with no field. *)
Definition payloadBadUrl : string :=
  "{" ++ quoted "photo_url" ++ ":" ++ quoted bad_escape ++ "}".

Definition recordBadUrl : PhotoMetadata := set_PhotoUrl bad_escape zero_PhotoMetadata.

(** The four network events of a run of [process] that returns. *)
Definition network_trace (W : World) (worker : Worker) (uri : string)
  (r : Response) : list Event :=
  [HttpGet uri; Close;
   HttpDo (caption_request W worker (content (Body r))); Close].

(** The cases of a run of [process]: which call gave nil, if any. *)
Inductive process_case (W : World) (worker : Worker) (md : PhotoMetadata)
  : Prop :=
| case_nil_url (e1 : option error) :
    url_Parse W (PhotoUrl md) = (None, e1) ->
    process_case W worker md
| case_nil_response (p : URL) (e1 e2 : option error) :
    url_Parse W (PhotoUrl md) = (Some p, e1) ->
    http_Get W (PhotoUrl md) = (None, e2) ->
    process_case W worker md
| case_nil_request (p : URL) (e1 e2 : option error) (r : Response) :
    url_Parse W (PhotoUrl md) = (Some p, e1) ->
    http_Get W (PhotoUrl md) = (Some r, e2) ->
    (forall p', url_Parse W (url (captionApi (w_config worker)))
                <> (Some p', None)) ->
    process_case W worker md
| case_nil_reply (p p' : URL) (e1 e2 e4 : option error) (r : Response) :
    url_Parse W (PhotoUrl md) = (Some p, e1) ->
    http_Get W (PhotoUrl md) = (Some r, e2) ->
    url_Parse W (url (captionApi (w_config worker))) = (Some p', None) ->
    client_Do W (caption_request W worker (content (Body r))) = (None, e4) ->
    process_case W worker md
| case_answered (p p' : URL) (e1 e2 e4 : option error) (r rs : Response) :
    url_Parse W (PhotoUrl md) = (Some p, e1) ->
    http_Get W (PhotoUrl md) = (Some r, e2) ->
    url_Parse W (url (captionApi (w_config worker))) = (Some p', None) ->
    client_Do W (caption_request W worker (content (Body r)))
    = (Some rs, e4) ->
    process_case W worker md.

(** The runs of the handler of a message decoded to [md] with error
    [derr]: stopped at the gate, or after the panic, the error or the
    caption of [process]. *)
Inductive handler_case (W : World) (worker : Worker) (message : Message)
  (md : PhotoMetadata) (derr : option error) : Prop :=
| case_gated :
    Caption md <> EmptyString ->
    handleRedis W worker message = (Ret tt, intake_log derr) ->
    handler_case W worker message md derr
| case_panic (tr : list Event) :
    Caption md = EmptyString ->
    process W worker md = (Panic, tr) ->
    handleRedis W worker message = (Panic, (intake_log derr ++ tr)%list) ->
    handler_case W worker message md derr
| case_error (c : string) (e : error) (tr : list Event) :
    Caption md = EmptyString ->
    process W worker md = (Ret (c, Some e), tr) ->
    handleRedis W worker message
    = (Ret tt,
       (intake_log derr ++ tr
        ++ [Log "[ERROR] Couldn't get caption from API: %s"])%list) ->
    handler_case W worker message md derr
| case_enriched (c : string) (tr : list Event) :
    Caption md = EmptyString ->
    process W worker md = (Ret (c, None), tr) ->
    handleRedis W worker message
    = (Ret tt, (intake_log derr ++ tr ++ persist_trace W worker md c)%list) ->
    handler_case W worker message md derr.

(** A reply of the captioning API whose keys are in lower case, its two
    strings encoded as JSON. *)
Definition lower_reply (output err : string) : string :=
  "{" ++ quoted "output" ++ ":" ++ json.encodeString output
  ++ "," ++ quoted "err" ++ ":" ++ json.encodeString err ++ "}".

(** A world in which Redis answers every call with an error, the rest
    being as in [demo_world]. *)
Definition redis_down_world (reply : option string) (ch : list Message)
  : World :=
  {| url_Parse := url_Parse (demo_world reply None ch);
     http_Get := http_Get (demo_world reply None ch);
     client_Do := client_Do (demo_world reply None ch);
     randomBoundary := "b0";
     redis_Ping := (EmptyString, Some (externalError "connection refused"));
     redis_ReceiveTimeout := Some (externalError "i/o timeout");
     redis_HSet := fun _ _ _ =>
       (false, Some (externalError "connection refused"));
     redis_Publish := fun _ _ =>
       (0, Some (externalError "connection refused"));
     redis_Channel := ch;
     viper_env := viper_env (demo_world reply None ch);
     viper_env_int := fun _ => None |}.


(** Whether the program goes on after the run of a goroutine: not after a
    panic or an exit. *)
Definition goes_on (o : Outcome unit) : bool :=
  match o with
  | Panic | Exit _ => false
  | _ => true
  end.

(** The messages the loop of [setupRedis] starts a goroutine for: those
    the channel delivers, up to the first whose handler ends the program. *)
Fixpoint handled (W : World) (worker : Worker) (ch : list Message)
  : list Message :=
  match ch with
  | [] => []
  | message :: ch' =>
    message
    :: (if goes_on (fst (handleRedis W worker message))
        then handled W worker ch' else [])
  end.

(** How the loop of [setupRedis] ends: it waits for ever for the next
    message, unless a handler has panicked. *)
Definition loop_end {A : Type} (W : World) (worker : Worker)
  (ch : list Message) : Outcome A :=
  if forallb (fun message => goes_on (fst (handleRedis W worker message))) ch
  then Blocked else Panic.

(** * Properties *)

(** ** Bytes and bit arithmetic *)

Lemma bv_range (c : byte) : 0 <= bv c < 256.
Proof.
  unfold bv. pose proof (N_ascii_bounded c) as H. lia.
Qed.

Lemma byte_of_bv (c : byte) : byte_of (bv c) = c.
Proof.
  unfold byte_of. rewrite Z.mod_small by apply bv_range.
  unfold bv. rewrite N2Z.id. apply ascii_N_embedding.
Qed.

Lemma byte_of_eq (z : Z) (c : byte) : z = bv c -> byte_of z = c.
Proof. intros ->. apply byte_of_bv. Qed.

Lemma bv_byte_of (z : Z) : 0 <= z < 256 -> bv (byte_of z) = z.
Proof.
  intros H. unfold bv, byte_of. rewrite Z.mod_small by assumption.
  rewrite N_ascii_embedding.
  - lia.
  - lia.
Qed.

Lemma bv_inj (a b : byte) : bv a = bv b -> a = b.
Proof.
  intros H. rewrite <- (byte_of_bv a), <- (byte_of_bv b). now rewrite H.
Qed.

Lemma land_shiftl_small (a b k : Z) :
  0 <= k -> 0 <= b < 2 ^ k -> Z.land (Z.shiftl a k) b = 0.
Proof.
  intros Hk Hb. apply Z.bits_inj'. intros n Hn.
  rewrite Z.land_spec, Z.bits_0.
  destruct (Z.lt_ge_cases n k) as [Hlt | Hge].
  - rewrite Z.shiftl_spec_low by assumption. reflexivity.
  - rewrite <- (Z.mod_small b (2 ^ k)) by assumption.
    rewrite Z.mod_pow2_bits_high by lia. apply andb_false_r.
Qed.

Lemma lor_shiftl (a b k : Z) :
  0 <= k -> 0 <= b < 2 ^ k -> Z.lor (Z.shiftl a k) b = a * 2 ^ k + b.
Proof.
  intros Hk Hb. rewrite <- Z.shiftl_mul_pow2 by assumption.
  pose proof (Z.add_lor_land (Z.shiftl a k) b) as H.
  rewrite land_shiftl_small in H by assumption. lia.
Qed.

Lemma land_ones_mod (x k : Z) : 0 <= k -> Z.land x (Z.ones k) = x mod 2 ^ k.
Proof. apply Z.land_ones. Qed.

Lemma land_maskx (x : Z) : Z.land x utf8.maskx = x mod 64.
Proof. change utf8.maskx with (Z.ones 6). now rewrite land_ones_mod. Qed.

Lemma land_mask2 (x : Z) : Z.land x utf8.mask2 = x mod 32.
Proof. change utf8.mask2 with (Z.ones 5). now rewrite land_ones_mod. Qed.

Lemma land_mask3 (x : Z) : Z.land x utf8.mask3 = x mod 16.
Proof. change utf8.mask3 with (Z.ones 4). now rewrite land_ones_mod. Qed.

Lemma land_mask4 (x : Z) : Z.land x utf8.mask4 = x mod 8.
Proof. change utf8.mask4 with (Z.ones 3). now rewrite land_ones_mod. Qed.

Lemma lor_t2 (x : Z) : 0 <= x < 64 -> Z.lor utf8.t2 x = 192 + x.
Proof.
  intros H. change utf8.t2 with (Z.shiftl 3 6).
  rewrite lor_shiftl; lia.
Qed.

Lemma lor_tx (x : Z) : 0 <= x < 64 -> Z.lor utf8.tx x = 128 + x.
Proof.
  intros H. change utf8.tx with (Z.shiftl 2 6).
  rewrite lor_shiftl; lia.
Qed.

Lemma lor_t3 (x : Z) : 0 <= x < 16 -> Z.lor utf8.t3 x = 224 + x.
Proof.
  intros H. change utf8.t3 with (Z.shiftl 14 4).
  rewrite lor_shiftl; lia.
Qed.

Lemma lor_t4 (x : Z) : 0 <= x < 8 -> Z.lor utf8.t4 x = 240 + x.
Proof.
  intros H. change utf8.t4 with (Z.shiftl 30 3).
  rewrite lor_shiftl; lia.
Qed.

Lemma lor2 (x y : Z) :
  0 <= y < 64 -> Z.lor (Z.shiftl x 6) y = x * 64 + y.
Proof. intros H. rewrite lor_shiftl; lia. Qed.

Lemma lor3 (x y z : Z) :
  0 <= y < 64 -> 0 <= z < 64 ->
  Z.lor (Z.lor (Z.shiftl x 12) (Z.shiftl y 6)) z = x * 4096 + y * 64 + z.
Proof.
  intros Hy Hz.
  replace (Z.shiftl x 12) with (Z.shiftl (Z.shiftl x 6) 6)
    by (rewrite Z.shiftl_shiftl by lia; reflexivity).
  rewrite <- Z.shiftl_lor, lor2 by assumption.
  rewrite lor2 by assumption. lia.
Qed.

Lemma lor4 (x y z w : Z) :
  0 <= y < 64 -> 0 <= z < 64 -> 0 <= w < 64 ->
  Z.lor (Z.lor (Z.lor (Z.shiftl x 18) (Z.shiftl y 12)) (Z.shiftl z 6)) w
  = x * 262144 + y * 4096 + z * 64 + w.
Proof.
  intros Hy Hz Hw.
  replace (Z.shiftl x 18) with (Z.shiftl (Z.shiftl x 6) 12)
    by (rewrite Z.shiftl_shiftl by lia; reflexivity).
  replace (Z.shiftl y 12) with (Z.shiftl (Z.shiftl y 6) 6)
    by (rewrite Z.shiftl_shiftl by lia; reflexivity).
  replace (Z.shiftl (Z.shiftl x 6) 12)
    with (Z.shiftl (Z.shiftl (Z.shiftl x 6) 6) 6)
    by (rewrite (Z.shiftl_shiftl (Z.shiftl x 6)) by lia; reflexivity).
  rewrite <- !Z.shiftl_lor.
  rewrite (lor2 x y) by assumption.
  rewrite (lor2 (x * 64 + y) z) by assumption.
  rewrite lor2 by assumption. lia.
Qed.

(** ** UTF-8: a decoded rune encodes to the bytes it was read from *)

Lemma EncodeRune1 (r : Z) :
  0 <= r <= 0x7F -> utf8.EncodeRune r = str1 (byte_of r).
Proof.
  intros H. unfold utf8.EncodeRune, utf8.rune1Max.
  destruct (0 <=? r) eqn:E1; destruct (r <=? 127) eqn:E2; try lia.
  reflexivity.
Qed.

Lemma EncodeRune2 (r : Z) :
  0x80 <= r <= 0x7FF ->
  utf8.EncodeRune r
  = String (byte_of (192 + r / 64)) (str1 (byte_of (128 + r mod 64))).
Proof.
  intros H. unfold utf8.EncodeRune, utf8.rune1Max, utf8.rune2Max.
  destruct (0 <=? r) eqn:E1; destruct (r <=? 127) eqn:E2;
    destruct (r <=? 2047) eqn:E3; try lia.
  cbn [andb]. rewrite land_maskx, Z.shiftr_div_pow2 by lia.
  change (2 ^ 6) with 64.
  rewrite lor_t2, lor_tx; [reflexivity | |];
    Z.div_mod_to_equations; lia.
Qed.

Lemma EncodeRune3 (r : Z) :
  0x800 <= r <= 0xFFFF -> ~ (0xD800 <= r <= 0xDFFF) ->
  utf8.EncodeRune r
  = String (byte_of (224 + r / 4096))
      (String (byte_of (128 + (r / 64) mod 64))
         (str1 (byte_of (128 + r mod 64)))).
Proof.
  intros H Hs.
  unfold utf8.EncodeRune, utf8.rune1Max, utf8.rune2Max, utf8.rune3Max,
    utf8.MaxRune, utf8.surrogateMin, utf8.surrogateMax.
  destruct (0 <=? r) eqn:E1; destruct (r <=? 127) eqn:E2;
    destruct (r <=? 2047) eqn:E3; destruct (r <? 0) eqn:E4;
    destruct (1114111 <? r) eqn:E5; destruct (55296 <=? r) eqn:E6;
    destruct (r <=? 57343) eqn:E7; destruct (r <=? 65535) eqn:E8;
    try lia; cbn [andb orb];
    unfold utf8.encode3;
    rewrite !land_maskx, !Z.shiftr_div_pow2 by lia;
    change (2 ^ 6) with 64; change (2 ^ 12) with 4096;
    (rewrite lor_t3, !lor_tx; [reflexivity | | |];
     Z.div_mod_to_equations; lia).
Qed.

Lemma EncodeRune4 (r : Z) :
  0x10000 <= r <= 0x10FFFF ->
  utf8.EncodeRune r
  = String (byte_of (240 + r / 262144))
      (String (byte_of (128 + (r / 4096) mod 64))
         (String (byte_of (128 + (r / 64) mod 64))
            (str1 (byte_of (128 + r mod 64))))).
Proof.
  intros H.
  unfold utf8.EncodeRune, utf8.rune1Max, utf8.rune2Max, utf8.rune3Max,
    utf8.MaxRune, utf8.surrogateMin, utf8.surrogateMax.
  destruct (0 <=? r) eqn:E1; destruct (r <=? 127) eqn:E2;
    destruct (r <=? 2047) eqn:E3; destruct (r <? 0) eqn:E4;
    destruct (1114111 <? r) eqn:E5; destruct (55296 <=? r) eqn:E6;
    destruct (r <=? 57343) eqn:E7; destruct (r <=? 65535) eqn:E8;
    try lia; cbn [andb orb];
    rewrite !land_maskx, !Z.shiftr_div_pow2 by lia;
    change (2 ^ 6) with 64; change (2 ^ 12) with 4096;
    change (2 ^ 18) with 262144;
    (rewrite lor_t4, !lor_tx; [reflexivity | | | |];
     Z.div_mod_to_equations; lia).
Qed.

Lemma mod64_bound (x : Z) : 0 <= x mod 64 < 64.
Proof. apply Z.mod_pos_bound. lia. Qed.

Ltac split_ifs_in H :=
  repeat match type of H with
         | context [if ?b then _ else _] => destruct b eqn:?
         end.

Ltac split_ifs :=
  repeat match goal with
         | |- context [if ?b then _ else _] => destruct b eqn:?
         end.

Lemma first_high (b : Z) : 0x80 <= b -> utf8.first b <> utf8.ASCII.
Proof.
  intros H. unfold utf8.first. split_ifs; try discriminate; lia.
Qed.

(** What [first] says of a leading byte, by size. *)
Lemma first_Lead (b : Z) (sz : nat) (lo hi : Z) :
  utf8.first b = utf8.Lead sz lo hi ->
  0x80 <= lo /\ hi <= 0xBF /\
  ((sz = 2%nat /\ 0xC2 <= b <= 0xDF)
   \/ (sz = 3%nat /\ 0xE0 <= b <= 0xEF
       /\ (b = 0xE0 -> 0xA0 <= lo) /\ (b = 0xED -> hi <= 0x9F))
   \/ (sz = 4%nat /\ 0xF0 <= b <= 0xF4
       /\ (b = 0xF0 -> 0x90 <= lo) /\ (b = 0xF4 -> hi <= 0x8F))).
Proof.
  unfold utf8.first, utf8.locb, utf8.hicb. intros H.
  split_ifs_in H; try discriminate; injection H as <- <- <-;
    (split; [lia | split; [lia |]]).
  - left. lia.
  - right. left. lia.
  - right. left. lia.
  - right. left. lia.
  - right. left. lia.
  - right. right. lia.
  - right. right. lia.
  - right. right. lia.
Qed.

Lemma DecodeRune_multibyte (c0 : byte) (t : string) (r : Z) (size : nat) :
  utf8.DecodeRune (String c0 t) = (r, size) ->
  0x80 <= bv c0 ->
  (r =? utf8.RuneError) && (size =? 1)%nat = false ->
  exists p rest,
    String c0 t = p ++ rest /\ String.length p = size /\
    utf8.EncodeRune r = p /\ all_bytes high p = true /\
    (forall x, utf8.DecodeRune (p ++ x) = (r, size)).
Proof.
  intros H Hhi Hne.
  pose proof (bv_range c0) as R0.
  unfold utf8.DecodeRune in H.
  destruct (utf8.first (bv c0)) as [| | sz lo hi] eqn:Hf.
  - exfalso. revert Hf. apply first_high. assumption.
  - injection H as <- <-. discriminate Hne.
  - destruct (first_Lead _ _ _ _ Hf) as (Hlo & Hhi' & Hsz).
    destruct (String.length (String c0 t) <? sz)%nat eqn:Hlen;
      [injection H as <- <-; discriminate Hne |].
    destruct t as [| c1 t1]; [injection H as <- <-; discriminate Hne |].
    pose proof (bv_range c1) as R1.
    destruct ((bv c1 <? lo) || (hi <? bv c1)) eqn:H1;
      [injection H as <- <-; discriminate Hne |].
    apply orb_false_elim in H1. destruct H1 as [H1a H1b].
    destruct Hsz as [(-> & Hb) | [(-> & Hb & HE0 & HED) | (-> & Hb & HF0 & HF4)]].
    + (* two bytes *)
      cbn [Nat.leb] in H.
      rewrite land_mask2, land_maskx, lor2 in H by apply mod64_bound.
      apply pair_equal_spec in H. destruct H as [<- <-].
      exists (String c0 (str1 c1)), t1.
      split; [reflexivity |]. split; [reflexivity |].
      split; [| split].
      * rewrite EncodeRune2 by (Z.div_mod_to_equations; lia).
        f_equal; [| unfold str1; f_equal]; apply byte_of_eq;
          Z.div_mod_to_equations; lia.
      * unfold all_bytes, high, str1.
        rewrite !andb_true_iff. repeat split; lia.
      * intros x. cbn [append str1]. unfold utf8.DecodeRune.
        rewrite Hf. cbn [String.length Nat.ltb Nat.leb].
        rewrite H1a, H1b. cbn [orb].
        rewrite land_mask2, land_maskx, lor2 by apply mod64_bound.
        reflexivity.
    + (* three bytes *)
      cbn [Nat.leb] in H.
      destruct t1 as [| c2 t2]; [injection H as <- <-; discriminate Hne |].
      pose proof (bv_range c2) as R2.
      destruct ((bv c2 <? utf8.locb) || (utf8.hicb <? bv c2)) eqn:H2;
        [injection H as <- <-; discriminate Hne |].
      apply orb_false_elim in H2. destruct H2 as [H2a H2b].
      unfold utf8.locb, utf8.hicb in H2a, H2b.
      rewrite land_mask3, !land_maskx, lor3 in H by apply mod64_bound.
      apply pair_equal_spec in H. destruct H as [<- <-].
      exists (String c0 (String c1 (str1 c2))), t2.
      split; [reflexivity |]. split; [reflexivity |].
      split; [| split].
      * rewrite EncodeRune3 by (Z.div_mod_to_equations; lia).
        f_equal; [| f_equal; [| unfold str1; f_equal]]; apply byte_of_eq;
          Z.div_mod_to_equations; lia.
      * unfold all_bytes, high, str1.
        rewrite !andb_true_iff. repeat split; lia.
      * intros x. cbn [append str1]. unfold utf8.DecodeRune.
        rewrite Hf. cbn [String.length Nat.ltb Nat.leb].
        rewrite H1a, H1b. cbn [orb].
        unfold utf8.locb, utf8.hicb. rewrite H2a, H2b. cbn [orb].
        rewrite land_mask3, !land_maskx, lor3 by apply mod64_bound.
        reflexivity.
    + (* four bytes *)
      cbn [Nat.leb] in H.
      destruct t1 as [| c2 t2]; [injection H as <- <-; discriminate Hne |].
      pose proof (bv_range c2) as R2.
      destruct ((bv c2 <? utf8.locb) || (utf8.hicb <? bv c2)) eqn:H2;
        [injection H as <- <-; discriminate Hne |].
      apply orb_false_elim in H2. destruct H2 as [H2a H2b].
      destruct t2 as [| c3 t3]; [injection H as <- <-; discriminate Hne |].
      pose proof (bv_range c3) as R3.
      destruct ((bv c3 <? utf8.locb) || (utf8.hicb <? bv c3)) eqn:H3;
        [injection H as <- <-; discriminate Hne |].
      apply orb_false_elim in H3. destruct H3 as [H3a H3b].
      unfold utf8.locb, utf8.hicb in H2a, H2b, H3a, H3b.
      rewrite land_mask4, !land_maskx, lor4 in H by apply mod64_bound.
      apply pair_equal_spec in H. destruct H as [<- <-].
      exists (String c0 (String c1 (String c2 (str1 c3)))), t3.
      split; [reflexivity |]. split; [reflexivity |].
      split; [| split].
      * rewrite EncodeRune4 by (Z.div_mod_to_equations; lia).
        f_equal; [| f_equal; [| f_equal; [| unfold str1; f_equal]]];
          apply byte_of_eq; Z.div_mod_to_equations; lia.
      * unfold all_bytes, high, str1.
        rewrite !andb_true_iff. repeat split; lia.
      * intros x. cbn [append str1]. unfold utf8.DecodeRune.
        rewrite Hf. cbn [String.length Nat.ltb Nat.leb].
        rewrite H1a, H1b. cbn [orb].
        unfold utf8.locb, utf8.hicb. rewrite H2a, H2b, H3a, H3b. cbn [orb].
        rewrite land_mask4, !land_maskx, lor4 by apply mod64_bound.
        reflexivity.
Qed.

(** ** Strings: the decoder reads what the encoder writes *)

Lemma append_assoc (a b c : string) : (a ++ b) ++ c = a ++ (b ++ c).
Proof. induction a as [| x a IH]; cbn; [reflexivity | now rewrite IH]. Qed.

Lemma append_nil_r (a : string) : a ++ EmptyString = a.
Proof. induction a as [| x a IH]; cbn; [reflexivity | now rewrite IH]. Qed.

Lemma length_append (a b : string) :
  String.length (a ++ b) = (String.length a + String.length b)%nat.
Proof. induction a as [| x a IH]; cbn; [reflexivity | now rewrite IH]. Qed.

Lemma take_app (p rest : string) : take (String.length p) (p ++ rest) = p.
Proof. induction p as [| x p IH]; cbn; [now destruct rest | now rewrite IH]. Qed.

Lemma drop_app (p rest : string) : drop (String.length p) (p ++ rest) = rest.
Proof. induction p as [| x p IH]; cbn; [reflexivity | assumption]. Qed.

Lemma prepend_app (p q : string) (r : option (string * string)) :
  prepend p (prepend q r) = prepend (p ++ q) r.
Proof. destruct r as [[lit rest] |]; cbn; [now rewrite append_assoc | reflexivity]. Qed.

Lemma cons_lit_prepend (c : byte) (r : option (string * string)) :
  json.cons_lit c r = prepend (str1 c) r.
Proof. destruct r as [[lit rest] |]; reflexivity. Qed.

Lemma scan_string_plain1 (c : byte) (x : string) :
  plain c = true ->
  json.scan_string (String c x) = prepend (str1 c) (json.scan_string x).
Proof.
  unfold plain. intros H.
  apply andb_true_iff in H. destruct H as [H H3].
  apply andb_true_iff in H. destruct H as [H1 H2].
  apply negb_true_iff in H1, H2, H3.
  cbn [json.scan_string]. rewrite H1, H2, H3.
  apply cons_lit_prepend.
Qed.

Lemma scan_string_plain (p x : string) :
  all_bytes plain p = true ->
  json.scan_string (p ++ x) = prepend p (json.scan_string x).
Proof.
  induction p as [| c p IH]; intros H.
  - cbn. now destruct (json.scan_string x) as [[lit rest] |].
  - cbn [all_bytes] in H. apply andb_true_iff in H. destruct H as [Hc Hp].
    cbn [append]. rewrite scan_string_plain1 by assumption.
    rewrite IH by assumption. apply prepend_app.
Qed.

Lemma high_plain (c : byte) : high c = true -> plain c = true.
Proof.
  unfold high, plain. intros H.
  assert (Hb : 0x80 <= bv c) by lia.
  destruct (Ascii.eqb_spec c dquote) as [-> | _]; [cbn in Hb; lia |].
  destruct (Ascii.eqb_spec c backslash) as [-> | _]; [cbn in Hb; lia |].
  cbn. apply negb_true_iff. lia.
Qed.

Lemma all_high_plain (p : string) :
  all_bytes high p = true -> all_bytes plain p = true.
Proof.
  induction p as [| c p IH]; cbn; [reflexivity |].
  intros H. apply andb_true_iff in H. destruct H as [Hc Hp].
  rewrite high_plain by assumption. now apply IH.
Qed.

Lemma scan_string_ascii (c : byte) (x : string) :
  bv c < 0x80 ->
  json.scan_string (json.encode_ascii c ++ x)
  = prepend (json.encode_ascii c) (json.scan_string x).
Proof.
  intros H.
  destruct c as [[] [] [] [] [] [] [] []];
    try (exfalso; cbn in H; lia);
    cbn; destruct (json.scan_string x) as [[lit rest] |]; reflexivity.
Qed.

Lemma unquote_ascii (c : byte) (f : nat) (x : string) :
  bv c < 0x80 ->
  json.unquote_from (S f) (json.encode_ascii c ++ x)
  = json.app_opt (str1 c) (json.unquote_from f x).
Proof.
  intros H.
  destruct c as [[] [] [] [] [] [] [] []];
    try (exfalso; cbn in H; lia); reflexivity.
Qed.

Lemma encode_ascii_length (c : byte) :
  (1 <= String.length (json.encode_ascii c))%nat.
Proof.
  unfold json.encode_ascii. split_ifs; cbn; lia.
Qed.

Lemma scan_string_u (h1 h2 h3 h4 : byte) (x : string) :
  json.isHex h1 && json.isHex h2 && json.isHex h3 && json.isHex h4 = true ->
  json.scan_string (escape_u h1 h2 h3 h4 ++ x)
  = prepend (escape_u h1 h2 h3 h4) (json.scan_string x).
Proof.
  intros H. unfold escape_u, str1. cbn [append json.scan_string].
  change (Ascii.eqb backslash dquote) with false.
  change (Ascii.eqb backslash backslash) with true.
  cbn [Ascii.eqb Bool.eqb orb andb]. rewrite H.
  destruct (json.scan_string x) as [[lit rest] |]; reflexivity.
Qed.

(** The scanner reads what the encoder wrote up to the closing quote. *)
Lemma scan_string_encode (n : nat) (s x : string) :
  json.scan_string (json.encode_bytes n s ++ String dquote x)
  = Some (json.encode_bytes n s, x).
Proof.
  revert s. induction n as [| n IH]; intros s.
  - reflexivity.
  - destruct s as [| c t]; [reflexivity |].
    cbn [json.encode_bytes].
    destruct (bv c <? utf8.RuneSelf) eqn:Hc.
    + rewrite append_assoc, scan_string_ascii
        by (unfold utf8.RuneSelf in Hc; lia).
      rewrite IH. reflexivity.
    + destruct (utf8.DecodeRune (String c t)) as [r size] eqn:Hd.
      destruct ((r =? utf8.RuneError) && (size =? 1)%nat) eqn:Hbad.
      * rewrite append_assoc.
        change json.replacement with (escape_u "f" "f" "f" "d").
        rewrite scan_string_u by reflexivity.
        rewrite IH. reflexivity.
      * destruct (DecodeRune_multibyte c t r size Hd)
          as (p & rest & Hs & Hlen & Henc & Hhigh & Hloc);
          [unfold utf8.RuneSelf in Hc; lia | assumption |].
        rewrite Hs. subst size. rewrite take_app, drop_app.
        destruct ((r =? 0x2028) || (r =? 0x2029)) eqn:Hsep.
        -- assert (Hr : r = 0x2028 \/ r = 0x2029) by lia.
           rewrite !append_assoc.
           destruct Hr as [-> | ->].
           ++ change (String backslash "u202" ++ str1 (json.hex (Z.land 8232 15))
                      ++ json.encode_bytes n rest ++ String dquote x)
                with (escape_u "2" "0" "2" "8"
                      ++ json.encode_bytes n rest ++ String dquote x).
              rewrite scan_string_u by reflexivity.
              rewrite IH. reflexivity.
           ++ change (String backslash "u202" ++ str1 (json.hex (Z.land 8233 15))
                      ++ json.encode_bytes n rest ++ String dquote x)
                with (escape_u "2" "0" "2" "9"
                      ++ json.encode_bytes n rest ++ String dquote x).
              rewrite scan_string_u by reflexivity.
              rewrite IH. reflexivity.
        -- rewrite append_assoc, scan_string_plain
             by (apply all_high_plain; assumption).
           rewrite IH. reflexivity.
Qed.

Lemma DecodeRune_ascii (c : byte) (t : string) :
  bv c < 0x80 -> utf8.DecodeRune (String c t) = (bv c, 1%nat).
Proof.
  intros H. unfold utf8.DecodeRune, utf8.first.
  destruct (bv c <? 128) eqn:E; [reflexivity | lia].
Qed.

Lemma unquote_high (c : byte) (y : string) (f : nat) :
  0x80 <= bv c ->
  json.unquote_from (S f) (String c y)
  = json.app_opt (utf8.EncodeRune (fst (utf8.DecodeRune (String c y))))
      (json.unquote_from f (drop (snd (utf8.DecodeRune (String c y)))
                                 (String c y))).
Proof.
  intros H. cbn [json.unquote_from].
  destruct (Ascii.eqb_spec c backslash) as [-> | _]; [cbn in H; lia |].
  destruct (Ascii.eqb_spec c dquote) as [-> | _]; [cbn in H; lia |].
  destruct (bv c <? 32) eqn:E1; [lia |].
  unfold utf8.RuneSelf. destruct (bv c <? 128) eqn:E2; [lia |].
  cbn [orb]. destruct (utf8.DecodeRune (String c y)) as [rr size].
  reflexivity.
Qed.

Lemma unquote_sep8 (f : nat) (x : string) :
  json.unquote_from (S f) (escape_u "2" "0" "2" "8" ++ x)
  = json.app_opt (utf8.EncodeRune 0x2028) (json.unquote_from f x).
Proof. reflexivity. Qed.

Lemma unquote_sep9 (f : nat) (x : string) :
  json.unquote_from (S f) (escape_u "2" "0" "2" "9" ++ x)
  = json.app_opt (utf8.EncodeRune 0x2029) (json.unquote_from f x).
Proof. reflexivity. Qed.

(** Unquoting what the encoder wrote for valid UTF-8 gives the string
    back. *)
Lemma unquote_encode (n : nat) (s : string) (fuel : nat) :
  utf8.valid_from n s = true ->
  (String.length (json.encode_bytes n s) <= fuel)%nat ->
  json.unquote_from fuel (json.encode_bytes n s) = Some s.
Proof.
  revert s fuel. induction n as [| n IH]; intros s fuel Hv Hf.
  - destruct s; [| discriminate Hv]. now destruct fuel.
  - destruct s as [| c t]; [now destruct fuel |].
    cbn [utf8.valid_from] in Hv. cbn [json.encode_bytes] in Hf |- *.
    destruct (bv c <? utf8.RuneSelf) eqn:Hc.
    + assert (Hb : bv c < 0x80) by (unfold utf8.RuneSelf in Hc; lia).
      rewrite DecodeRune_ascii in Hv by assumption.
      replace ((bv c =? utf8.RuneError) && (1 =? 1)%nat) with false in Hv
        by (unfold utf8.RuneError; lia).
      cbn [drop] in Hv.
      rewrite length_append in Hf.
      pose proof (encode_ascii_length c) as Hl.
      destruct fuel as [| f]; [lia |].
      rewrite unquote_ascii by assumption.
      rewrite IH by (assumption || lia). reflexivity.
    + destruct (utf8.DecodeRune (String c t)) as [r size] eqn:Hd.
      destruct ((r =? utf8.RuneError) && (size =? 1)%nat) eqn:Hbad;
        [discriminate Hv |].
      assert (Hb : 0x80 <= bv c) by (unfold utf8.RuneSelf in Hc; lia).
      destruct (DecodeRune_multibyte c t r size Hd Hb Hbad)
        as (p & rest & Hs & Hlen & Henc & Hhigh & Hloc).
      rewrite Hs in Hv, Hf |- *. subst size.
      rewrite drop_app in Hv. rewrite take_app, drop_app in Hf |- *.
      destruct ((r =? 0x2028) || (r =? 0x2029)) eqn:Hsep.
      * assert (Hr : r = 0x2028 \/ r = 0x2029) by lia.
        rewrite !length_append in Hf.
        destruct fuel as [| f]; [cbn in Hf; lia |].
        destruct Hr as [-> | ->].
        -- change (String backslash "u202" ++ str1 (json.hex (Z.land 8232 15))
                   ++ json.encode_bytes n rest)
             with (escape_u "2" "0" "2" "8" ++ json.encode_bytes n rest).
           rewrite unquote_sep8, Henc.
           rewrite IH by (assumption || (cbn in Hf; lia)). reflexivity.
        -- change (String backslash "u202" ++ str1 (json.hex (Z.land 8233 15))
                   ++ json.encode_bytes n rest)
             with (escape_u "2" "0" "2" "9" ++ json.encode_bytes n rest).
           rewrite unquote_sep9, Henc.
           rewrite IH by (assumption || (cbn in Hf; lia)). reflexivity.
      * rewrite length_append in Hf.
        destruct p as [| c0 p'];
          [specialize (Hloc "a"); cbn in Hloc; discriminate Hloc |].
        injection Hs as Hc0 Ht. subst c0.
        destruct fuel as [| f]; [cbn in Hf; lia |].
        cbn [append]. rewrite unquote_high by assumption.
        change (String c (p' ++ json.encode_bytes n rest))
          with (String c p' ++ json.encode_bytes n rest).
        rewrite Hloc. cbn [fst snd]. rewrite drop_app, Henc.
        rewrite IH by (assumption || (cbn in Hf; lia)). reflexivity.
Qed.

(** A string literal written by the encoder is read back. *)
Lemma parse_string_encode (s x : string) :
  utf8.ValidString s = true ->
  json.parse_string (json.encode_bytes (String.length s) s ++ String dquote x)
  = Some (s, x).
Proof.
  intros Hv. unfold json.parse_string.
  rewrite scan_string_encode. unfold json.unquote.
  rewrite unquote_encode; [reflexivity | exact Hv | lia].
Qed.

(** ** Integers: [ParseInt] reads what [FormatInt] writes *)

Lemma bv_digit (d : Z) : 0 <= d < 10 -> bv (strconv.digit d) = 48 + d.
Proof. intros H. unfold strconv.digit. apply bv_byte_of. lia. Qed.

Lemma formatBits_app (f : nat) (u : Z) (acc : string) :
  strconv.formatBits f u acc = strconv.formatBits f u EmptyString ++ acc.
Proof.
  revert u acc. induction f as [| f IH]; intros u acc; [reflexivity |].
  cbn [strconv.formatBits]. destruct (u <? 10).
  - reflexivity.
  - rewrite IH, (IH _ (String _ EmptyString)), append_assoc. reflexivity.
Qed.

Lemma formatBits_step (f : nat) (u : Z) :
  strconv.formatBits (S f) u EmptyString
  = if u <? 10 then str1 (strconv.digit (u mod 10))
    else strconv.formatBits f (u / 10) EmptyString
         ++ str1 (strconv.digit (u mod 10)).
Proof.
  cbn [strconv.formatBits]. destruct (u <? 10); [reflexivity |].
  apply formatBits_app.
Qed.

Lemma all_bytes_app (P : byte -> bool) (a b : string) :
  all_bytes P (a ++ b) = all_bytes P a && all_bytes P b.
Proof.
  induction a as [| c a IH]; cbn; [reflexivity |].
  now rewrite IH, andb_assoc.
Qed.

Lemma isDigit_digit (d : Z) : 0 <= d < 10 -> json.isDigit (strconv.digit d) = true.
Proof. intros H. unfold json.isDigit. rewrite bv_digit by assumption. lia. Qed.

Lemma formatBits_digits (f : nat) (u : Z) :
  0 <= u -> all_bytes json.isDigit (strconv.formatBits f u EmptyString) = true.
Proof.
  revert u. induction f as [| f IH]; intros u Hu; [reflexivity |].
  rewrite formatBits_step.
  assert (Hd : 0 <= u mod 10 < 10) by (apply Z.mod_pos_bound; lia).
  destruct (u <? 10).
  - cbn. now rewrite isDigit_digit.
  - rewrite all_bytes_app, IH by (apply Z.div_pos; lia).
    cbn. now rewrite isDigit_digit.
Qed.

Lemma parseUint_loop_app (a b : string) (n : Z) :
  strconv.parseUint_loop (a ++ b) n
  = match strconv.parseUint_loop a n with
    | Some n' => strconv.parseUint_loop b n'
    | None => None
    end.
Proof.
  revert n. induction a as [| c a IH]; intros n; [reflexivity |].
  cbn [append strconv.parseUint_loop].
  destruct ((48 <=? bv c) && (bv c <=? 57)); [| reflexivity].
  destruct (strconv.maxUint64 / 10 + 1 <=? n); [reflexivity |].
  destruct (_ || _); [reflexivity | apply IH].
Qed.

Lemma parseUint_digit (d n : Z) :
  0 <= d < 10 -> 0 <= n -> n * 10 + d <= strconv.maxUint64 ->
  strconv.parseUint_loop (str1 (strconv.digit d)) n = Some (n * 10 + d).
Proof.
  intros Hd Hn Hmax. unfold str1. cbn [strconv.parseUint_loop].
  rewrite bv_digit by assumption.
  unfold strconv.maxUint64 in *.
  change (2 ^ 64 - 1) with 18446744073709551615 in *.
  change (2 ^ 64) with 18446744073709551616.
  change (18446744073709551615 / 10 + 1) with 1844674407370955162.
  replace (48 + d - 48) with d by lia.
  destruct (48 <=? 48 + d) eqn:E3; [| lia].
  destruct (48 + d <=? 57) eqn:E4; [| lia].
  cbn [andb].
  destruct (1844674407370955162 <=? n) eqn:E1; [lia |].
  rewrite Z.mod_small by lia.
  destruct (n * 10 + d <? n * 10) eqn:E5; [lia |].
  destruct (18446744073709551615 <? n * 10 + d) eqn:E6; [lia |].
  reflexivity.
Qed.

Lemma parseUint_formatBits (f : nat) (u : Z) :
  0 <= u < 10 ^ Z.of_nat f -> u <= strconv.maxUint64 ->
  strconv.parseUint_loop (strconv.formatBits f u EmptyString) 0 = Some u.
Proof.
  revert u. induction f as [| f IH]; intros u Hu Hmax.
  - cbn in Hu. assert (u = 0) as -> by lia. reflexivity.
  - rewrite formatBits_step.
    assert (Hd : 0 <= u mod 10 < 10) by (apply Z.mod_pos_bound; lia).
    destruct (u <? 10) eqn:E.
    + rewrite parseUint_digit by (unfold strconv.maxUint64 in *; lia).
      f_equal. rewrite Z.mod_small; lia.
    + rewrite parseUint_loop_app.
      assert (Hq : 0 <= u / 10 < 10 ^ Z.of_nat f).
      { rewrite Nat2Z.inj_succ, Z.pow_succ_r in Hu by lia.
        split; [apply Z.div_pos; lia |].
        apply Z.div_lt_upper_bound; lia. }
      rewrite IH by (try assumption; Z.div_mod_to_equations; lia).
      rewrite parseUint_digit;
        [f_equal | assumption | lia |]; Z.div_mod_to_equations; lia.
Qed.

Lemma formatBits_nonempty (f : nat) (u : Z) :
  exists c ds, strconv.formatBits (S f) u EmptyString = String c ds.
Proof.
  revert u. induction f as [| f IH]; intros u.
  - cbn. destruct (u <? 10); eauto.
  - rewrite formatBits_step. destruct (u <? 10); [unfold str1; eauto |].
    destruct (IH (u / 10)) as (c & ds & ->). cbn. eauto.
Qed.

(** The first digit of a positive number is not zero. *)
Lemma formatBits_head (f : nat) (u : Z) :
  0 < u < 10 ^ Z.of_nat f ->
  exists c ds, strconv.formatBits f u EmptyString = String c ds
               /\ 49 <= bv c <= 57.
Proof.
  revert u. induction f as [| f IH]; intros u Hu.
  - cbn in Hu. lia.
  - rewrite formatBits_step.
    destruct (u <? 10) eqn:E.
    + exists (strconv.digit (u mod 10)), EmptyString. split; [reflexivity |].
      rewrite bv_digit; rewrite Z.mod_small; lia.
    + assert (Hq : 0 < u / 10 < 10 ^ Z.of_nat f).
      { rewrite Nat2Z.inj_succ, Z.pow_succ_r in Hu by lia.
        split; [Z.div_mod_to_equations; lia |].
        apply Z.div_lt_upper_bound; lia. }
      destruct (IH _ Hq) as (c & ds & -> & Hc).
      exists c, (ds ++ str1 (strconv.digit (u mod 10))). split; [reflexivity | assumption].
Qed.

Lemma ParseInt_FormatInt (z : Z) :
  int64 z -> strconv.ParseInt (strconv.FormatInt z) = Some z.
Proof.
  unfold int64, strconv.FormatInt. intros Hz.
  assert (P20 : 2 ^ 63 < 10 ^ Z.of_nat 20) by (vm_compute; reflexivity).
  destruct (z <? 0) eqn:E.
  - unfold strconv.ParseInt. cbn [Ascii.eqb Bool.eqb orb].
    destruct (formatBits_nonempty 19 (- z)) as (c & ds & Hs).
    unfold strconv.ParseUint. rewrite Hs, <- Hs.
    rewrite parseUint_formatBits by (unfold strconv.maxUint64; lia).
    cbn [negb andb].
    destruct (2 ^ 63 <? - z) eqn:E2; [lia |].
    f_equal. lia.
  - destruct (Z.eq_dec z 0) as [-> | Hnz]; [reflexivity |].
    destruct (formatBits_head 20 z) as (c & ds & Hs & Hc); [lia |].
    unfold strconv.ParseInt. rewrite Hs.
    assert (Hm : Ascii.eqb c "-" = false).
    { destruct (Ascii.eqb_spec c "-") as [-> | _]; [cbn in Hc; lia | reflexivity]. }
    assert (Hp : Ascii.eqb c "+" = false).
    { destruct (Ascii.eqb_spec c "+") as [-> | _]; [cbn in Hc; lia | reflexivity]. }
    rewrite Hm, Hp. cbn [orb]. unfold strconv.ParseUint. rewrite <- Hs.
    rewrite parseUint_formatBits by (unfold strconv.maxUint64; lia).
    cbn [negb andb]. destruct (2 ^ 63 <=? z) eqn:E2; [lia | reflexivity].
Qed.

(** ** The values the encoder writes, parsed *)

Lemma scan_number_digits (ds x : string) :
  all_bytes json.isDigit ds = true ->
  json.scan_number json.state1 (ds ++ String "," x) = Some (ds, String "," x).
Proof.
  induction ds as [| c ds IH]; intros H; [reflexivity |].
  cbn [all_bytes] in H. apply andb_true_iff in H. destruct H as [Hc Hds].
  cbn [append json.scan_number json.num_step]. rewrite Hc, IH by assumption.
  reflexivity.
Qed.

Lemma parse_value_lead_digit (f : nat) (c : byte) (x : string) :
  49 <= bv c <= 57 ->
  json.parse_value (S f) (String c x)
  = json.number_value c (json.scan_number json.state1 x).
Proof.
  intros H.
  destruct c as [[] [] [] [] [] [] [] []];
    try (exfalso; cbn in H; lia); reflexivity.
Qed.

Lemma scan_number_neg_digit (c : byte) (x : string) :
  49 <= bv c <= 57 ->
  json.scan_number json.stateNeg (String c x)
  = json.cons_lit c (json.scan_number json.state1 x).
Proof.
  intros H.
  destruct c as [[] [] [] [] [] [] [] []];
    try (exfalso; cbn in H; lia); reflexivity.
Qed.

(** The decimal text of an int64 is read back as a number literal. *)
Lemma parse_value_FormatInt (f : nat) (z : Z) (x : string) :
  int64 z ->
  json.parse_value (S f) (strconv.FormatInt z ++ String "," x)
  = Some (json.Number (strconv.FormatInt z), String "," x).
Proof.
  unfold int64. intros Hz.
  assert (P20 : 2 ^ 63 < 10 ^ Z.of_nat 20) by (vm_compute; reflexivity).
  unfold strconv.FormatInt. destruct (z <? 0) eqn:E.
  - destruct (formatBits_head 20 (- z)) as (c & ds & Hs & Hc); [lia |].
    pose proof (formatBits_digits 20 (- z)) as Hd.
    rewrite Hs in Hd |- *. cbn [all_bytes] in Hd.
    apply andb_true_iff in Hd; [| lia]. destruct Hd as [_ Hd].
    cbn [append].
    change (json.parse_value (S f) (String "-" (String c (ds ++ String "," x))))
      with (json.number_value "-"%char
              (json.scan_number json.stateNeg (String c (ds ++ String "," x)))).
    rewrite scan_number_neg_digit, scan_number_digits by assumption.
    reflexivity.
  - destruct (Z.eq_dec z 0) as [-> | Hnz]; [reflexivity |].
    destruct (formatBits_head 20 z) as (c & ds & Hs & Hc); [lia |].
    pose proof (formatBits_digits 20 z) as Hd.
    rewrite Hs in Hd |- *. cbn [all_bytes] in Hd.
    apply andb_true_iff in Hd; [| lia]. destruct Hd as [_ Hd].
    cbn [append].
    rewrite parse_value_lead_digit, scan_number_digits by assumption.
    reflexivity.
Qed.

Lemma parse_value_encodeString (f : nat) (s x : string) :
  utf8.ValidString s = true ->
  json.parse_value (S f) (json.encodeString s ++ x) = Some (json.Str s, x).
Proof.
  intros Hv. unfold json.encodeString. cbn [append].
  rewrite append_assoc. cbn [append str1].
  change (json.parse_value (S f)
            (String dquote (json.encode_bytes (String.length s) s ++ String dquote x)))
    with (match json.parse_string
                  (json.encode_bytes (String.length s) s ++ String dquote x) with
          | Some (u, rest) => Some (json.Str u, rest)
          | None => None
          end).
  rewrite parse_string_encode by assumption. reflexivity.
Qed.

Lemma parse_value_encodeBool (f : nat) (b : bool) (x : string) :
  json.parse_value (S f) (encodeBool b ++ String "," x)
  = Some (json.Bool b, String "," x).
Proof. destruct b; reflexivity. Qed.

(** ** More fuel never changes a result *)

Section FuelMono.

Variables pv pv' : string -> option (json.value * string).
Variables pe pe' : string -> list json.value -> option (json.value * string).
Variables pm pm'
  : string -> list (string * json.value) -> option (json.value * string).
Hypothesis Hpv : forall s r, pv s = Some r -> pv' s = Some r.
Hypothesis Hpe : forall s acc r, pe s acc = Some r -> pe' s acc = Some r.
Hypothesis Hpm : forall s acc r, pm s acc = Some r -> pm' s acc = Some r.

Lemma value_step_mono (s : string) (r : json.value * string) :
  json.value_step pv pe pm s = Some r ->
  json.value_step pv' pe' pm' s = Some r.
Proof.
  unfold json.value_step. intros H.
  destruct (json.skip_space s) as [| c t]; [discriminate |].
  destruct (Ascii.eqb c "{").
  - destruct (json.skip_space t) as [| c' t']; [discriminate |].
    destruct (Ascii.eqb c' "}"); [assumption |].
    destruct (json.parse_key (String c' t')) as [[k rest] |]; [| discriminate].
    destruct (pv rest) as [[v rest'] |] eqn:E; [| discriminate].
    rewrite (Hpv _ _ E). now apply Hpm.
  - destruct (Ascii.eqb c "["); [| assumption].
    destruct (json.skip_space t) as [| c' t']; [discriminate |].
    destruct (Ascii.eqb c' "]"); [assumption |].
    destruct (pv (String c' t')) as [[v rest] |] eqn:E; [| discriminate].
    rewrite (Hpv _ _ E). now apply Hpe.
Qed.

Lemma elements_step_mono (s : string) (acc : list json.value)
  (r : json.value * string) :
  json.elements_step pv pe s acc = Some r ->
  json.elements_step pv' pe' s acc = Some r.
Proof.
  unfold json.elements_step. intros H.
  destruct (json.skip_space s) as [| c t]; [discriminate |].
  destruct (Ascii.eqb c ","); [| assumption].
  destruct (pv t) as [[v rest] |] eqn:E; [| discriminate].
  rewrite (Hpv _ _ E). now apply Hpe.
Qed.

Lemma members_step_mono (s : string) (acc : list (string * json.value))
  (r : json.value * string) :
  json.members_step pv pm s acc = Some r ->
  json.members_step pv' pm' s acc = Some r.
Proof.
  unfold json.members_step. intros H.
  destruct (json.skip_space s) as [| c t]; [discriminate |].
  destruct (Ascii.eqb c ","); [| assumption].
  destruct (json.parse_key (json.skip_space t)) as [[k rest] |];
    [| discriminate].
  destruct (pv rest) as [[v rest'] |] eqn:E; [| discriminate].
  rewrite (Hpv _ _ E). now apply Hpm.
Qed.

End FuelMono.

Lemma parse_fuel_mono (f : nat) :
  (forall f' s r, (f <= f')%nat ->
     json.parse_value f s = Some r -> json.parse_value f' s = Some r)
  /\ (forall f' s acc r, (f <= f')%nat ->
        json.parse_elements f s acc = Some r ->
        json.parse_elements f' s acc = Some r)
  /\ (forall f' s acc r, (f <= f')%nat ->
        json.parse_members f s acc = Some r ->
        json.parse_members f' s acc = Some r).
Proof.
  induction f as [| f (IHv & IHe & IHm)].
  - repeat split; intros; discriminate.
  - repeat split; intros f' s; intros; (destruct f' as [| f']; [lia |]);
      cbn [json.parse_value json.parse_elements json.parse_members] in *.
    + eapply value_step_mono; [| | | eassumption]; intros;
        [eapply IHv | eapply IHe | eapply IHm]; try eassumption; lia.
    + eapply elements_step_mono; [| | eassumption]; intros;
        [eapply IHv | eapply IHe]; try eassumption; lia.
    + eapply members_step_mono; [| | eassumption]; intros;
        [eapply IHv | eapply IHm]; try eassumption; lia.
Qed.

Lemma parse_value_fuel (f f' : nat) (s : string) (r : json.value * string) :
  (f <= f')%nat ->
  json.parse_value f s = Some r -> json.parse_value f' s = Some r.
Proof. apply parse_fuel_mono. Qed.

(** ** The round trip of a record *)

Section ObjectSteps.

Variable pv : string -> option (json.value * string).
Variable pe : string -> list json.value -> option (json.value * string).
Variable pm
  : string -> list (string * json.value) -> option (json.value * string).

Lemma value_step_chat_id (rest : string) :
  json.value_step pv pe pm (String "{" (quoted_name "chat_id" ++ rest))
  = member_then pv pm "chat_id" rest [].
Proof. reflexivity. Qed.

Lemma members_step_photo_url rest acc :
  json.members_step pv pm (String "," (quoted_name "photo_url" ++ rest)) acc
  = member_then pv pm "photo_url" rest acc.
Proof. reflexivity. Qed.

Lemma members_step_caption rest acc :
  json.members_step pv pm (String "," (quoted_name "caption" ++ rest)) acc
  = member_then pv pm "caption" rest acc.
Proof. reflexivity. Qed.

Lemma members_step_styled_url rest acc :
  json.members_step pv pm (String "," (quoted_name "styled_url" ++ rest)) acc
  = member_then pv pm "styled_url" rest acc.
Proof. reflexivity. Qed.

Lemma members_step_published rest acc :
  json.members_step pv pm (String "," (quoted_name "published" ++ rest)) acc
  = member_then pv pm "published" rest acc.
Proof. reflexivity. Qed.

Lemma members_step_photo_id rest acc :
  json.members_step pv pm (String "," (quoted_name "photo_id" ++ rest)) acc
  = member_then pv pm "photo_id" rest acc.
Proof. reflexivity. Qed.

Lemma members_step_end rest acc :
  json.members_step pv pm (String "}" rest) acc
  = Some (json.Object (rev acc), rest).
Proof. reflexivity. Qed.

End ObjectSteps.

Lemma parse_value_S (f : nat) (s : string) :
  json.parse_value (S f) s
  = json.value_step (json.parse_value f) (json.parse_elements f)
      (json.parse_members f) s.
Proof. reflexivity. Qed.

Lemma parse_members_S (f : nat) (s : string)
  (acc : list (string * json.value)) :
  json.parse_members (S f) s acc
  = json.members_step (json.parse_value f) (json.parse_members f) s acc.
Proof. reflexivity. Qed.

Lemma parse_value_Marshal (m : PhotoMetadata) :
  wf_PhotoMetadata m ->
  json.parse_value 7 (fst (Marshal_PhotoMetadata m))
  = Some (json.Object (members_of m), EmptyString).
Proof.
  intros (Hid & Hurl & Hcap & Hsty & Hpid).
  unfold Marshal_PhotoMetadata. cbn [fst append].
  rewrite parse_value_S, value_step_chat_id. unfold member_then.
  rewrite parse_value_FormatInt by assumption.
  rewrite parse_members_S, members_step_photo_url.
  unfold member_then. rewrite parse_value_encodeString by assumption.
  rewrite parse_members_S, members_step_caption.
  unfold member_then. rewrite parse_value_encodeString by assumption.
  rewrite parse_members_S, members_step_styled_url.
  unfold member_then. rewrite parse_value_encodeString by assumption.
  rewrite parse_members_S, members_step_published.
  unfold member_then. rewrite parse_value_encodeBool.
  rewrite parse_members_S, members_step_photo_id.
  unfold member_then. rewrite parse_value_encodeString by assumption.
  rewrite parse_members_S, members_step_end.
  reflexivity.
Qed.

Lemma Marshal_length (m : PhotoMetadata) :
  (7 <= S (String.length (fst (Marshal_PhotoMetadata m))))%nat.
Proof.
  unfold Marshal_PhotoMetadata, quoted_name. cbn [fst].
  rewrite !length_append. cbn [String.length]. lia.
Qed.

Lemma parse_Marshal (m : PhotoMetadata) :
  wf_PhotoMetadata m ->
  json.parse (fst (Marshal_PhotoMetadata m)) = Some (json.Object (members_of m)).
Proof.
  intros Hwf. unfold json.parse, json.parse_prefix.
  rewrite (parse_value_fuel 7 _ _ _ (Marshal_length m)
             (parse_value_Marshal m Hwf)).
  reflexivity.
Qed.

Lemma store_set {A R : Type} (field : string) (a : A) (set : A -> R -> R)
  (r : R) (e : option error) :
  json.store field (json.SetTo a) set (r, e) = (set a r, e).
Proof. reflexivity. Qed.

Lemma member_chat_id acc v :
  PhotoMetadata_member acc ("chat_id", v)
  = json.store "PhotoMetadata.chat_id" (json.as_int64 v) set_ChatId acc.
Proof. reflexivity. Qed.

Lemma member_photo_url acc v :
  PhotoMetadata_member acc ("photo_url", v)
  = json.store "PhotoMetadata.photo_url" (json.as_string v) set_PhotoUrl acc.
Proof. reflexivity. Qed.

Lemma member_caption acc v :
  PhotoMetadata_member acc ("caption", v)
  = json.store "PhotoMetadata.caption" (json.as_string v) set_Caption acc.
Proof. reflexivity. Qed.

Lemma member_styled_url acc v :
  PhotoMetadata_member acc ("styled_url", v)
  = json.store "PhotoMetadata.styled_url" (json.as_string v) set_StyledUrl acc.
Proof. reflexivity. Qed.

Lemma member_published acc v :
  PhotoMetadata_member acc ("published", v)
  = json.store "PhotoMetadata.published" (json.as_bool v) set_Published acc.
Proof. reflexivity. Qed.

Lemma member_photo_id acc v :
  PhotoMetadata_member acc ("photo_id", v)
  = json.store "PhotoMetadata.photo_id" (json.as_string v) set_PhotoId acc.
Proof. reflexivity. Qed.

Lemma decode_members_of (m : PhotoMetadata) :
  int64 (ChatId m) ->
  decode_struct PhotoMetadata_member (json.Object (members_of m))
    zero_PhotoMetadata = (m, None).
Proof.
  intros Hid. unfold decode_struct, members_of. cbn [fold_left].
  rewrite member_chat_id. unfold json.as_int64.
  rewrite ParseInt_FormatInt, store_set by assumption.
  rewrite member_photo_url. cbn [json.as_string]. rewrite store_set.
  rewrite member_caption. cbn [json.as_string]. rewrite store_set.
  rewrite member_styled_url. cbn [json.as_string]. rewrite store_set.
  rewrite member_published. cbn [json.as_bool]. rewrite store_set.
  rewrite member_photo_id. cbn [json.as_string]. rewrite store_set.
  destruct m. reflexivity.
Qed.

(** Decoding the encoding of a well-formed record gives it back. *)
Lemma Unmarshal_Marshal (m : PhotoMetadata) :
  wf_PhotoMetadata m ->
  Unmarshal_PhotoMetadata (fst (Marshal_PhotoMetadata m)) zero_PhotoMetadata
  = (m, None).
Proof.
  intros Hwf. unfold Unmarshal_PhotoMetadata.
  rewrite parse_Marshal by assumption.
  apply decode_members_of. apply Hwf.
Qed.

(** C9, for the records Go can encode without loss.  When the string fields
    are valid UTF-8 (and chatId is an int64), decoding the encoding of a
    record into a zero record gives the record back, with no error; empty
    strings and a zero chatId included. *)
Theorem C9_roundtrip_valid_utf8 (m : PhotoMetadata) :
  wf_PhotoMetadata m ->
  Unmarshal_PhotoMetadata (fst (Marshal_PhotoMetadata m)) zero_PhotoMetadata
  = (m, None)
  /\ snd (Marshal_PhotoMetadata m) = None.
Proof.
  intros Hwf. split; [now apply Unmarshal_Marshal | reflexivity].
Qed.

Lemma C9_witness :
  Unmarshal_PhotoMetadata (fst (Marshal_PhotoMetadata zero_PhotoMetadata))
    zero_PhotoMetadata
  = (zero_PhotoMetadata, None)
  /\ snd (Marshal_PhotoMetadata zero_PhotoMetadata) = None.
Proof.
  apply (C9_roundtrip_valid_utf8 zero_PhotoMetadata).
  unfold wf_PhotoMetadata, int64. cbn [ChatId zero_PhotoMetadata].
  repeat split; try reflexivity; lia.
Defined.

(** C9, as stated, fails: a caption that is not valid UTF-8 comes back as
    U+FFFD. *)
Lemma C9_invalid_utf8_not_restored :
  Unmarshal_PhotoMetadata (fst (Marshal_PhotoMetadata recordFF))
    zero_PhotoMetadata
  = (set_Caption (utf8.EncodeRune utf8.RuneError) recordA, None)
  /\ set_Caption (utf8.EncodeRune utf8.RuneError) recordA <> recordFF.
Proof. split; [vm_compute; reflexivity | discriminate]. Qed.

(** ** The handler and the captioning call, unfolded *)

Lemma bind_Ret {A B : Type} (a : A) (t : list Event) (k : A -> M B) :
  bind (Ret a, t) k = (fst (k a), (t ++ snd (k a))%list).
Proof. cbn. destruct (k a). reflexivity. Qed.

Lemma bind_Panic {A B : Type} (t : list Event) (k : A -> M B) :
  bind (Panic, t) k = (Panic, t).
Proof. reflexivity. Qed.

(** [handleRedis] after the decoding: the intake log, then the gate. *)
Lemma handleRedis_unfold (W : World) (worker : Worker) (message : Message)
  (md : PhotoMetadata) (derr : option error) :
  Unmarshal_PhotoMetadata (Payload message) zero_PhotoMetadata = (md, derr) ->
  handleRedis W worker message
  = bind (Ret tt, intake_log derr)
      (fun _ =>
         if (String.length (Caption md) =? 0)%nat then
           bind (process W worker md)
             (fun res =>
                if is_err (snd res) then
                  log_Printf "[ERROR] Couldn't get caption from API: %s"
                else
                  bind (Ret tt,
                        HSet (PhotoId md) "caption" (fst res)
                        :: (if is_err (snd (redis_HSet W (PhotoId md)
                                              "caption" (fst res)))
                            then [Log "[ERROR] Couldn't set caption in redis for %s: %s"]
                            else [])
                        ++ [Publish (channel (redisCfg (w_config worker)))
                              (fst (Marshal_PhotoMetadata
                                      (set_Caption (fst res) md)))])
                    (fun _ =>
                       when (is_err
                               (snd (redis_Publish W
                                       (channel (redisCfg (w_config worker)))
                                       (fst (Marshal_PhotoMetadata
                                               (set_Caption (fst res) md))))))
                         (log_Printf "[ERROR] Couldn't publish photo metadata to redis channel: %s")))
         else ret tt).
Proof.
  intros HU. unfold handleRedis, intake_log. rewrite HU.
  destruct (String.length (Caption md) =? 0)%nat.
  - destruct (process W worker md) as [[[c e] | | code |] tr];
      [| destruct derr; reflexivity | destruct derr; reflexivity
       | destruct derr; reflexivity].
    destruct (redis_HSet W (PhotoId md) "caption" c) as [b he] eqn:HH.
    destruct (redis_Publish W (channel (redisCfg (w_config worker)))
                (fst (Marshal_PhotoMetadata (set_Caption c md))))
      as [n pe] eqn:HP.
    destruct derr, e; cbn; try reflexivity;
      cbn in HH; rewrite HH; cbn in HP |- *; rewrite HP;
      destruct he, pe; cbn; rewrite ?app_nil_r; reflexivity.
  - destruct derr; reflexivity.
Qed.

Lemma process_unfold (W : World) (worker : Worker) (md : PhotoMetadata)
  (p p' : URL) (e1 e2 : option error) (r : Response) :
  url_Parse W (PhotoUrl md) = (Some p, e1) ->
  http_Get W (PhotoUrl md) = (Some r, e2) ->
  url_Parse W (url (captionApi (w_config worker))) = (Some p', None) ->
  process W worker md
  = bind (Ret tt, fetch_trace W worker (PhotoUrl md) p e1 e2 r)
      (fun _ =>
         let '(res, err) :=
           client_Do W (caption_request W worker (content (Body r))) in
         when (is_err err)
           (log_Printf "[ERROR] Couldn't make a request to caption api: %s") ;;
         rs <- deref res ;;
         let '(captionResponse, err) :=
           Decode_CaptionApiResponse (Body rs) zero_CaptionApiResponse in
         when (is_err err)
           (log_Printf "[ERROR] Couldn't read response from api: %s") ;;
         emit Close ;;
         ret (caption_result captionResponse)).
Proof.
  intros H1 H2 H3.
  unfold process, getPhoto, http_NewRequest.
  rewrite H1, H2, H3. clear H1 H2 H3.
  destruct W as [uP hG cD rB rP rR rH rPub rCh vE vI].
  destruct worker as [cl [[u k] rc]].
  destruct p as [h]. destruct md as [cid purl cap surl pub pid].
  destruct r as [[data re]].
  cbv -[Decode_CaptionApiResponse String.eqb].
  destruct (String.eqb h EmptyString); destruct e1, e2, re;
    repeat match goal with
           | |- context [match cD ?rq with _ => _ end] =>
             destruct (cD rq) as [[rs |] [err |]]
           | |- context [match Decode_CaptionApiResponse ?b ?z with _ => _ end] =>
             destruct (Decode_CaptionApiResponse b z) as [cr [de |]]
           end;
    reflexivity.
Qed.

(** Case analysis on the innermost scrutinee of the goal. *)
Ltac split_leaf :=
  match goal with
  | |- context [match ?x with _ => _ end] =>
    lazymatch x with
    | context [match _ with _ => _ end] => fail
    | _ => destruct x
    end
  end.

(** [process] touches neither the keyed store nor the channel. *)
Lemma process_no_write (W : World) (worker : Worker) (md : PhotoMetadata) :
  existsb is_write (snd (process W worker md)) = false.
Proof.
  unfold process, getPhoto, http_NewRequest.
  destruct W as [uP hG cD rB rP rR rH rPub rCh vE vI].
  destruct worker as [cl [[u k] rc]].
  destruct md as [cid purl cap surl pub pid].
  cbv -[Decode_CaptionApiResponse String.eqb String.append].
  repeat (split_leaf;
          cbv -[Decode_CaptionApiResponse String.eqb String.append]);
    reflexivity.
Qed.

(** A run of [process] that returns has fetched the image and posted it. *)
Lemma process_returns_after_fetch (W : World) (worker : Worker)
  (md : PhotoMetadata) (res : string * option error) (tr : list Event) :
  process W worker md = (Ret res, tr) -> existsb is_fetch tr = true.
Proof.
  unfold process, getPhoto, http_NewRequest.
  destruct W as [uP hG cD rB rP rR rH rPub rCh vE vI].
  destruct worker as [cl [[u k] rc]].
  destruct md as [cid purl cap surl pub pid].
  cbv -[Decode_CaptionApiResponse String.eqb String.append].
  repeat (split_leaf;
          cbv -[Decode_CaptionApiResponse String.eqb String.append]);
    intros H; inversion H; reflexivity.
Qed.

(** ** The handler: gate, errors, persistence *)

Lemma length_zero_iff (s : string) :
  (String.length s =? 0)%nat = true <-> s = EmptyString.
Proof. destruct s; cbn; split; congruence. Qed.

Lemma intake_log_only_logs (derr : option error) :
  forallb is_Log (intake_log derr) = true.
Proof. destruct derr; reflexivity. Qed.

Lemma forallb_Log_no_fetch (tr : list Event) :
  forallb is_Log tr = true ->
  existsb is_fetch tr = false /\ existsb is_write tr = false.
Proof.
  induction tr as [| e tr IH]; [split; reflexivity |].
  cbn. intros H. apply andb_true_iff in H. destruct H as [He Htr].
  destruct e; try discriminate He. cbn. now apply IH.
Qed.

(** C1.  A message whose decoded record has a non-empty caption is only
    logged: [handleRedis] returns after the intake log lines, so it runs no
    captioning call (no HTTP GET or POST), writes nothing to the keyed store
    and publishes nothing. *)
Theorem C1_captioned_message_not_enriched
  (W : World) (worker : Worker) (message : Message) :
  Caption (fst (Unmarshal_PhotoMetadata (Payload message) zero_PhotoMetadata))
  <> EmptyString ->
  handleRedis W worker message
  = (Ret tt,
     intake_log
       (snd (Unmarshal_PhotoMetadata (Payload message) zero_PhotoMetadata)))
  /\ existsb is_fetch (snd (handleRedis W worker message)) = false
  /\ existsb is_write (snd (handleRedis W worker message)) = false.
Proof.
  intros Hcap.
  destruct (Unmarshal_PhotoMetadata (Payload message) zero_PhotoMetadata)
    as [md derr] eqn:HU.
  cbn [fst snd] in *.
  assert (Hrun : handleRedis W worker message = (Ret tt, intake_log derr)).
  { rewrite (handleRedis_unfold W worker message md derr HU).
    destruct (String.length (Caption md) =? 0)%nat eqn:E.
    - apply length_zero_iff in E. contradiction.
    - rewrite bind_Ret. cbn. now rewrite app_nil_r. }
  split; [exact Hrun |].
  rewrite Hrun. cbn [snd].
  apply forallb_Log_no_fetch, intake_log_only_logs.
Qed.

Lemma C1_witness :
  handleRedis (demo_world (Some (reply_of "a dog running" EmptyString)) None [])
    demo_worker (message_of payloadB)
  = (Ret tt, intake_log None).
Proof.
  refine (proj1 (C1_captioned_message_not_enriched
                   (demo_world (Some (reply_of "a dog running" EmptyString))
                      None [])
                   demo_worker (message_of payloadB) _)).
  vm_compute. discriminate.
Defined.

(** C5.  When the record has an empty caption and [process] returns an
    error, [handleRedis] logs it and returns: its trace is the intake log,
    the trace of [process] and the error line, with no write to the keyed
    store and no publish. *)
Theorem C5_caption_error_aborts
  (W : World) (worker : Worker) (message : Message) (md : PhotoMetadata)
  (derr : option error) (out : string) (e : error) (tr : list Event) :
  Unmarshal_PhotoMetadata (Payload message) zero_PhotoMetadata = (md, derr) ->
  Caption md = EmptyString ->
  process W worker md = (Ret (out, Some e), tr) ->
  handleRedis W worker message
  = (Ret tt,
     (intake_log derr ++ tr
      ++ [Log "[ERROR] Couldn't get caption from API: %s"])%list)
  /\ existsb is_write (snd (handleRedis W worker message)) = false.
Proof.
  intros HU Hcap Hp.
  assert (Hrun : handleRedis W worker message
                 = (Ret tt,
                    (intake_log derr ++ tr
                     ++ [Log "[ERROR] Couldn't get caption from API: %s"])%list)).
  { rewrite (handleRedis_unfold W worker message md derr HU).
    rewrite Hcap, Hp. reflexivity. }
  split; [exact Hrun |].
  rewrite Hrun. cbn [snd].
  rewrite !existsb_app.
  pose proof (process_no_write W worker md) as Hnw. rewrite Hp in Hnw.
  cbn [snd] in Hnw. rewrite Hnw.
  destruct (forallb_Log_no_fetch _ (intake_log_only_logs derr)) as [_ ->].
  reflexivity.
Qed.

Lemma C5_witness :
  handleRedis (demo_world (Some (reply_of EmptyString "invalid image")) None [])
    demo_worker (message_of payloadA)
  = (Ret tt,
     (intake_log None
      ++ snd (process
                (demo_world (Some (reply_of EmptyString "invalid image"))
                   None [])
                demo_worker recordA)
      ++ [Log "[ERROR] Couldn't get caption from API: %s"])%list).
Proof.
  refine (proj1 (C5_caption_error_aborts
                   (demo_world (Some (reply_of EmptyString "invalid image"))
                      None [])
                   demo_worker (message_of payloadA) recordA None
                   EmptyString (errorString "invalid image") _ _ _ _));
    reflexivity.
Defined.

Lemma handleRedis_success
  (W : World) (worker : Worker) (message : Message) (md : PhotoMetadata)
  (derr : option error) (c : string) (tr : list Event) :
  Unmarshal_PhotoMetadata (Payload message) zero_PhotoMetadata = (md, derr) ->
  Caption md = EmptyString ->
  process W worker md = (Ret (c, None), tr) ->
  handleRedis W worker message
  = (Ret tt, (intake_log derr ++ tr ++ persist_trace W worker md c)%list).
Proof.
  intros HU Hcap Hp.
  rewrite (handleRedis_unfold W worker message md derr HU).
  rewrite Hcap, Hp. unfold persist_trace.
  cbn -[Marshal_PhotoMetadata intake_log].
  destruct (is_err (snd (redis_HSet W (PhotoId md) "caption" c)));
    destruct (is_err (snd (redis_Publish W _ _)));
    cbn -[Marshal_PhotoMetadata intake_log];
    rewrite <- ?app_assoc; reflexivity.
Qed.

(** C4, as the code has it.  For a decoded response [cr], [process]
    returns [Output cr] as its first result whatever [Err cr] is; its
    second result is an error with message [Err cr] when [Err cr] is not
    empty, and nil when it is. *)
Theorem C4_process_returns_output_and_error
  (W : World) (worker : Worker) (md : PhotoMetadata) (p p' : URL)
  (e1 e2 e4 e5 : option error) (r rs : Response) (cr : CaptionApiResponse) :
  url_Parse W (PhotoUrl md) = (Some p, e1) ->
  http_Get W (PhotoUrl md) = (Some r, e2) ->
  url_Parse W (url (captionApi (w_config worker))) = (Some p', None) ->
  client_Do W (caption_request W worker (content (Body r))) = (Some rs, e4) ->
  Decode_CaptionApiResponse (Body rs) zero_CaptionApiResponse = (cr, e5) ->
  fst (process W worker md)
  = Ret (Output cr,
         if String.eqb (Err cr) EmptyString then None
         else Some (errorString (Err cr))).
Proof.
  intros H1 H2 H3 H4 H5.
  rewrite (process_unfold W worker md p p' e1 e2 r H1 H2 H3).
  rewrite bind_Ret, H4. cbn [fst].
  destruct e4; cbn -[Decode_CaptionApiResponse]; rewrite H5;
    unfold caption_result;
    destruct (Err cr) as [| c s]; destruct e5; reflexivity.
Qed.

Lemma C4_witness :
  fst (process
         (demo_world (Some (reply_of "a dog running" "invalid image")) None [])
         demo_worker recordA)
  = Ret ("a dog running", Some (errorString "invalid image")).
Proof.
  exact (C4_process_returns_output_and_error
           (demo_world (Some (reply_of "a dog running" "invalid image"))
              None [])
           demo_worker recordA
           {| Host := "img.example" |} {| Host := "api.deepai.org" |}
           None None None None
           {| Body := {| content := "JPEG"; readErr := None |} |}
           {| Body := {| content := reply_of "a dog running" "invalid image";
                         readErr := None |} |}
           {| Output := "a dog running"; Job_id := 0;
              Err := "invalid image" |}
           eq_refl eq_refl eq_refl eq_refl eq_refl).
Defined.

(** C4, as stated, fails: with a non-empty [Err] the caption text of
    [Output] is returned all the same, next to the error. *)
Lemma C4_output_returned_with_error :
  fst (process
         (demo_world (Some (reply_of "a dog running" "invalid image")) None [])
         demo_worker recordA)
  = Ret ("a dog running", Some (errorString "invalid image"))
  /\ "a dog running" <> EmptyString.
Proof. split; [reflexivity | discriminate]. Qed.

(** A URL without a host whose GET fails (as [http.Get] does for such a
    URL) makes [process] panic: [getPhoto] logs and returns the nil
    response, which [process] dereferences. *)
Lemma process_without_host (W : World) (worker : Worker)
  (md : PhotoMetadata) (p : URL) (e1 e2 : option error) :
  url_Parse W (PhotoUrl md) = (Some p, e1) ->
  Host p = EmptyString ->
  http_Get W (PhotoUrl md) = (None, e2) ->
  process W worker md
  = (Panic,
     [Log "[ERROR] Incorrect photo url provided: %s"; HttpGet (PhotoUrl md)]
     ++ (if is_err e2 then [Log "[ERROR] Could not get the photo by %s"]
         else []))%list.
Proof.
  intros H1 Hh H2. unfold process, getPhoto. rewrite H1, H2.
  cbn [deref bind ret]. rewrite Hh. destruct e2; reflexivity.
Qed.

(** C3 at the URL of the spec: the parse gives an empty host, the fetch is
    logged as failed, and [process] panics instead of returning. *)
Theorem C3_no_host_url_panics :
  getPhoto (demo_world None None []) "not-a-url"
  = (Ret None,
     [Log "[ERROR] Incorrect photo url provided: %s"; HttpGet "not-a-url";
      Log "[ERROR] Could not get the photo by %s"])
  /\ process (demo_world None None []) demo_worker
       (set_PhotoUrl "not-a-url" recordA)
     = (Panic,
        [Log "[ERROR] Incorrect photo url provided: %s"; HttpGet "not-a-url";
         Log "[ERROR] Could not get the photo by %s"]).
Proof. split; reflexivity. Qed.

(** A transport failure of the POST (nil response) makes [process] panic
    after the error line. *)
Lemma process_transport_failure (W : World) (worker : Worker)
  (md : PhotoMetadata) (p p' : URL) (e1 e2 e4 : option error) (r : Response) :
  url_Parse W (PhotoUrl md) = (Some p, e1) ->
  http_Get W (PhotoUrl md) = (Some r, e2) ->
  url_Parse W (url (captionApi (w_config worker))) = (Some p', None) ->
  client_Do W (caption_request W worker (content (Body r))) = (None, e4) ->
  process W worker md
  = (Panic,
     fetch_trace W worker (PhotoUrl md) p e1 e2 r
     ++ (if is_err e4
         then [Log "[ERROR] Couldn't make a request to caption api: %s"]
         else []))%list.
Proof.
  intros H1 H2 H3 H4.
  rewrite (process_unfold W worker md p p' e1 e2 r H1 H2 H3).
  rewrite bind_Ret, H4. destruct e4; reflexivity.
Qed.

(** C7 at a refused connection: the error is logged and [process] panics;
    so does the handler that called it. *)
Theorem C7_transport_failure_panics :
  process (demo_world None None []) demo_worker recordA
  = (Panic,
     fetch_trace (demo_world None None []) demo_worker photo1
       {| Host := "img.example" |} None None
       {| Body := {| content := "JPEG"; readErr := None |} |}
     ++ [Log "[ERROR] Couldn't make a request to caption api: %s"])%list
  /\ fst (handleRedis (demo_world None None []) demo_worker
            (message_of payloadA)) = Panic.
Proof. split; reflexivity. Qed.

(** A payload that is not JSON leaves the record at its zero value, whose
    caption is empty: the captioning call is made on it. *)
Lemma handleRedis_undecodable (W : World) (worker : Worker)
  (message : Message) :
  json.parse (Payload message) = None ->
  exists tail,
    snd (handleRedis W worker message)
    = (intake_log (Some SyntaxError)
       ++ snd (process W worker zero_PhotoMetadata) ++ tail)%list.
Proof.
  intros Hp.
  assert (HU : Unmarshal_PhotoMetadata (Payload message) zero_PhotoMetadata
               = (zero_PhotoMetadata, Some SyntaxError)).
  { unfold Unmarshal_PhotoMetadata. now rewrite Hp. }
  rewrite (handleRedis_unfold W worker message _ _ HU).
  rewrite bind_Ret. cbn [snd Caption zero_PhotoMetadata String.length Nat.eqb].
  destruct (process W worker zero_PhotoMetadata) as [[[c e] | | code |] tr].
  - rewrite bind_Ret. cbn [snd]. eexists. reflexivity.
  - exists []. cbn. now rewrite app_nil_r.
  - exists []. cbn. now rewrite app_nil_r.
  - exists []. cbn. now rewrite app_nil_r.
Qed.

(** C2 at a payload that is not JSON: the decoding error is logged, and
    the handler goes on to the captioning call with the zero record (a GET of
    the empty URL), where it panics. *)
Theorem C2_undecodable_message_is_processed :
  Unmarshal_PhotoMetadata "garbage" zero_PhotoMetadata
  = (zero_PhotoMetadata, Some SyntaxError)
  /\ handleRedis (demo_world (Some (reply_of "a dog running" EmptyString))
                    None [])
       demo_worker (message_of "garbage")
     = (Panic,
        [Log "[DEBUG] Got message from redis channel %s: %v";
         Log "[ERROR] Couldn't decode JSON metadata, %s";
         Log "[DEBUG] Got metadata from message %v";
         Log "[ERROR] Incorrect photo url provided: %s";
         HttpGet EmptyString;
         Log "[ERROR] Could not get the photo by %s"]).
Proof. split; reflexivity. Qed.

(** Without an API key [NewWorker] exits before it subscribes. *)
Lemma NewWorker_without_key (W : World) :
  key (captionApi (config W)) = EmptyString ->
  NewWorker W
  = (Exit 1,
     [Log "[FATAL] Couldn't create worker due to laking caption api key"]).
Proof. intros H. unfold NewWorker. rewrite H. reflexivity. Qed.

(** ** What the decoder builds is valid UTF-8 *)

Lemma Valid_app (a b : string) : Valid a -> Valid b -> Valid (a ++ b).
Proof.
  intros Ha Hb. induction Ha as [| c s Hc Hs IH | p s r Hp Hd Hs IH].
  - exact Hb.
  - cbn [append]. now apply Valid_ascii.
  - rewrite append_assoc. now apply (Valid_rune p (s ++ b) r).
Qed.

Lemma Valid_valid_from (s : string) :
  Valid s -> forall n, (String.length s <= n)%nat -> utf8.valid_from n s = true.
Proof.
  intros Hs. induction Hs as [| c s Hc Hs IH | p s r Hp Hd Hs IH]; intros n Hn.
  - now destruct n.
  - cbn [String.length] in Hn. destruct n as [| n]; [lia |].
    cbn [utf8.valid_from]. rewrite DecodeRune_ascii by assumption.
    destruct (bv c =? utf8.RuneError) eqn:E;
      [unfold utf8.RuneError in E; lia |].
    cbn [andb drop]. apply IH. lia.
  - rewrite length_append in Hn.
    destruct p as [| c p']; [cbn in Hp; lia |].
    destruct n as [| n]; [cbn in Hn; lia |].
    cbn [append utf8.valid_from].
    change (String c (p' ++ s)) with (String c p' ++ s).
    rewrite Hd.
    destruct (String.length (String c p') =? 1)%nat eqn:E;
      [apply Nat.eqb_eq in E; lia |].
    rewrite andb_false_r, drop_app. apply IH. cbn in Hn. lia.
Qed.

Lemma Valid_ValidString (s : string) : Valid s -> utf8.ValidString s = true.
Proof. intros H. now apply Valid_valid_from. Qed.

Lemma Valid_str1 (c : byte) : bv c < 0x80 -> Valid (str1 c).
Proof. intros H. apply Valid_ascii; [assumption | constructor]. Qed.

(** Case analysis on the conditions of the goal, innermost first. *)
Ltac split_conds :=
  repeat match goal with
         | |- context [if ?b then _ else _] =>
           lazymatch b with
           | context [if _ then _ else _] => fail
           | _ => destruct b eqn:?
           end
         end.

Lemma first_2 (b : Z) :
  0xC2 <= b <= 0xDF -> utf8.first b = utf8.Lead 2 utf8.locb utf8.hicb.
Proof. intros H. unfold utf8.first. split_ifs; try reflexivity; lia. Qed.

Lemma first_3 (b : Z) :
  0xE0 <= b <= 0xEF ->
  utf8.first b
  = utf8.Lead 3 (if b =? 0xE0 then 0xA0 else utf8.locb)
      (if b =? 0xED then 0x9F else utf8.hicb).
Proof. intros H. unfold utf8.first. split_ifs; try reflexivity; lia. Qed.

Lemma first_4 (b : Z) :
  0xF0 <= b <= 0xF4 ->
  utf8.first b
  = utf8.Lead 4 (if b =? 0xF0 then 0x90 else utf8.locb)
      (if b =? 0xF4 then 0x8F else utf8.hicb).
Proof. intros H. unfold utf8.first. split_ifs; try reflexivity; lia. Qed.

(** What [utf8.EncodeRune] writes is one encoded rune. *)
Lemma Valid_EncodeRune (r : Z) : Valid (utf8.EncodeRune r).
Proof.
  assert (H3 : forall r, 0x800 <= r <= 0xFFFF -> ~ (0xD800 <= r <= 0xDFFF) ->
                         Valid (utf8.EncodeRune r)).
  { clear r. intros r Hr Hs. rewrite EncodeRune3 by assumption.
    rewrite <- (append_nil_r (String _ _)).
    apply (Valid_rune _ _ r); [cbn; lia | | constructor].
    intros x. cbn [append str1]. unfold utf8.DecodeRune.
    rewrite !bv_byte_of by (Z.div_mod_to_equations; lia).
    rewrite first_3 by (Z.div_mod_to_equations; lia).
    cbn [String.length Nat.ltb Nat.leb]. unfold utf8.locb, utf8.hicb.
    split_conds; try (exfalso; Z.div_mod_to_equations; lia);
      rewrite land_mask3, !land_maskx, lor3 by apply mod64_bound;
      f_equal; Z.div_mod_to_equations; lia. }
  destruct (Z_lt_le_dec r 0) as [Hneg | Hpos].
  { replace (utf8.EncodeRune r) with (utf8.EncodeRune utf8.RuneError).
    - apply H3; unfold utf8.RuneError; lia.
    - unfold utf8.EncodeRune, utf8.rune1Max, utf8.rune2Max.
      destruct (0 <=? r) eqn:E; [lia |]. cbn [andb].
      destruct (r <? 0) eqn:E2; [reflexivity | lia]. }
  destruct (Z_le_gt_dec r 0x7F) as [H1 | H1].
  { rewrite EncodeRune1 by lia. apply Valid_str1.
    rewrite bv_byte_of; lia. }
  destruct (Z_le_gt_dec r 0x7FF) as [H2 | H2].
  { rewrite EncodeRune2 by lia.
    rewrite <- (append_nil_r (String _ _)).
    apply (Valid_rune _ _ r); [cbn; lia | | constructor].
    intros x. cbn [append str1]. unfold utf8.DecodeRune.
    rewrite !bv_byte_of by (Z.div_mod_to_equations; lia).
    rewrite first_2 by (Z.div_mod_to_equations; lia).
    cbn [String.length Nat.ltb Nat.leb]. unfold utf8.locb, utf8.hicb.
    split_conds; try (exfalso; Z.div_mod_to_equations; lia);
      rewrite land_mask2, !land_maskx, lor2 by apply mod64_bound;
      f_equal; Z.div_mod_to_equations; lia. }
  destruct (Z_le_gt_dec r 0xFFFF) as [H4 | H4].
  { destruct (Z_lt_le_dec r 0xD800) as [Ha | Ha]; [apply H3; lia |].
    destruct (Z_le_gt_dec r 0xDFFF) as [Hb | Hb]; [| apply H3; lia].
    replace (utf8.EncodeRune r) with (utf8.EncodeRune utf8.RuneError).
    - apply H3; unfold utf8.RuneError; lia.
    - unfold utf8.EncodeRune, utf8.rune1Max, utf8.rune2Max, utf8.MaxRune,
        utf8.surrogateMin, utf8.surrogateMax.
      destruct (r <=? 127) eqn:E1; [lia |].
      destruct (r <=? 2047) eqn:E2; [lia |].
      destruct (55296 <=? r) eqn:E3; [| lia].
      destruct (r <=? 57343) eqn:E4; [| lia].
      rewrite !andb_false_r. cbn [andb]. rewrite !orb_true_r. reflexivity. }
  destruct (Z_le_gt_dec r 0x10FFFF) as [H5 | H5].
  { rewrite EncodeRune4 by lia.
    rewrite <- (append_nil_r (String _ _)).
    apply (Valid_rune _ _ r); [cbn; lia | | constructor].
    intros x. cbn [append str1]. unfold utf8.DecodeRune.
    rewrite !bv_byte_of by (Z.div_mod_to_equations; lia).
    rewrite first_4 by (Z.div_mod_to_equations; lia).
    cbn [String.length Nat.ltb Nat.leb]. unfold utf8.locb, utf8.hicb.
    split_conds; try (exfalso; Z.div_mod_to_equations; lia);
      rewrite land_mask4, !land_maskx, lor4 by apply mod64_bound;
      f_equal; Z.div_mod_to_equations; lia. }
  replace (utf8.EncodeRune r) with (utf8.EncodeRune utf8.RuneError).
  - apply H3; unfold utf8.RuneError; lia.
  - unfold utf8.EncodeRune, utf8.rune1Max, utf8.rune2Max, utf8.MaxRune.
    destruct (r <=? 127) eqn:E1; [lia |].
    destruct (r <=? 2047) eqn:E2; [lia |].
    destruct (1114111 <? r) eqn:E3; [| lia].
    rewrite !andb_false_r. rewrite orb_true_r. reflexivity.
Qed.

Lemma app_opt_Some (p : string) (r : option string) (u : string) :
  json.app_opt p r = Some u -> exists u', r = Some u' /\ u = p ++ u'.
Proof.
  destruct r as [u' |]; cbn; [| discriminate].
  intros H. injection H as <-. eauto.
Qed.

Lemma escaped_ascii (e : byte) :
  Ascii.eqb e dquote || Ascii.eqb e backslash || Ascii.eqb e "/"
  || Ascii.eqb e "039" = true ->
  bv e < 0x80.
Proof.
  rewrite !orb_true_iff, !Ascii.eqb_eq.
  intros [[[-> | ->] | ->] | ->]; cbn; lia.
Qed.

(** Whatever [unquoteBytes] returns is valid UTF-8. *)
Lemma unquote_from_Valid (fuel : nat) (s u : string) :
  json.unquote_from fuel s = Some u -> Valid u.
Proof.
  revert s u. induction fuel as [| f IH]; intros s u H.
  - destruct s; [| discriminate H]. injection H as <-. constructor.
  - destruct s as [| c t]; [injection H as <-; constructor |].
    cbn [json.unquote_from] in H.
    destruct (Ascii.eqb c backslash).
    + destruct t as [| e t']; [discriminate H |].
      destruct (Ascii.eqb e dquote || Ascii.eqb e backslash
                || Ascii.eqb e "/" || Ascii.eqb e "039") eqn:E1.
      { apply app_opt_Some in H. destruct H as (u' & H & ->).
        apply Valid_app; [apply Valid_str1, escaped_ascii, E1 | eauto]. }
      repeat match type of H with
             | (if Ascii.eqb e ?x then _ else _) = _ =>
               destruct (Ascii.eqb e x);
                 [apply app_opt_Some in H; destruct H as (u' & H & ->);
                  first [ apply Valid_app;
                          [apply Valid_str1; cbn; lia | eauto] | idtac ] |]
             end.
      destruct (Ascii.eqb e "u"); [| discriminate H].
      destruct (json.getu4 (String c (String e t')) <? 0);
        [discriminate H |].
      destruct (utf16.IsSurrogate _).
      * destruct (negb _);
          apply app_opt_Some in H; destruct H as (u' & H & ->);
          (apply Valid_app; [apply Valid_EncodeRune | eauto]).
      * apply app_opt_Some in H. destruct H as (u' & H & ->).
        apply Valid_app; [apply Valid_EncodeRune | eauto].
    + destruct (Ascii.eqb c dquote || (bv c <? 32)); [discriminate H |].
      destruct (bv c <? utf8.RuneSelf) eqn:E.
      * apply app_opt_Some in H. destruct H as (u' & H & ->).
        apply Valid_app;
          [apply Valid_str1; unfold utf8.RuneSelf in E; lia | eauto].
      * destruct (utf8.DecodeRune (String c t)) as [rr size].
        apply app_opt_Some in H. destruct H as (u' & H & ->).
        apply Valid_app; [apply Valid_EncodeRune | eauto].
Qed.

Lemma parse_string_Valid (s u rest : string) :
  json.parse_string s = Some (u, rest) -> utf8.ValidString u = true.
Proof.
  unfold json.parse_string, json.unquote. intros H.
  destruct (json.scan_string s) as [[raw rest'] |]; [| discriminate H].
  destruct (json.unquote_from (String.length raw) raw) as [u' |] eqn:E;
    [| discriminate H].
  injection H as <- <-.
  apply Valid_ValidString. eapply unquote_from_Valid. exact E.
Qed.

Lemma members_ok_rev (ms : list (string * json.value)) :
  members_ok ms = true -> members_ok (rev ms) = true.
Proof.
  unfold members_ok. rewrite !forallb_forall.
  intros H kv Hin. apply H. now apply in_rev.
Qed.

Lemma parsed_ok_value (v : json.value) : parsed_ok v = true -> value_ok v = true.
Proof. unfold parsed_ok. intros H. now apply andb_true_iff in H. Qed.

Section ParsedOk.

Variable pv : string -> option (json.value * string).
Variable pe : string -> list json.value -> option (json.value * string).
Variable pm
  : string -> list (string * json.value) -> option (json.value * string).
Hypothesis Hpv : forall s v rest, pv s = Some (v, rest) -> parsed_ok v = true.
Hypothesis Hpe :
  forall s acc v rest, pe s acc = Some (v, rest) -> parsed_ok v = true.
Hypothesis Hpm :
  forall s acc v rest, pm s acc = Some (v, rest) ->
    members_ok acc = true -> parsed_ok v = true.

Lemma value_step_ok (s : string) (v : json.value) (rest : string) :
  json.value_step pv pe pm s = Some (v, rest) -> parsed_ok v = true.
Proof.
  unfold json.value_step. intros H.
  destruct (json.skip_space s) as [| c t]; [discriminate |].
  destruct (Ascii.eqb c "{").
  { destruct (json.skip_space t) as [| c' t']; [discriminate |].
    destruct (Ascii.eqb c' "}"); [now injection H as <- <- |].
    destruct (json.parse_key (String c' t')) as [[k r1] |]; [| discriminate].
    destruct (pv r1) as [[v1 r2] |] eqn:E; [| discriminate].
    eapply Hpm; [exact H |].
    unfold members_ok. cbn. rewrite andb_true_r.
    eapply parsed_ok_value, Hpv, E. }
  destruct (Ascii.eqb c "[").
  { destruct (json.skip_space t) as [| c' t']; [discriminate |].
    destruct (Ascii.eqb c' "]"); [now injection H as <- <- |].
    destruct (pv (String c' t')) as [[v1 r1] |]; [| discriminate].
    eapply Hpe, H. }
  destruct (Ascii.eqb c dquote).
  { destruct (json.parse_string t) as [[u r1] |] eqn:E; [| discriminate].
    injection H as <- <-. unfold parsed_ok. cbn.
    rewrite (parse_string_Valid _ _ _ E). reflexivity. }
  unfold json.number_value, json.literal_value in H.
  repeat match type of H with
         | (if ?b then _ else _) = _ => destruct b
         | match ?x with _ => _ end = _ => destruct x as [[? ?] |]
         | match ?x with _ => _ end = _ => destruct x
         end;
    try discriminate H; now injection H as <- <-.
Qed.

Lemma elements_step_ok (s : string) (acc : list json.value)
  (v : json.value) (rest : string) :
  json.elements_step pv pe s acc = Some (v, rest) -> parsed_ok v = true.
Proof.
  unfold json.elements_step. intros H.
  destruct (json.skip_space s) as [| c t]; [discriminate |].
  destruct (Ascii.eqb c ",").
  - destruct (pv t) as [[v1 r1] |]; [| discriminate]. eapply Hpe, H.
  - destruct (Ascii.eqb c "]"); [| discriminate]. now injection H as <- <-.
Qed.

Lemma members_step_ok (s : string) (acc : list (string * json.value))
  (v : json.value) (rest : string) :
  json.members_step pv pm s acc = Some (v, rest) ->
  members_ok acc = true -> parsed_ok v = true.
Proof.
  unfold json.members_step. intros H Hacc.
  destruct (json.skip_space s) as [| c t]; [discriminate |].
  destruct (Ascii.eqb c ",").
  - destruct (json.parse_key (json.skip_space t)) as [[k r1] |];
      [| discriminate].
    destruct (pv r1) as [[v1 r2] |] eqn:E; [| discriminate].
    eapply Hpm; [exact H |].
    unfold members_ok in *. cbn. rewrite Hacc, andb_true_r.
    eapply parsed_ok_value, Hpv, E.
  - destruct (Ascii.eqb c "}"); [| discriminate].
    injection H as <- <-. unfold parsed_ok. cbn.
    now apply members_ok_rev.
Qed.

End ParsedOk.

Lemma parse_value_ok (f : nat) :
  (forall s v rest, json.parse_value f s = Some (v, rest) ->
     parsed_ok v = true)
  /\ (forall s acc v rest, json.parse_elements f s acc = Some (v, rest) ->
        parsed_ok v = true)
  /\ (forall s acc v rest, json.parse_members f s acc = Some (v, rest) ->
        members_ok acc = true -> parsed_ok v = true).
Proof.
  induction f as [| f (IHv & IHe & IHm)].
  - repeat split; intros; discriminate.
  - repeat split; intros s; intros;
      cbn [json.parse_value json.parse_elements json.parse_members] in *.
    + eapply value_step_ok; eassumption.
    + eapply elements_step_ok; eassumption.
    + eapply members_step_ok; eassumption.
Qed.

Lemma parse_prefix_ok (data : string) (v : json.value) (rest : string) :
  json.parse_prefix data = Some (v, rest) -> parsed_ok v = true.
Proof. apply parse_value_ok. Qed.

Lemma parse_ok (data : string) (v : json.value) :
  json.parse data = Some v -> parsed_ok v = true.
Proof.
  unfold json.parse. intros H.
  destruct (json.parse_prefix data) as [[v' rest] |] eqn:E; [| discriminate].
  destruct (json.skip_space rest); [| discriminate].
  injection H as <-. eapply parse_prefix_ok, E.
Qed.

Lemma parseUint_loop_bound (s : string) (n m : Z) :
  strconv.parseUint_loop s n = Some m ->
  0 <= n <= strconv.maxUint64 -> 0 <= m <= strconv.maxUint64.
Proof.
  revert n. induction s as [| c s IH]; intros n H Hn.
  - cbn in H. now injection H as <-.
  - cbn [strconv.parseUint_loop] in H.
    destruct ((48 <=? bv c) && (bv c <=? 57)); [| discriminate H].
    destruct (strconv.maxUint64 / 10 + 1 <=? n); [discriminate H |].
    destruct (((n * 10 + (bv c - 48)) mod 2 ^ 64 <? n * 10)
              || (strconv.maxUint64 <? (n * 10 + (bv c - 48)) mod 2 ^ 64))
      eqn:E; [discriminate H |].
    apply (IH _ H). unfold strconv.maxUint64 in *.
    apply orb_false_elim in E. destruct E as [E1 E2].
    split; [apply Z.mod_pos_bound; lia | lia].
Qed.

(** [strconv.ParseInt(s, 10, 64)] returns an int64. *)
Lemma ParseInt_int64 (s : string) (n : Z) :
  strconv.ParseInt s = Some n -> int64 n.
Proof.
  unfold strconv.ParseInt, strconv.ParseUint, int64. intros H.
  destruct s as [| c t]; [discriminate H |].
  destruct (if Ascii.eqb c "+" || Ascii.eqb c "-" then t else String c t)
    as [| c' t'] eqn:Es; [discriminate H |].
  destruct (strconv.parseUint_loop (String c' t') 0) as [un |] eqn:E;
    [| discriminate H].
  apply parseUint_loop_bound in E; [| unfold strconv.maxUint64; lia].
  destruct (Ascii.eqb c "-"); cbn [negb andb] in H.
  - destruct (2 ^ 63 <? un) eqn:E2; [discriminate H |].
    injection H as <-. lia.
  - destruct (2 ^ 63 <=? un) eqn:E2; [discriminate H |].
    injection H as <-. lia.
Qed.

Lemma wf_zero : wf_PhotoMetadata zero_PhotoMetadata.
Proof. unfold wf_PhotoMetadata, int64. cbn. repeat split; lia. Qed.

Lemma as_string_ok (v : json.value) (s : string) :
  value_ok v = true -> json.as_string v = json.SetTo s ->
  utf8.ValidString s = true.
Proof. destruct v; cbn; intros Hv H; try discriminate H. now injection H as <-. Qed.

Lemma as_int64_ok (v : json.value) (n : Z) :
  json.as_int64 v = json.SetTo n -> int64 n.
Proof.
  destruct v; cbn; intros H; try discriminate H.
  destruct (strconv.ParseInt lit) as [m |] eqn:E; [| discriminate H].
  injection H as <-. eapply ParseInt_int64, E.
Qed.

Lemma PhotoMetadata_member_wf (acc : PhotoMetadata * option error)
  (kv : string * json.value) :
  wf_PhotoMetadata (fst acc) -> value_ok (snd kv) = true ->
  wf_PhotoMetadata (fst (PhotoMetadata_member acc kv)).
Proof.
  destruct acc as [m e], kv as [k v]. cbn [fst snd].
  intros (H1 & H2 & H3 & H4 & H5) Hv. unfold PhotoMetadata_member.
  destruct (json.find_field PhotoMetadata_fields k None) as [[] |];
    unfold json.store;
    try match goal with
        | |- context [json.as_string v] =>
          destruct (json.as_string v) as [s | |] eqn:E;
            [apply (as_string_ok _ _ Hv) in E | |]
        | |- context [json.as_int64 v] =>
          destruct (json.as_int64 v) as [n | |] eqn:E;
            [apply as_int64_ok in E | |]
        | |- context [json.as_bool v] =>
          destruct (json.as_bool v) as [b | |]
        end;
    unfold wf_PhotoMetadata;
    cbn [fst snd ChatId PhotoUrl Caption StyledUrl PhotoId set_ChatId
         set_PhotoUrl set_Caption set_StyledUrl set_Published set_PhotoId];
    refine (conj _ (conj _ (conj _ (conj _ _)))); assumption.
Qed.

Lemma fold_member_wf (ms : list (string * json.value))
  (acc : PhotoMetadata * option error) :
  wf_PhotoMetadata (fst acc) -> members_ok ms = true ->
  wf_PhotoMetadata (fst (fold_left PhotoMetadata_member ms acc)).
Proof.
  revert acc. induction ms as [| kv ms IH]; intros acc Hacc Hms;
    [assumption |].
  cbn [fold_left]. unfold members_ok in Hms. cbn in Hms.
  apply andb_true_iff in Hms. destruct Hms as [Hkv Hms].
  apply IH; [now apply PhotoMetadata_member_wf | assumption].
Qed.

(** Whatever is decoded into a record, its strings are valid UTF-8 and its
    chatId is an int64. *)
Lemma Unmarshal_wf (data : string) (m : PhotoMetadata) :
  wf_PhotoMetadata m ->
  wf_PhotoMetadata (fst (Unmarshal_PhotoMetadata data m)).
Proof.
  intros Hm. unfold Unmarshal_PhotoMetadata.
  destruct (json.parse data) as [v |] eqn:E; [| assumption].
  apply parse_ok in E. unfold parsed_ok in E.
  apply andb_true_iff in E. destruct E as [_ E].
  destruct v; cbn [decode_struct fst]; try assumption.
  now apply fold_member_wf.
Qed.

Lemma CaptionApiResponse_member_ok (acc : CaptionApiResponse * option error)
  (kv : string * json.value) :
  utf8.ValidString (Output (fst acc)) = true -> value_ok (snd kv) = true ->
  utf8.ValidString (Output (fst (CaptionApiResponse_member acc kv))) = true.
Proof.
  destruct acc as [r e], kv as [k v]. cbn [fst snd].
  intros Hr Hv. unfold CaptionApiResponse_member.
  destruct (json.find_field CaptionApiResponse_fields k None) as [[] |];
    unfold json.store;
    try match goal with
        | |- context [json.as_string v] =>
          destruct (json.as_string v) as [s | |] eqn:E;
            [apply (as_string_ok _ _ Hv) in E | |]
        | |- context [json.as_int64 v] =>
          destruct (json.as_int64 v) as [n | |]
        end;
    cbn; assumption.
Qed.

Lemma fold_response_ok (ms : list (string * json.value))
  (acc : CaptionApiResponse * option error) :
  utf8.ValidString (Output (fst acc)) = true -> members_ok ms = true ->
  utf8.ValidString
    (Output (fst (fold_left CaptionApiResponse_member ms acc))) = true.
Proof.
  revert acc. induction ms as [| kv ms IH]; intros acc Hacc Hms;
    [assumption |].
  cbn [fold_left]. unfold members_ok in Hms. cbn in Hms.
  apply andb_true_iff in Hms. destruct Hms as [Hkv Hms].
  apply IH; [now apply CaptionApiResponse_member_ok | assumption].
Qed.

(** The caption decoded from a response body is valid UTF-8. *)
Lemma Decode_Output_Valid (body : ReadCloser) :
  utf8.ValidString
    (Output (fst (Decode_CaptionApiResponse body zero_CaptionApiResponse)))
  = true.
Proof.
  unfold Decode_CaptionApiResponse.
  destruct (json.parse_prefix (content body)) as [[v rest] |] eqn:E;
    [| reflexivity].
  apply parse_prefix_ok in E. unfold parsed_ok in E.
  apply andb_true_iff in E. destruct E as [_ E].
  assert (H : utf8.ValidString
                (Output (fst (decode_struct CaptionApiResponse_member v
                                zero_CaptionApiResponse))) = true).
  { destruct v; cbn [decode_struct fst]; try reflexivity.
    now apply fold_response_ok. }
  destruct (readErr body), rest; try exact H.
  destruct (is_scalar v); [reflexivity | exact H].
Qed.

(** What [process] returns is [caption_result] of a decoded body. *)
Lemma process_result (W : World) (worker : Worker) (md : PhotoMetadata)
  (res : string * option error) (tr : list Event) :
  process W worker md = (Ret res, tr) ->
  exists body,
    res = caption_result
            (fst (Decode_CaptionApiResponse body zero_CaptionApiResponse)).
Proof.
  unfold process, getPhoto, http_NewRequest.
  destruct W as [uP hG cD rB rP rR rH rPub rCh vE vI].
  destruct worker as [cl [[u k] rc]].
  destruct md as [cid purl cap surl pub pid].
  cbv -[Decode_CaptionApiResponse String.eqb String.append caption_result].
  repeat (first
            [ match goal with
              | |- context [match Decode_CaptionApiResponse ?b ?z
                            with _ => _ end] =>
                destruct (Decode_CaptionApiResponse b z) as [cr de] eqn:E
              end
            | split_leaf ];
          cbv -[Decode_CaptionApiResponse String.eqb String.append
                caption_result]);
    intros H; inversion H; subst;
    match goal with
    | E : Decode_CaptionApiResponse ?b _ = _ |- _ =>
      exists b; rewrite E; reflexivity
    end.
Qed.

Lemma process_caption_valid (W : World) (worker : Worker)
  (md : PhotoMetadata) (c : string) (e : option error) (tr : list Event) :
  process W worker md = (Ret (c, e), tr) -> utf8.ValidString c = true.
Proof.
  intros H. apply process_result in H. destruct H as (body & H).
  unfold caption_result in H. injection H as -> _.
  apply Decode_Output_Valid.
Qed.

Lemma wf_set_Caption (c : string) (m : PhotoMetadata) :
  wf_PhotoMetadata m -> utf8.ValidString c = true ->
  wf_PhotoMetadata (set_Caption c m).
Proof.
  intros (H1 & H2 & H3 & H4 & H5) Hc.
  refine (conj _ (conj _ (conj _ (conj _ _)))); assumption.
Qed.

(** The message republished after a successful captioning call decodes to
    the inbound record with its caption set. *)
Lemma republished_decodes (W : World) (worker : Worker) (message : Message)
  (md : PhotoMetadata) (derr : option error) (c : string) (tr : list Event) :
  Unmarshal_PhotoMetadata (Payload message) zero_PhotoMetadata = (md, derr) ->
  process W worker md = (Ret (c, None), tr) ->
  Unmarshal_PhotoMetadata (fst (Marshal_PhotoMetadata (set_Caption c md)))
    zero_PhotoMetadata
  = (set_Caption c md, None).
Proof.
  intros HU Hp.
  apply Unmarshal_Marshal.
  apply wf_set_Caption.
  - pose proof (Unmarshal_wf (Payload message) zero_PhotoMetadata wf_zero) as H.
    now rewrite HU in H.
  - eapply process_caption_valid, Hp.
Qed.

(** ** The republished record *)

(** C8.  When the captioning call succeeds with caption [c], the keyed
    store receives field caption = [c] under key photoId, and the message
    published on the channel is the encoding of a record [md'] that carries
    [c] as its caption and whose other fields (chatId, photoUrl, styledUrl,
    published, photoId) are those of the inbound record; decoding the
    published message gives [md'] back. *)
Theorem C8_enriched_record_stored_and_republished
  (W : World) (worker : Worker) (message : Message) (md : PhotoMetadata)
  (derr : option error) (c : string) (tr : list Event) :
  Unmarshal_PhotoMetadata (Payload message) zero_PhotoMetadata = (md, derr) ->
  Caption md = EmptyString ->
  process W worker md = (Ret (c, None), tr) ->
  exists md',
    fst (handleRedis W worker message) = Ret tt
    /\ In (HSet (PhotoId md) "caption" c) (snd (handleRedis W worker message))
    /\ In (Publish (channel (redisCfg (w_config worker)))
             (fst (Marshal_PhotoMetadata md')))
          (snd (handleRedis W worker message))
    /\ Unmarshal_PhotoMetadata (fst (Marshal_PhotoMetadata md'))
         zero_PhotoMetadata = (md', None)
    /\ Caption md' = c
    /\ ChatId md' = ChatId md /\ PhotoUrl md' = PhotoUrl md
    /\ StyledUrl md' = StyledUrl md /\ Published md' = Published md
    /\ PhotoId md' = PhotoId md.
Proof.
  intros HU Hcap Hp. exists (set_Caption c md).
  pose proof (republished_decodes W worker message md derr c tr HU Hp)
    as Hdec.
  rewrite (handleRedis_success W worker message md derr c tr HU Hcap Hp).
  cbn [fst snd]. unfold persist_trace.
  split; [reflexivity |].
  split; [| split; [| split]].
  - apply in_or_app. right. apply in_or_app. right. left. reflexivity.
  - apply in_or_app. right. apply in_or_app. right.
    apply in_or_app. right. apply in_or_app. right. left. reflexivity.
  - exact Hdec.
  - repeat split.
Qed.

Lemma C8_witness :
  exists md',
    fst (handleRedis
           (demo_world (Some (reply_of "a dog running" EmptyString)) None [])
           demo_worker (message_of payloadA)) = Ret tt
    /\ In (HSet "p1" "caption" "a dog running")
          (snd (handleRedis
                  (demo_world (Some (reply_of "a dog running" EmptyString))
                     None [])
                  demo_worker (message_of payloadA)))
    /\ In (Publish "queue" (fst (Marshal_PhotoMetadata md')))
          (snd (handleRedis
                  (demo_world (Some (reply_of "a dog running" EmptyString))
                     None [])
                  demo_worker (message_of payloadA)))
    /\ Unmarshal_PhotoMetadata (fst (Marshal_PhotoMetadata md'))
         zero_PhotoMetadata = (md', None)
    /\ Caption md' = "a dog running"
    /\ ChatId md' = 0 /\ PhotoUrl md' = photo1
    /\ StyledUrl md' = EmptyString /\ Published md' = false
    /\ PhotoId md' = "p1".
Proof.
  refine (C8_enriched_record_stored_and_republished
            (demo_world (Some (reply_of "a dog running" EmptyString)) None [])
            demo_worker (message_of payloadA) recordA None
            "a dog running" _ _ _ _);
    reflexivity.
Defined.

(** C6.  When the captioning call succeeds with caption [c] and the write
    to the keyed store (HSet under key photoId, field caption) fails, the
    failure is logged and the handler goes on: after the error line it
    publishes, on the channel, the encoding of a record [md'] that carries
    [c] as its caption and whose other fields are those of the inbound
    record; decoding the published message gives [md'] back.  Only log
    lines follow, and the handler returns. *)
Theorem C6_persist_failure_still_publishes
  (W : World) (worker : Worker) (message : Message) (md : PhotoMetadata)
  (derr : option error) (c : string) (tr : list Event)
  (b : bool) (e : error) :
  Unmarshal_PhotoMetadata (Payload message) zero_PhotoMetadata = (md, derr) ->
  Caption md = EmptyString ->
  process W worker md = (Ret (c, None), tr) ->
  redis_HSet W (PhotoId md) "caption" c = (b, Some e) ->
  exists md' post,
    handleRedis W worker message
    = (Ret tt,
       (intake_log derr ++ tr
        ++ [HSet (PhotoId md) "caption" c;
            Log "[ERROR] Couldn't set caption in redis for %s: %s";
            Publish (channel (redisCfg (w_config worker)))
              (fst (Marshal_PhotoMetadata md'))]
        ++ post)%list)
    /\ forallb is_Log post = true
    /\ Unmarshal_PhotoMetadata (fst (Marshal_PhotoMetadata md'))
         zero_PhotoMetadata
       = (md', None)
    /\ Caption md' = c
    /\ ChatId md' = ChatId md
    /\ PhotoUrl md' = PhotoUrl md
    /\ StyledUrl md' = StyledUrl md
    /\ Published md' = Published md
    /\ PhotoId md' = PhotoId md.
Proof.
  intros HU Hcap Hp HH.
  exists (set_Caption c md).
  exists (if is_err
               (snd (redis_Publish W (channel (redisCfg (w_config worker)))
                       (fst (Marshal_PhotoMetadata (set_Caption c md)))))
          then [Log "[ERROR] Couldn't publish photo metadata to redis channel: %s"]
          else []).
  rewrite (handleRedis_success W worker message md derr c tr HU Hcap Hp).
  unfold persist_trace. rewrite HH. cbn [snd is_err].
  refine (conj eq_refl (conj _ (conj _ _))).
  - destruct (is_err _); reflexivity.
  - exact (republished_decodes W worker message md derr c tr HU Hp).
  - repeat split.
Qed.

Lemma C6_witness :
  exists md' post,
    handleRedis
      (demo_world (Some (reply_of "a dog running" EmptyString))
         (Some (externalError "READONLY")) [])
      demo_worker (message_of payloadA)
    = (Ret tt,
       (intake_log None
        ++ snd (process
                  (demo_world (Some (reply_of "a dog running" EmptyString))
                     (Some (externalError "READONLY")) [])
                  demo_worker recordA)
        ++ [HSet "p1" "caption" "a dog running";
            Log "[ERROR] Couldn't set caption in redis for %s: %s";
            Publish "queue" (fst (Marshal_PhotoMetadata md'))]
        ++ post)%list)
    /\ forallb is_Log post = true
    /\ Unmarshal_PhotoMetadata (fst (Marshal_PhotoMetadata md'))
         zero_PhotoMetadata
       = (md', None)
    /\ Caption md' = "a dog running"
    /\ ChatId md' = 0
    /\ PhotoUrl md' = photo1
    /\ StyledUrl md' = EmptyString
    /\ Published md' = false
    /\ PhotoId md' = "p1".
Proof.
  refine (C6_persist_failure_still_publishes
            (demo_world (Some (reply_of "a dog running" EmptyString))
               (Some (externalError "READONLY")) [])
            demo_worker (message_of payloadA) recordA None
            "a dog running" _ true (externalError "READONLY") _ _ _ _);
    reflexivity.
Defined.

(** ** The fuel of the parser is enough

    Every parser consumes at least one byte, so [S (length s)] steps of fuel
    are never exhausted: more fuel gives the same result. *)

Lemma skip_space_length (s : string) :
  (String.length (json.skip_space s) <= String.length s)%nat.
Proof.
  induction s as [| c s IH]; cbn; [lia |].
  destruct (json.isSpace c); cbn; lia.
Qed.

Lemma cons_lit_Some (c : byte) (r : option (string * string))
  (lit rest : string) :
  json.cons_lit c r = Some (lit, rest) ->
  exists lit', r = Some (lit', rest).
Proof.
  destruct r as [[lit' rest'] |]; cbn; [| discriminate].
  intros H. injection H as _ <-. eauto.
Qed.

Lemma scan_string_length (n : nat) (s raw rest : string) :
  (String.length s <= n)%nat ->
  json.scan_string s = Some (raw, rest) ->
  (String.length rest < String.length s)%nat.
Proof.
  revert s raw rest. induction n as [| n IH]; intros s raw rest Hn H.
  - destruct s; [discriminate H | cbn in Hn; lia].
  - destruct s as [| c t]; [discriminate H |].
    cbn [json.scan_string] in H. cbn [String.length] in Hn |- *.
    destruct (Ascii.eqb c dquote); [injection H as <- <-; lia |].
    destruct (Ascii.eqb c backslash).
    + destruct t as [| e t']; [discriminate H |].
      cbn [String.length] in Hn |- *.
      destruct (_ || _).
      * apply cons_lit_Some in H. destruct H as (l1 & H).
        apply cons_lit_Some in H. destruct H as (l2 & H).
        apply IH in H; lia.
      * destruct (Ascii.eqb e "u"); [| discriminate H].
        destruct t' as [| h1 [| h2 [| h3 [| h4 t'']]]]; try discriminate H.
        destruct (_ && _); [| discriminate H].
        repeat (apply cons_lit_Some in H; destruct H as (? & H)).
        apply IH in H; cbn [String.length] in *; lia.
    + destruct (bv c <? 32); [discriminate H |].
      apply cons_lit_Some in H. destruct H as (l1 & H).
      apply IH in H; lia.
Qed.

Lemma parse_string_length (s u rest : string) :
  json.parse_string s = Some (u, rest) ->
  (String.length rest < String.length s)%nat.
Proof.
  unfold json.parse_string. intros H.
  destruct (json.scan_string s) as [[raw rest'] |] eqn:E; [| discriminate H].
  destruct (json.unquote raw); [| discriminate H].
  injection H as _ <-.
  exact (scan_string_length (String.length s) s raw rest' (le_n _) E).
Qed.

Lemma parse_key_length (s k rest : string) :
  json.parse_key s = Some (k, rest) ->
  (String.length rest < String.length s)%nat.
Proof.
  unfold json.parse_key. intros H.
  destruct s as [| c t]; [discriminate H |].
  destruct (Ascii.eqb c dquote); [| discriminate H].
  destruct (json.parse_string t) as [[k' r1] |] eqn:E; [| discriminate H].
  apply parse_string_length in E.
  pose proof (skip_space_length r1) as Hs.
  destruct (json.skip_space r1) as [| c' r2]; [discriminate H |].
  destruct (Ascii.eqb c' ":"); [| discriminate H].
  injection H as _ <-. cbn [String.length] in *. lia.
Qed.

Lemma scan_number_length (st : json.numState) (s lit rest : string) :
  json.scan_number st s = Some (lit, rest) ->
  (String.length rest <= String.length s)%nat.
Proof.
  revert st lit rest. induction s as [| c s IH]; intros st lit rest H.
  - cbn in H. destruct (json.num_final st); [| discriminate H].
    injection H as _ <-. cbn. lia.
  - cbn [json.scan_number] in H.
    destruct (json.num_step st c) as [st' |].
    + apply cons_lit_Some in H. destruct H as (l1 & H).
      apply IH in H. cbn. lia.
    + destruct (json.num_final st); [| discriminate H].
      injection H as _ <-. lia.
Qed.

Lemma strip_prefix_length (p s rest : string) :
  json.strip_prefix p s = Some rest ->
  (String.length rest <= String.length s)%nat.
Proof.
  revert s. induction p as [| a p IH]; intros s H.
  - cbn in H. injection H as <-. lia.
  - destruct s as [| b s]; [discriminate H |].
    cbn in H. destruct (Ascii.eqb a b); [| discriminate H].
    apply IH in H. cbn. lia.
Qed.

Lemma scalar_length (c : byte) (t : string) (v : json.value) (rest : string) :
  (if Ascii.eqb c "-" then json.number_value c (json.scan_number json.stateNeg t)
   else if Ascii.eqb c "0" then
     json.number_value c (json.scan_number json.state0 t)
   else if json.isDigit c then
     json.number_value c (json.scan_number json.state1 t)
   else if Ascii.eqb c "t" then
     json.literal_value (json.Bool true) (json.strip_prefix "rue" t)
   else if Ascii.eqb c "f" then
     json.literal_value (json.Bool false) (json.strip_prefix "alse" t)
   else if Ascii.eqb c "n" then
     json.literal_value json.Null (json.strip_prefix "ull" t)
   else None) = Some (v, rest) ->
  (String.length rest <= String.length t)%nat.
Proof.
  unfold json.number_value, json.literal_value. intros H.
  repeat match type of H with
         | (if ?b then _ else _) = _ => destruct b
         end;
    try discriminate H;
    match type of H with
    | match json.scan_number ?st ?t with _ => _ end = _ =>
      destruct (json.scan_number st t) as [[lit r1] |] eqn:E;
        [apply scan_number_length in E | discriminate H]
    | match json.strip_prefix ?p ?t with _ => _ end = _ =>
      destruct (json.strip_prefix p t) as [r1 |] eqn:E;
        [apply strip_prefix_length in E | discriminate H]
    end;
    injection H as _ <-; exact E.
Qed.

Section Consume.

Variable pv : string -> option (json.value * string).
Variable pe : string -> list json.value -> option (json.value * string).
Variable pm
  : string -> list (string * json.value) -> option (json.value * string).
Hypothesis Hpv : forall s v rest, pv s = Some (v, rest) ->
  (String.length rest < String.length s)%nat.
Hypothesis Hpe : forall s acc v rest, pe s acc = Some (v, rest) ->
  (String.length rest < String.length s)%nat.
Hypothesis Hpm : forall s acc v rest, pm s acc = Some (v, rest) ->
  (String.length rest < String.length s)%nat.

Lemma value_step_consumes (s : string) (v : json.value) (rest : string) :
  json.value_step pv pe pm s = Some (v, rest) ->
  (String.length rest < String.length s)%nat.
Proof.
  unfold json.value_step. intros H.
  pose proof (skip_space_length s) as Hs.
  destruct (json.skip_space s) as [| c t]; [discriminate |].
  cbn [String.length] in Hs.
  pose proof (skip_space_length t) as Ht.
  destruct (Ascii.eqb c "{").
  { destruct (json.skip_space t) as [| c' t']; [discriminate |].
    destruct (Ascii.eqb c' "}");
      [injection H as _ <-; cbn [String.length] in Ht; lia |].
    destruct (json.parse_key (String c' t')) as [[k r1] |] eqn:E1;
      [| discriminate].
    apply parse_key_length in E1.
    destruct (pv r1) as [[v1 r2] |] eqn:E2; [| discriminate].
    apply Hpv in E2. apply Hpm in H. lia. }
  destruct (Ascii.eqb c "[").
  { destruct (json.skip_space t) as [| c' t']; [discriminate |].
    destruct (Ascii.eqb c' "]");
      [injection H as _ <-; cbn [String.length] in Ht; lia |].
    destruct (pv (String c' t')) as [[v1 r1] |] eqn:E1; [| discriminate].
    apply Hpv in E1. apply Hpe in H. lia. }
  destruct (Ascii.eqb c dquote).
  { destruct (json.parse_string t) as [[u r1] |] eqn:E; [| discriminate].
    apply parse_string_length in E. injection H as _ <-. lia. }
  apply scalar_length in H. lia.
Qed.

Lemma elements_step_consumes (s : string) (acc : list json.value)
  (v : json.value) (rest : string) :
  json.elements_step pv pe s acc = Some (v, rest) ->
  (String.length rest < String.length s)%nat.
Proof.
  unfold json.elements_step. intros H.
  pose proof (skip_space_length s) as Hs.
  destruct (json.skip_space s) as [| c t]; [discriminate |].
  cbn [String.length] in Hs.
  destruct (Ascii.eqb c ",").
  - destruct (pv t) as [[v1 r1] |] eqn:E; [| discriminate].
    apply Hpv in E. apply Hpe in H. lia.
  - destruct (Ascii.eqb c "]"); [| discriminate].
    injection H as _ <-. lia.
Qed.

Lemma members_step_consumes (s : string) (acc : list (string * json.value))
  (v : json.value) (rest : string) :
  json.members_step pv pm s acc = Some (v, rest) ->
  (String.length rest < String.length s)%nat.
Proof.
  unfold json.members_step. intros H.
  pose proof (skip_space_length s) as Hs.
  destruct (json.skip_space s) as [| c t]; [discriminate |].
  cbn [String.length] in Hs.
  pose proof (skip_space_length t) as Ht.
  destruct (Ascii.eqb c ",").
  - destruct (json.parse_key (json.skip_space t)) as [[k r1] |] eqn:E1;
      [| discriminate].
    apply parse_key_length in E1.
    destruct (pv r1) as [[v1 r2] |] eqn:E2; [| discriminate].
    apply Hpv in E2. apply Hpm in H. lia.
  - destruct (Ascii.eqb c "}"); [| discriminate].
    injection H as _ <-. lia.
Qed.

End Consume.

Lemma parse_consumes (f : nat) :
  (forall s v rest, json.parse_value f s = Some (v, rest) ->
     (String.length rest < String.length s)%nat)
  /\ (forall s acc v rest, json.parse_elements f s acc = Some (v, rest) ->
        (String.length rest < String.length s)%nat)
  /\ (forall s acc v rest, json.parse_members f s acc = Some (v, rest) ->
        (String.length rest < String.length s)%nat).
Proof.
  induction f as [| f (IHv & IHe & IHm)].
  - repeat split; intros; discriminate.
  - repeat split; intros s; intros;
      cbn [json.parse_value json.parse_elements json.parse_members] in *.
    + eapply value_step_consumes; eassumption.
    + eapply elements_step_consumes; eassumption.
    + eapply members_step_consumes; eassumption.
Qed.

Section Down.

Variables pv pv' : string -> option (json.value * string).
Variables pe pe' : string -> list json.value -> option (json.value * string).
Variables pm pm'
  : string -> list (string * json.value) -> option (json.value * string).
Variable n : nat.
Hypothesis Cpv : forall s v rest, pv' s = Some (v, rest) ->
  (String.length rest < String.length s)%nat.
Hypothesis Hpv : forall s r, (String.length s < n)%nat ->
  pv' s = Some r -> pv s = Some r.
Hypothesis Hpe : forall s acc r, (String.length s < n)%nat ->
  pe' s acc = Some r -> pe s acc = Some r.
Hypothesis Hpm : forall s acc r, (String.length s < n)%nat ->
  pm' s acc = Some r -> pm s acc = Some r.

Lemma value_step_down (s : string) (r : json.value * string) :
  (String.length s < S n)%nat ->
  json.value_step pv' pe' pm' s = Some r ->
  json.value_step pv pe pm s = Some r.
Proof.
  unfold json.value_step. intros Hn H.
  pose proof (skip_space_length s) as Hs.
  destruct (json.skip_space s) as [| c t]; [discriminate |].
  cbn [String.length] in Hs.
  pose proof (skip_space_length t) as Ht.
  destruct (Ascii.eqb c "{").
  - destruct (json.skip_space t) as [| c' t']; [discriminate |].
    destruct (Ascii.eqb c' "}"); [assumption |].
    destruct (json.parse_key (String c' t')) as [[k r1] |] eqn:E1;
      [| discriminate].
    apply parse_key_length in E1.
    destruct (pv' r1) as [[v1 r2] |] eqn:E2; [| discriminate].
    rewrite (Hpv r1 _ ltac:(lia) E2).
    apply Cpv in E2. apply Hpm; [lia | assumption].
  - destruct (Ascii.eqb c "["); [| assumption].
    destruct (json.skip_space t) as [| c' t']; [discriminate |].
    destruct (Ascii.eqb c' "]"); [assumption |].
    destruct (pv' (String c' t')) as [[v1 r1] |] eqn:E1; [| discriminate].
    rewrite (Hpv (String c' t') _ ltac:(lia) E1).
    apply Cpv in E1. apply Hpe; [lia | assumption].
Qed.

Lemma elements_step_down (s : string) (acc : list json.value)
  (r : json.value * string) :
  (String.length s < S n)%nat ->
  json.elements_step pv' pe' s acc = Some r ->
  json.elements_step pv pe s acc = Some r.
Proof.
  unfold json.elements_step. intros Hn H.
  pose proof (skip_space_length s) as Hs.
  destruct (json.skip_space s) as [| c t]; [discriminate |].
  cbn [String.length] in Hs.
  destruct (Ascii.eqb c ","); [| assumption].
  destruct (pv' t) as [[v1 r1] |] eqn:E; [| discriminate].
  rewrite (Hpv t _ ltac:(lia) E).
  apply Cpv in E. apply Hpe; [lia | assumption].
Qed.

Lemma members_step_down (s : string) (acc : list (string * json.value))
  (r : json.value * string) :
  (String.length s < S n)%nat ->
  json.members_step pv' pm' s acc = Some r ->
  json.members_step pv pm s acc = Some r.
Proof.
  unfold json.members_step. intros Hn H.
  pose proof (skip_space_length s) as Hs.
  destruct (json.skip_space s) as [| c t]; [discriminate |].
  cbn [String.length] in Hs.
  pose proof (skip_space_length t) as Ht.
  destruct (Ascii.eqb c ","); [| assumption].
  destruct (json.parse_key (json.skip_space t)) as [[k r1] |] eqn:E1;
    [| discriminate].
  apply parse_key_length in E1.
  destruct (pv' r1) as [[v1 r2] |] eqn:E2; [| discriminate].
  rewrite (Hpv r1 _ ltac:(lia) E2).
  apply Cpv in E2. apply Hpm; [lia | assumption].
Qed.

End Down.

Lemma parse_fuel_down (f' : nat) :
  (forall f s r, (String.length s < f)%nat ->
     json.parse_value f' s = Some r -> json.parse_value f s = Some r)
  /\ (forall f s acc r, (String.length s < f)%nat ->
        json.parse_elements f' s acc = Some r ->
        json.parse_elements f s acc = Some r)
  /\ (forall f s acc r, (String.length s < f)%nat ->
        json.parse_members f' s acc = Some r ->
        json.parse_members f s acc = Some r).
Proof.
  induction f' as [| f' (IHv & IHe & IHm)].
  - repeat split; intros; discriminate.
  - destruct (parse_consumes f') as (Cv & _ & _).
    repeat split; intros f s; intros; (destruct f as [| f]; [lia |]);
      cbn [json.parse_value json.parse_elements json.parse_members] in *.
    + apply (value_step_down (json.parse_value f) (json.parse_value f')
               (json.parse_elements f) (json.parse_elements f')
               (json.parse_members f) (json.parse_members f') f);
        [exact Cv | apply IHv | apply IHe | apply IHm | assumption
        | assumption].
    + apply (elements_step_down (json.parse_value f) (json.parse_value f')
               (json.parse_elements f) (json.parse_elements f') f);
        [exact Cv | apply IHv | apply IHe | assumption | assumption].
    + apply (members_step_down (json.parse_value f) (json.parse_value f')
               (json.parse_members f) (json.parse_members f') f);
        [exact Cv | apply IHv | apply IHm | assumption | assumption].
Qed.

(** With any fuel above the length of the text, [parse_value] gives what
    [json.parse_prefix] gives: a text is refused for its syntax only. *)
Theorem parse_value_fuel_enough (f : nat) (data : string) :
  (String.length data < f)%nat ->
  json.parse_value f data = json.parse_prefix data.
Proof.
  intros Hf. unfold json.parse_prefix.
  destruct (json.parse_value f data) as [r |] eqn:E1.
  - symmetry. eapply parse_fuel_down; [| exact E1]. lia.
  - destruct (json.parse_value (S (String.length data)) data) as [r |] eqn:E2;
      [| reflexivity].
    eapply parse_fuel_down in E2; [| exact Hf]. congruence.
Qed.

(** ** Unquoting never fails on scanned text *)

Lemma cons_lit_inv (c : byte) (r : option (string * string))
  (lit rest : string) :
  json.cons_lit c r = Some (lit, rest) ->
  exists lit', r = Some (lit', rest) /\ lit = String c lit'.
Proof.
  destruct r as [[lit' rest'] |]; cbn; [| discriminate].
  intros H. injection H as <- <-. eauto.
Qed.

Lemma scan_string_Escaped (n : nat) (s raw rest : string) :
  (String.length s <= n)%nat ->
  json.scan_string s = Some (raw, rest) -> Escaped raw.
Proof.
  revert s raw rest. induction n as [| n IH]; intros s raw rest Hn H.
  - destruct s; [discriminate H | cbn in Hn; lia].
  - destruct s as [| c t]; [discriminate H |].
    cbn [json.scan_string] in H. cbn [String.length] in Hn.
    destruct (Ascii.eqb c dquote) eqn:Eq; [injection H as <- <-; constructor |].
    destruct (Ascii.eqb_spec c backslash) as [-> | Hb].
    + destruct t as [| e t']; [discriminate H |].
      cbn [String.length] in Hn.
      destruct (Ascii.eqb e "b" || Ascii.eqb e "f" || Ascii.eqb e "n"
                || Ascii.eqb e "r" || Ascii.eqb e "t"
                || Ascii.eqb e backslash || Ascii.eqb e "/"
                || Ascii.eqb e dquote) eqn:Es.
      * apply cons_lit_inv in H. destruct H as (l1 & H & ->).
        apply cons_lit_inv in H. destruct H as (l2 & H & ->).
        apply Escaped_short; [exact Es |]. eapply IH; [| exact H]. lia.
      * destruct (Ascii.eqb_spec e "u") as [-> | _]; [| discriminate H].
        destruct t' as [| h1 [| h2 [| h3 [| h4 t'']]]]; try discriminate H.
        destruct (json.isHex h1 && json.isHex h2 && json.isHex h3
                  && json.isHex h4) eqn:Eh; [| discriminate H].
        repeat (apply cons_lit_inv in H; destruct H as (? & H & ->)).
        apply (Escaped_u h1 h2 h3 h4); [exact Eh |].
        eapply IH; [| exact H]. cbn [String.length] in Hn. lia.
    + destruct (bv c <? 32) eqn:Ec; [discriminate H |].
      apply cons_lit_inv in H. destruct H as (l1 & H & ->).
      apply Escaped_plain.
      * unfold plain. rewrite Eq, Ec.
        destruct (Ascii.eqb_spec c backslash); [contradiction | reflexivity].
      * eapply IH; [| exact H]. lia.
Qed.

Lemma hexval_range (h : byte) : json.isHex h = true -> 0 <= json.hexval h < 16.
Proof.
  unfold json.isHex, json.hexval, json.isDigit. intros H.
  pose proof (bv_range h).
  destruct ((48 <=? bv h) && (bv h <=? 57)) eqn:E1; [lia |].
  destruct ((97 <=? bv h) && (bv h <=? 102)) eqn:E2; [lia |].
  destruct ((65 <=? bv h) && (bv h <=? 70)) eqn:E3; [lia |].
  discriminate H.
Qed.

Lemma getu4_escape (h1 h2 h3 h4 : byte) (s : string) :
  json.isHex h1 && json.isHex h2 && json.isHex h3 && json.isHex h4 = true ->
  0 <= json.getu4 (escape_u h1 h2 h3 h4 ++ s).
Proof.
  intros H. unfold escape_u, str1. cbn [append json.getu4].
  change (Ascii.eqb backslash backslash) with true.
  cbn [Ascii.eqb Bool.eqb andb]. rewrite H.
  apply andb_true_iff in H. destruct H as [H H4].
  apply andb_true_iff in H. destruct H as [H H3].
  apply andb_true_iff in H. destruct H as [H1 H2].
  apply hexval_range in H1, H2, H3, H4. lia.
Qed.

(** A tail that starts with a [\u] escape is itself escaped after it. *)
Lemma Escaped_after_u (s : string) :
  Escaped s -> 0 <= json.getu4 s -> Escaped (drop 6 s).
Proof.
  intros He Hg. destruct He as [| c s Hc He | e s Hs He | h1 h2 h3 h4 s Hh He].
  - cbn in Hg. lia.
  - exfalso. unfold json.getu4 in Hg.
    destruct s as [| c1 [| a [| b [| c2 [| d s]]]]]; try (cbn in Hg; lia).
    destruct (Ascii.eqb_spec c backslash) as [-> | _];
      [discriminate Hc | cbn in Hg; lia].
  - exfalso. unfold json.getu4 in Hg.
    destruct s as [| a [| b [| c2 [| d s]]]]; try (cbn in Hg; lia).
    destruct (Ascii.eqb_spec e "u") as [-> | _]; [discriminate Hs |].
    rewrite andb_false_r in Hg. cbn in Hg. lia.
  - exact He.
Qed.

Lemma drop_length (n : nat) (s : string) :
  (String.length (drop n s) <= String.length s)%nat.
Proof.
  revert s. induction n as [| n IH]; intros s; [cbn; lia |].
  destruct s as [| c s]; cbn; [lia |]. specialize (IH s). lia.
Qed.

Lemma high_not_backslash (c : byte) : high c = true -> c <> backslash.
Proof. unfold high. intros H ->. cbn in H. lia. Qed.

(** Dropping leading bytes of a multi-byte rune keeps the text escaped. *)
Lemma Escaped_drop_high (p rest : string) :
  all_bytes high p = true -> Escaped (p ++ rest) -> Escaped rest.
Proof.
  induction p as [| c p IH]; intros Hp He; [exact He |].
  cbn [all_bytes] in Hp. apply andb_true_iff in Hp. destruct Hp as [Hc Hp].
  apply high_not_backslash in Hc.
  cbn [append] in He.
  inversion He; subst; first [contradiction | now apply IH].
Qed.

Lemma surrogate_pair_low (r1 r2 : Z) :
  negb (utf16.DecodeRune r1 r2 =? utf8.RuneError) = true -> 0 <= r2.
Proof.
  unfold utf16.DecodeRune, utf16.surr1, utf16.surr2, utf16.surr3.
  destruct ((55296 <=? r1) && (r1 <? 56320) && (56320 <=? r2)
            && (r2 <? 57344)) eqn:E.
  - intros _. apply andb_true_iff in E. destruct E as [E _].
    apply andb_true_iff in E. destruct E as [_ E]. lia.
  - rewrite Z.eqb_refl. discriminate.
Qed.

Lemma DecodeRune_size (c : byte) (s : string) :
  (1 <= snd (utf8.DecodeRune (String c s)))%nat.
Proof.
  unfold utf8.DecodeRune.
  repeat match goal with
         | |- context [match ?x with _ => _ end] => destruct x
         end; cbn; lia.
Qed.

Lemma drop6 (a b c d e f : byte) (s : string) :
  drop 6 (String a (String b (String c (String d (String e (String f s))))))
  = s.
Proof. reflexivity. Qed.

Lemma unquote_from_Escaped (n : nat) (raw : string) (fuel : nat) :
  (String.length raw <= n)%nat -> Escaped raw ->
  (String.length raw <= fuel)%nat ->
  exists u, json.unquote_from fuel raw = Some u.
Proof.
  revert raw fuel. induction n as [| n IH]; intros raw fuel Hn He Hf.
  - destruct raw; [| cbn in Hn; lia]. exists EmptyString. now destruct fuel.
  - pose proof He as He0.
    destruct He as [| c s Hc He | e s Hs He | h1 h2 h3 h4 s Hh He].
    + exists EmptyString. now destruct fuel.
    + cbn [String.length] in Hn, Hf. destruct fuel as [| f]; [lia |].
      unfold plain in Hc.
      apply andb_true_iff in Hc. destruct Hc as [Hc H3].
      apply andb_true_iff in Hc. destruct Hc as [H1 H2].
      apply negb_true_iff in H1, H2, H3.
      cbn [json.unquote_from]. rewrite H1, H2, H3. cbn [orb].
      destruct (bv c <? utf8.RuneSelf) eqn:E.
      * destruct (IH s f ltac:(lia) He ltac:(lia)) as (u & ->).
        cbn. eauto.
      * destruct (utf8.DecodeRune (String c s)) as [rr size] eqn:Ed.
        destruct ((rr =? utf8.RuneError) && (size =? 1)%nat) eqn:Ev.
        -- apply andb_true_iff in Ev. destruct Ev as [_ Ev].
           apply Nat.eqb_eq in Ev. subst size. cbn [drop].
           destruct (IH s f ltac:(lia) He ltac:(lia)) as (u & ->).
           cbn. eauto.
        -- destruct (DecodeRune_multibyte c s rr size Ed
                       ltac:(unfold utf8.RuneSelf in E; lia) Ev)
             as (p & rest & Hs & Hlen & _ & Hhigh & _).
           pose proof (DecodeRune_size c s) as Hsz. rewrite Ed in Hsz.
           cbn [snd] in Hsz.
           rewrite Hs in He0 |- *. subst size. rewrite drop_app.
           assert (Hl : String.length (String c s)
                        = (String.length p + String.length rest)%nat)
             by (rewrite Hs; apply length_append).
           cbn [String.length] in Hl.
           destruct (IH rest f ltac:(lia)
                       (Escaped_drop_high p rest Hhigh He0) ltac:(lia))
             as (u & ->).
           cbn. eauto.
    + cbn [String.length] in Hn, Hf. destruct fuel as [| f]; [lia |].
      destruct (IH s f ltac:(lia) He ltac:(lia)) as (u & Hu).
      cbn [json.unquote_from].
      change (Ascii.eqb backslash backslash) with true. cbv iota.
      unfold short_escape in Hs.
      destruct (Ascii.eqb e dquote || Ascii.eqb e backslash
                || Ascii.eqb e "/" || Ascii.eqb e "039") eqn:E0;
        [rewrite Hu; cbn; eauto |].
      destruct (Ascii.eqb e "b") eqn:Eb; [rewrite Hu; cbn; eauto |].
      destruct (Ascii.eqb e "f") eqn:Ef; [rewrite Hu; cbn; eauto |].
      destruct (Ascii.eqb e "n") eqn:En; [rewrite Hu; cbn; eauto |].
      destruct (Ascii.eqb e "r") eqn:Er; [rewrite Hu; cbn; eauto |].
      destruct (Ascii.eqb e "t") eqn:Et; [rewrite Hu; cbn; eauto |].
      exfalso. cbn [orb] in Hs.
      apply orb_false_elim in E0. destruct E0 as [E0 _].
      apply orb_false_elim in E0. destruct E0 as [E0 E3].
      apply orb_false_elim in E0. destruct E0 as [E1 E2].
      rewrite E1, E2, E3 in Hs. discriminate Hs.
    + pose proof (getu4_escape h1 h2 h3 h4 s Hh) as Hg.
      unfold escape_u, str1 in *. cbn [append String.length] in *.
      destruct fuel as [| f]; [lia |].
      destruct (IH s f ltac:(lia) He ltac:(lia)) as (u & Hu).
      cbn [json.unquote_from].
      change (Ascii.eqb backslash backslash) with true. cbv iota.
      change (Ascii.eqb "u" dquote || Ascii.eqb "u" backslash
              || Ascii.eqb "u" "/" || Ascii.eqb "u" "039") with false.
      cbv iota.
      change (Ascii.eqb "u" "b") with false.
      change (Ascii.eqb "u" "f") with false.
      change (Ascii.eqb "u" "n") with false.
      change (Ascii.eqb "u" "r") with false.
      change (Ascii.eqb "u" "t") with false.
      change (Ascii.eqb "u" "u") with true. cbv iota.
      match goal with
      | |- context [json.getu4 ?x <? 0] =>
        destruct (json.getu4 x <? 0) eqn:Eg; [lia |]
      end.
      rewrite !drop6.
      destruct (utf16.IsSurrogate _).
      * destruct (negb _) eqn:Ep.
        -- apply surrogate_pair_low in Ep.
           pose proof (drop_length 6 s) as Hd.
           destruct (IH (drop 6 s) f ltac:(lia)
                       (Escaped_after_u s He Ep) ltac:(lia)) as (u' & ->).
           cbn. eauto.
        -- rewrite Hu. cbn. eauto.
      * rewrite Hu. cbn. eauto.
Qed.

(** A literal the scanner accepts is always unquoted: [json.parse_string]
    fails only where the scanner does. *)
Theorem parse_string_total (s raw rest : string) :
  json.scan_string s = Some (raw, rest) ->
  exists u, json.parse_string s = Some (u, rest).
Proof.
  intros H. unfold json.parse_string, json.unquote. rewrite H.
  destruct (unquote_from_Escaped (String.length raw) raw (String.length raw)
              (le_n _)
              (scan_string_Escaped (String.length s) s raw rest (le_n _) H)
              (le_n _)) as (u & ->).
  eauto.
Qed.

(** ** The captioning call, case by case *)

Lemma existsb_false_filter {A : Type} (f : A -> bool) (l : list A) :
  existsb f l = false -> filter f l = [].
Proof.
  induction l as [| a l IH]; [reflexivity |].
  cbn. destruct (f a); [discriminate | exact IH].
Qed.


(** [process] never ends the program by [os.Exit]. *)
Lemma process_no_exit (W : World) (worker : Worker) (md : PhotoMetadata)
  (code : Z) :
  fst (process W worker md) <> Exit code.
Proof.
  unfold process, getPhoto, http_NewRequest.
  destruct W as [uP hG cD rB rP rR rH rPub rCh vE vI].
  destruct worker as [cl [[u k] rc]].
  destruct md as [cid purl cap surl pub pid].
  cbv -[Decode_CaptionApiResponse String.eqb String.append].
  repeat (split_leaf;
          cbv -[Decode_CaptionApiResponse String.eqb String.append]);
    discriminate.
Qed.

(** [process] always comes to an end. *)
Lemma process_not_blocked (W : World) (worker : Worker)
  (md : PhotoMetadata) :
  fst (process W worker md) <> Blocked.
Proof.
  unfold process, getPhoto, http_NewRequest.
  destruct W as [uP hG cD rB rP rR rH rPub rCh vE vI].
  destruct worker as [cl [[u k] rc]].
  destruct md as [cid purl cap surl pub pid].
  cbv -[Decode_CaptionApiResponse String.eqb String.append].
  repeat (split_leaf;
          cbv -[Decode_CaptionApiResponse String.eqb String.append]);
    discriminate.
Qed.

(** A photo URL that [url.Parse] rejects: the nil URL is read. *)
Lemma process_nil_url (W : World) (worker : Worker) (md : PhotoMetadata)
  (e : option error) :
  url_Parse W (PhotoUrl md) = (None, e) ->
  process W worker md = (Panic, []).
Proof.
  intros H. unfold process, getPhoto. rewrite H. reflexivity.
Qed.

Lemma getPhoto_parsed (W : World) (uri : string) (p : URL)
  (e1 e2 : option error) (resp : option Response) :
  url_Parse W uri = (Some p, e1) ->
  http_Get W uri = (resp, e2) ->
  getPhoto W uri = (Ret resp, getPhoto_trace uri p e1 e2).
Proof.
  intros H1 H2. unfold getPhoto, getPhoto_trace. rewrite H1, H2.
  cbn -[String.eqb].
  destruct (String.eqb (Host p) EmptyString), e1, e2; reflexivity.
Qed.

(** No response to the GET: the nil response is read. *)
Lemma process_nil_response (W : World) (worker : Worker)
  (md : PhotoMetadata) (p : URL) (e1 e2 : option error) :
  url_Parse W (PhotoUrl md) = (Some p, e1) ->
  http_Get W (PhotoUrl md) = (None, e2) ->
  process W worker md = (Panic, getPhoto_trace (PhotoUrl md) p e1 e2).
Proof.
  intros H1 H2. unfold process.
  rewrite (getPhoto_parsed W _ p e1 e2 None H1 H2).
  unfold getPhoto_trace.
  destruct (String.eqb (Host p) EmptyString), e1, e2; reflexivity.
Qed.

(** An API URL that [http.NewRequest] rejects: the nil request is read,
    after the image has been fetched. *)
Lemma process_nil_request (W : World) (worker : Worker)
  (md : PhotoMetadata) (p : URL) (e1 e2 : option error) (r : Response) :
  url_Parse W (PhotoUrl md) = (Some p, e1) ->
  http_Get W (PhotoUrl md) = (Some r, e2) ->
  (forall p', url_Parse W (url (captionApi (w_config worker)))
              <> (Some p', None)) ->
  process W worker md
  = (Panic,
     (getPhoto_trace (PhotoUrl md) p e1 e2
      ++ (if is_err (readErr (Body r))
          then [Log "[ERROR] Couldn't write image to field: %s"] else [])
      ++ [Close; Log "[ERROR] Couldn't create http request: %s"])%list).
Proof.
  intros H1 H2 H3. unfold process.
  rewrite (getPhoto_parsed W _ p e1 e2 (Some r) H1 H2).
  unfold getPhoto_trace, http_NewRequest, io_Copy.
  destruct (url_Parse W (url (captionApi (w_config worker))))
    as [[p' |] [e3 |]] eqn:H4.
  - destruct (String.eqb (Host p) EmptyString), e1, e2, r as [[data [re |]]];
      reflexivity.
  - exfalso. now apply (H3 p').
  - destruct (String.eqb (Host p) EmptyString), e1, e2, r as [[data [re |]]];
      reflexivity.
  - destruct (String.eqb (Host p) EmptyString), e1, e2, r as [[data [re |]]];
      reflexivity.
Qed.

(** The run of [process] when every call gives a value. *)
Lemma process_answered (W : World) (worker : Worker) (md : PhotoMetadata)
  (p p' : URL) (e1 e2 e4 : option error) (r rs : Response) :
  url_Parse W (PhotoUrl md) = (Some p, e1) ->
  http_Get W (PhotoUrl md) = (Some r, e2) ->
  url_Parse W (url (captionApi (w_config worker))) = (Some p', None) ->
  client_Do W (caption_request W worker (content (Body r))) = (Some rs, e4) ->
  process W worker md
  = (Ret (caption_result
            (fst (Decode_CaptionApiResponse (Body rs)
                    zero_CaptionApiResponse))),
     (fetch_trace W worker (PhotoUrl md) p e1 e2 r ++ reply_trace e4 rs)%list).
Proof.
  intros H1 H2 H3 H4.
  rewrite (process_unfold W worker md p p' e1 e2 r H1 H2 H3), H4.
  unfold reply_trace. rewrite bind_Ret.
  cbn -[Decode_CaptionApiResponse fetch_trace caption_result].
  destruct (Decode_CaptionApiResponse (Body rs) zero_CaptionApiResponse)
    as [cr [de |]]; destruct e4; reflexivity.
Qed.

(** ** What the captioning call does on the network *)

Lemma filter_network_getPhoto (uri : string) (p : URL)
  (e1 e2 : option error) :
  filter is_network (getPhoto_trace uri p e1 e2) = [HttpGet uri].
Proof.
  unfold getPhoto_trace.
  destruct (String.eqb (Host p) EmptyString || is_err e1), e2; reflexivity.
Qed.

Lemma filter_network_fetch (W : World) (worker : Worker) (uri : string)
  (p : URL) (e1 e2 : option error) (r : Response) :
  filter is_network (fetch_trace W worker uri p e1 e2 r)
  = [HttpGet uri; Close;
     HttpDo (caption_request W worker (content (Body r)))].
Proof.
  unfold fetch_trace.
  destruct (String.eqb (Host p) EmptyString || is_err e1), e2,
    (readErr (Body r)); reflexivity.
Qed.

Lemma filter_network_reply (e4 : option error) (rs : Response) :
  filter is_network (reply_trace e4 rs) = [Close].
Proof.
  unfold reply_trace.
  destruct e4,
    (snd (Decode_CaptionApiResponse (Body rs) zero_CaptionApiResponse));
    reflexivity.
Qed.

Lemma process_cases (W : World) (worker : Worker) (md : PhotoMetadata) :
  process_case W worker md.
Proof.
  destruct (url_Parse W (PhotoUrl md)) as [[p |] e1] eqn:H1;
    [| now apply (case_nil_url _ _ _ e1)].
  destruct (http_Get W (PhotoUrl md)) as [[r |] e2] eqn:H2;
    [| now apply (case_nil_response _ _ _ p e1 e2)].
  destruct (url_Parse W (url (captionApi (w_config worker))))
    as [[p' |] [e3 |]] eqn:H3;
    try (apply (case_nil_request _ _ _ p e1 e2 r); try assumption;
         intros q Hq; rewrite H3 in Hq; discriminate).
  destruct (client_Do W (caption_request W worker (content (Body r))))
    as [[rs |] e4] eqn:H4.
  - now apply (case_answered _ _ _ p p' e1 e2 e4 r rs).
  - now apply (case_nil_reply _ _ _ p p' e1 e2 e4 r).
Qed.

Lemma forallb_app_intro {A : Type} (f : A -> bool) (a b : list A) :
  forallb f a = true -> forallb f b = true -> forallb f (a ++ b) = true.
Proof. intros Ha Hb. rewrite forallb_app, Ha, Hb. reflexivity. Qed.

Lemma getPhoto_trace_kinds (uri : string) (p : URL) (e1 e2 : option error) :
  forallb (fun e => is_Log e || is_network e) (getPhoto_trace uri p e1 e2)
  = true.
Proof.
  unfold getPhoto_trace.
  destruct (String.eqb (Host p) EmptyString || is_err e1), e2; reflexivity.
Qed.

Lemma fetch_trace_kinds (W : World) (worker : Worker) (uri : string)
  (p : URL) (e1 e2 : option error) (r : Response) :
  forallb (fun e => is_Log e || is_network e)
    (fetch_trace W worker uri p e1 e2 r) = true.
Proof.
  unfold fetch_trace.
  destruct (String.eqb (Host p) EmptyString || is_err e1), e2,
    (readErr (Body r)); reflexivity.
Qed.

Lemma reply_trace_kinds (e4 : option error) (rs : Response) :
  forallb (fun e => is_Log e || is_network e) (reply_trace e4 rs) = true.
Proof.
  unfold reply_trace.
  destruct e4,
    (snd (Decode_CaptionApiResponse (Body rs) zero_CaptionApiResponse));
    reflexivity.
Qed.

(** X3.  A photo URL that [url.Parse] rejects makes [getPhoto] read the
    host of a nil URL: [getPhoto] and [process] panic before any request is
    sent, and the handler of a message with such a URL and no caption
    panics after its intake log. *)
Theorem X3_rejected_url_panics_before_fetch
  (W : World) (worker : Worker) (message : Message) (md : PhotoMetadata)
  (derr e : option error) :
  Unmarshal_PhotoMetadata (Payload message) zero_PhotoMetadata = (md, derr) ->
  Caption md = EmptyString ->
  url_Parse W (PhotoUrl md) = (None, e) ->
  getPhoto W (PhotoUrl md) = (Panic, [])
  /\ process W worker md = (Panic, [])
  /\ handleRedis W worker message = (Panic, intake_log derr).
Proof.
  intros HU Hcap Hurl.
  assert (Hp : process W worker md = (Panic, []))
    by exact (process_nil_url W worker md e Hurl).
  refine (conj _ (conj Hp _)).
  - unfold getPhoto. rewrite Hurl. reflexivity.
  - rewrite (handleRedis_unfold W worker message md derr HU), Hcap, Hp.
    cbn. rewrite app_nil_r. reflexivity.
Qed.

Lemma X3_witness :
  getPhoto strict_world bad_escape = (Panic, [])
  /\ process strict_world demo_worker recordBadUrl = (Panic, [])
  /\ handleRedis strict_world demo_worker (message_of payloadBadUrl)
     = (Panic, intake_log None).
Proof.
  apply (X3_rejected_url_panics_before_fetch strict_world demo_worker
           (message_of payloadBadUrl) recordBadUrl None
           (Some (externalError "invalid URL escape")));
    reflexivity.
Defined.


(** X5.  Every event of a run of [process] is a log line, a request or the
    closing of a response body: the call never touches the keyed store or
    the channel.  Its network events are the first ones of the sequence
    GET of the photo URL, close, POST, close. *)
Theorem X5_process_network_discipline
  (W : World) (worker : Worker) (md : PhotoMetadata) :
  forallb (fun e => is_Log e || is_network e) (snd (process W worker md))
  = true
  /\ exists rq n,
       filter is_network (snd (process W worker md))
       = firstn n [HttpGet (PhotoUrl md); Close; HttpDo rq; Close].
Proof.
  destruct (process_cases W worker md)
    as [e1 H1 | p e1 e2 H1 H2 | p e1 e2 r H1 H2 H3
        | p p' e1 e2 e4 r H1 H2 H3 H4 | p p' e1 e2 e4 r rs H1 H2 H3 H4].
  - rewrite (process_nil_url W worker md e1 H1).
    split; [reflexivity |].
    exists (caption_request W worker EmptyString), 0%nat. reflexivity.
  - rewrite (process_nil_response W worker md p e1 e2 H1 H2). cbn [snd].
    split; [apply getPhoto_trace_kinds |].
    exists (caption_request W worker EmptyString), 1%nat.
    apply filter_network_getPhoto.
  - rewrite (process_nil_request W worker md p e1 e2 r H1 H2 H3). cbn [snd].
    split.
    + apply forallb_app_intro; [apply getPhoto_trace_kinds |].
      destruct (readErr (Body r)); reflexivity.
    + exists (caption_request W worker EmptyString), 2%nat.
      rewrite filter_app, filter_network_getPhoto.
      destruct (readErr (Body r)); reflexivity.
  - rewrite (process_transport_failure W worker md p p' e1 e2 e4 r
               H1 H2 H3 H4).
    cbn [snd]. split.
    + apply forallb_app_intro; [apply fetch_trace_kinds |].
      destruct e4; reflexivity.
    + exists (caption_request W worker (content (Body r))), 3%nat.
      rewrite filter_app, filter_network_fetch.
      destruct e4; reflexivity.
  - rewrite (process_answered W worker md p p' e1 e2 e4 r rs H1 H2 H3 H4).
    cbn [snd]. split.
    + apply forallb_app_intro;
        [apply fetch_trace_kinds | apply reply_trace_kinds].
    + exists (caption_request W worker (content (Body r))), 4%nat.
      rewrite filter_app, filter_network_fetch, filter_network_reply.
      reflexivity.
Qed.

(** X6.  When [process] returns, it has sent exactly two requests and
    closed both response bodies, in this order: the GET of the photo URL,
    the closing of the image body, the POST of the form made of the bytes
    the GET gave, the closing of the reply. *)
Theorem X6_returning_process_network_trace
  (W : World) (worker : Worker) (md : PhotoMetadata)
  (res : string * option error) (tr : list Event) :
  process W worker md = (Ret res, tr) ->
  exists r e2,
    http_Get W (PhotoUrl md) = (Some r, e2)
    /\ filter is_network tr = network_trace W worker (PhotoUrl md) r.
Proof.
  intros Hp.
  destruct (process_cases W worker md)
    as [e1 H1 | p e1 e2 H1 H2 | p e1 e2 r H1 H2 H3
        | p p' e1 e2 e4 r H1 H2 H3 H4 | p p' e1 e2 e4 r rs H1 H2 H3 H4].
  - rewrite (process_nil_url W worker md e1 H1) in Hp. discriminate.
  - rewrite (process_nil_response W worker md p e1 e2 H1 H2) in Hp.
    discriminate.
  - rewrite (process_nil_request W worker md p e1 e2 r H1 H2 H3) in Hp.
    discriminate.
  - rewrite (process_transport_failure W worker md p p' e1 e2 e4 r
               H1 H2 H3 H4) in Hp.
    discriminate.
  - rewrite (process_answered W worker md p p' e1 e2 e4 r rs H1 H2 H3 H4)
      in Hp.
    exists r, e2. split; [exact H2 |].
    injection Hp as _ <-.
    rewrite filter_app, filter_network_fetch, filter_network_reply.
    reflexivity.
Qed.

Lemma X6_witness :
  exists r e2,
    http_Get (demo_world (Some (reply_of "a dog running" EmptyString)) None [])
      photo1 = (Some r, e2)
    /\ filter is_network
         (snd (process
                 (demo_world (Some (reply_of "a dog running" EmptyString))
                    None [])
                 demo_worker recordA))
       = network_trace
           (demo_world (Some (reply_of "a dog running" EmptyString)) None [])
           demo_worker photo1 r.
Proof.
  apply (X6_returning_process_network_trace
           (demo_world (Some (reply_of "a dog running" EmptyString)) None [])
           demo_worker recordA ("a dog running", None)).
  reflexivity.
Defined.

(** X7.  A read error in the body of the image does not stop [process]: it
    logs the error, closes the body and posts the bytes read so far. *)
Theorem X7_truncated_image_is_posted
  (W : World) (worker : Worker) (md : PhotoMetadata) (p p' : URL)
  (e1 e2 : option error) (r : Response) (e : error) :
  url_Parse W (PhotoUrl md) = (Some p, e1) ->
  http_Get W (PhotoUrl md) = (Some r, e2) ->
  readErr (Body r) = Some e ->
  url_Parse W (url (captionApi (w_config worker))) = (Some p', None) ->
  exists pre post,
    snd (process W worker md)
    = (pre ++ [Log "[ERROR] Couldn't write image to field: %s"; Close;
               HttpDo (caption_request W worker (content (Body r)))]
       ++ post)%list.
Proof.
  intros H1 H2 Hre H3.
  exists (getPhoto_trace (PhotoUrl md) p e1 e2).
  destruct (client_Do W (caption_request W worker (content (Body r))))
    as [[rs |] e4] eqn:H4.
  - exists (reply_trace e4 rs).
    rewrite (process_answered W worker md p p' e1 e2 e4 r rs H1 H2 H3 H4).
    cbn [snd]. unfold fetch_trace, getPhoto_trace. rewrite Hre.
    cbn [is_err].
    destruct (String.eqb (Host p) EmptyString || is_err e1), e2;
      reflexivity.
  - exists (if is_err e4
            then [Log "[ERROR] Couldn't make a request to caption api: %s"]
            else []).
    rewrite (process_transport_failure W worker md p p' e1 e2 e4 r
               H1 H2 H3 H4).
    cbn [snd]. unfold fetch_trace, getPhoto_trace. rewrite Hre.
    cbn [is_err].
    destruct (String.eqb (Host p) EmptyString || is_err e1), e2;
      reflexivity.
Qed.

Lemma X7_witness :
  exists pre post,
    snd (process (broken_body_world (Some (reply_of "a dog" EmptyString)))
           demo_worker recordA)
    = (pre ++ [Log "[ERROR] Couldn't write image to field: %s"; Close;
               HttpDo (caption_request
                         (broken_body_world
                            (Some (reply_of "a dog" EmptyString)))
                         demo_worker "JPEG")]
       ++ post)%list.
Proof.
  apply (X7_truncated_image_is_posted
           (broken_body_world (Some (reply_of "a dog" EmptyString)))
           demo_worker recordA {| Host := "img.example" |}
           {| Host := "api.deepai.org" |} None None
           {| Body := {| content := "JPEG";
                         readErr := Some (externalError "unexpected EOF") |} |}
           (externalError "unexpected EOF"));
    reflexivity.
Defined.

(** ** The handler, case by case *)

Lemma filter_write_intake (derr : option error) :
  filter is_write (intake_log derr) = [].
Proof. destruct derr; reflexivity. Qed.

Lemma filter_write_process (W : World) (worker : Worker)
  (md : PhotoMetadata) :
  filter is_write (snd (process W worker md)) = [].
Proof. apply existsb_false_filter, process_no_write. Qed.

Lemma filter_write_persist (W : World) (worker : Worker)
  (md : PhotoMetadata) (c : string) :
  filter is_write (persist_trace W worker md c)
  = [HSet (PhotoId md) "caption" c;
     Publish (channel (redisCfg (w_config worker)))
       (fst (Marshal_PhotoMetadata (set_Caption c md)))].
Proof.
  unfold persist_trace.
  destruct (is_err (snd (redis_HSet W (PhotoId md) "caption" c)));
    destruct (is_err (snd (redis_Publish W _ _))); reflexivity.
Qed.

(** A record with a caption: the handler stops at the gate. *)
Lemma handleRedis_gated (W : World) (worker : Worker) (message : Message)
  (md : PhotoMetadata) (derr : option error) :
  Unmarshal_PhotoMetadata (Payload message) zero_PhotoMetadata = (md, derr) ->
  Caption md <> EmptyString ->
  handleRedis W worker message = (Ret tt, intake_log derr).
Proof.
  intros HU Hcap.
  rewrite (handleRedis_unfold W worker message md derr HU).
  destruct (String.length (Caption md) =? 0)%nat eqn:E.
  - apply length_zero_iff in E. contradiction.
  - rewrite bind_Ret. cbn. now rewrite app_nil_r.
Qed.

(** A panic of [process] is a panic of the handler. *)
Lemma handleRedis_panic (W : World) (worker : Worker) (message : Message)
  (md : PhotoMetadata) (derr : option error) (tr : list Event) :
  Unmarshal_PhotoMetadata (Payload message) zero_PhotoMetadata = (md, derr) ->
  Caption md = EmptyString ->
  process W worker md = (Panic, tr) ->
  handleRedis W worker message = (Panic, (intake_log derr ++ tr)%list).
Proof.
  intros HU Hcap Hp.
  rewrite (handleRedis_unfold W worker message md derr HU), Hcap, Hp.
  reflexivity.
Qed.

(** An error of [process] ends the handler. *)
Lemma handleRedis_error (W : World) (worker : Worker) (message : Message)
  (md : PhotoMetadata) (derr : option error) (c : string) (e : error)
  (tr : list Event) :
  Unmarshal_PhotoMetadata (Payload message) zero_PhotoMetadata = (md, derr) ->
  Caption md = EmptyString ->
  process W worker md = (Ret (c, Some e), tr) ->
  handleRedis W worker message
  = (Ret tt,
     (intake_log derr ++ tr
      ++ [Log "[ERROR] Couldn't get caption from API: %s"])%list).
Proof.
  intros HU Hcap Hp.
  rewrite (handleRedis_unfold W worker message md derr HU), Hcap, Hp.
  reflexivity.
Qed.

(** The runs of the handler. *)
Lemma handleRedis_cases (W : World) (worker : Worker) (message : Message)
  (md : PhotoMetadata) (derr : option error) :
  Unmarshal_PhotoMetadata (Payload message) zero_PhotoMetadata = (md, derr) ->
  handler_case W worker message md derr.
Proof.
  intros HU.
  destruct (string_dec (Caption md) EmptyString) as [Hcap | Hcap].
  - destruct (process W worker md) as [[[c [e |]] | | code |] tr] eqn:Hp.
    + apply (case_error _ _ _ _ _ c e tr Hcap Hp).
      exact (handleRedis_error W worker message md derr c e tr HU Hcap Hp).
    + apply (case_enriched _ _ _ _ _ c tr Hcap Hp).
      exact (handleRedis_success W worker message md derr c tr HU Hcap Hp).
    + apply (case_panic _ _ _ _ _ tr Hcap Hp).
      exact (handleRedis_panic W worker message md derr tr HU Hcap Hp).
    + exfalso. apply (process_no_exit W worker md code).
      rewrite Hp. reflexivity.
    + exfalso. apply (process_not_blocked W worker md).
      rewrite Hp. reflexivity.
  - apply (case_gated _ _ _ _ _ Hcap).
    exact (handleRedis_gated W worker message md derr HU Hcap).
Qed.

(** What the handler writes, in every run. *)
Lemma handleRedis_writes (W : World) (worker : Worker) (message : Message)
  (md : PhotoMetadata) (derr : option error) :
  Unmarshal_PhotoMetadata (Payload message) zero_PhotoMetadata = (md, derr) ->
  filter is_write (snd (handleRedis W worker message)) = []
  \/ exists c,
       Caption md = EmptyString
       /\ fst (process W worker md) = Ret (c, None)
       /\ fst (handleRedis W worker message) = Ret tt
       /\ filter is_write (snd (handleRedis W worker message))
          = [HSet (PhotoId md) "caption" c;
             Publish (channel (redisCfg (w_config worker)))
               (fst (Marshal_PhotoMetadata (set_Caption c md)))].
Proof.
  intros HU.
  destruct (handleRedis_cases W worker message md derr HU)
    as [Hcap Hh | tr Hcap Hp Hh | c e tr Hcap Hp Hh | c tr Hcap Hp Hh];
    rewrite Hh; cbn [fst snd].
  - left. apply filter_write_intake.
  - left. rewrite filter_app, filter_write_intake.
    pose proof (filter_write_process W worker md) as F.
    rewrite Hp in F. exact F.
  - left. rewrite !filter_app, filter_write_intake.
    pose proof (filter_write_process W worker md) as F.
    rewrite Hp in F. cbn [snd] in F. rewrite F. reflexivity.
  - right. exists c. rewrite Hp.
    refine (conj Hcap (conj eq_refl (conj eq_refl _))).
    rewrite !filter_app, filter_write_intake, filter_write_persist.
    pose proof (filter_write_process W worker md) as F.
    rewrite Hp in F. cbn [snd] in F. rewrite F. reflexivity.
Qed.

(** ** What the handler writes, and what comes back on the channel *)

Lemma set_Caption_same (md : PhotoMetadata) :
  set_Caption (Caption md) md = md.
Proof. destruct md. reflexivity. Qed.

Lemma decoded_wf (data : string) (md : PhotoMetadata) (derr : option error) :
  Unmarshal_PhotoMetadata data zero_PhotoMetadata = (md, derr) ->
  wf_PhotoMetadata md.
Proof.
  intros HU.
  pose proof (Unmarshal_wf data zero_PhotoMetadata wf_zero) as H.
  now rewrite HU in H.
Qed.

Lemma In_persist_HSet (W : World) (worker : Worker) (md : PhotoMetadata)
  (c : string) :
  In (HSet (PhotoId md) "caption" c) (persist_trace W worker md c).
Proof. unfold persist_trace. apply in_or_app. left. left. reflexivity. Qed.

Lemma In_persist_Publish (W : World) (worker : Worker) (md : PhotoMetadata)
  (c : string) :
  In (Publish (channel (redisCfg (w_config worker)))
        (fst (Marshal_PhotoMetadata (set_Caption c md))))
     (persist_trace W worker md c).
Proof.
  unfold persist_trace.
  apply in_or_app. right. apply in_or_app. right.
  apply in_or_app. left. left. reflexivity.
Qed.

(** X8.  In every run the handler writes nothing, or writes exactly twice:
    the caption under the photo id of the decoded record, in the field
    caption, then the encoding of the record with this caption on the
    channel of the configuration; in that case it returns. *)
Theorem X8_handler_writes_once
  (W : World) (worker : Worker) (message : Message) :
  filter is_write (snd (handleRedis W worker message)) = []
  \/ exists c,
       fst (handleRedis W worker message) = Ret tt
       /\ filter is_write (snd (handleRedis W worker message))
          = [HSet
               (PhotoId (fst (Unmarshal_PhotoMetadata (Payload message)
                                zero_PhotoMetadata)))
               "caption" c;
             Publish (channel (redisCfg (w_config worker)))
               (fst (Marshal_PhotoMetadata
                       (set_Caption c
                          (fst (Unmarshal_PhotoMetadata (Payload message)
                                  zero_PhotoMetadata)))))].
Proof.
  destruct (Unmarshal_PhotoMetadata (Payload message) zero_PhotoMetadata)
    as [md derr] eqn:HU.
  destruct (handleRedis_writes W worker message md derr HU)
    as [H | (c & _ & _ & Hr & Hw)].
  - left. exact H.
  - right. exists c. split; assumption.
Qed.


(** X10.  Whatever the handler publishes goes to the channel of the
    configuration, decodes without error, and was first written to the
    keyed store: the decoded record's caption under its photo id. *)
Theorem X10_published_record_was_stored
  (W : World) (worker : Worker) (message : Message) (ch payload : string) :
  In (Publish ch payload) (snd (handleRedis W worker message)) ->
  ch = channel (redisCfg (w_config worker))
  /\ exists md',
       Unmarshal_PhotoMetadata payload zero_PhotoMetadata = (md', None)
       /\ In (HSet (PhotoId md') "caption" (Caption md'))
             (snd (handleRedis W worker message)).
Proof.
  intros Hin.
  destruct (Unmarshal_PhotoMetadata (Payload message) zero_PhotoMetadata)
    as [md derr] eqn:HU.
  assert (Hf : In (Publish ch payload)
                 (filter is_write (snd (handleRedis W worker message))))
    by (apply filter_In; split; [exact Hin | reflexivity]).
  destruct (handleRedis_writes W worker message md derr HU)
    as [H | (c & Hcap & Hp & _ & Hw)].
  - rewrite H in Hf. destruct Hf.
  - rewrite Hw in Hf.
    destruct Hf as [Hf | [Hf | []]]; [discriminate Hf |].
    injection Hf as <- <-. split; [reflexivity |].
    exists (set_Caption c md). split.
    + destruct (process W worker md) as [o tr] eqn:Hpr.
      cbn [fst] in Hp. subst o.
      exact (republished_decodes W worker message md derr c tr HU Hpr).
    + assert (Hs : In (HSet (PhotoId md) "caption" c)
                     (filter is_write (snd (handleRedis W worker message))))
        by (rewrite Hw; left; reflexivity).
      apply filter_In in Hs. exact (proj1 Hs).
Qed.

Lemma X10_witness :
  "queue" = channel (redisCfg (w_config demo_worker))
  /\ exists md',
       Unmarshal_PhotoMetadata
         (fst (Marshal_PhotoMetadata (set_Caption "a dog running" recordA)))
         zero_PhotoMetadata = (md', None)
       /\ In (HSet (PhotoId md') "caption" (Caption md'))
             (snd (handleRedis
                     (demo_world (Some (reply_of "a dog running" EmptyString))
                        None [])
                     demo_worker (message_of payloadA))).
Proof.
  apply (X10_published_record_was_stored
           (demo_world (Some (reply_of "a dog running" EmptyString)) None [])
           demo_worker (message_of payloadA)).
  vm_compute. do 7 right. left. reflexivity.
Defined.

(** X11.  A record published with a caption that is not empty is dropped
    when it comes back on the channel: whatever the world is then, the
    handler decodes it without error and stops at the gate, with two log
    lines and nothing else. *)
Theorem X11_enriched_message_is_dropped_on_reentry
  (W : World) (worker : Worker) (message : Message) (md : PhotoMetadata)
  (derr : option error) (c : string) (tr : list Event)
  (W' : World) (worker' : Worker) :
  Unmarshal_PhotoMetadata (Payload message) zero_PhotoMetadata = (md, derr) ->
  Caption md = EmptyString ->
  process W worker md = (Ret (c, None), tr) ->
  c <> EmptyString ->
  In (Publish (channel (redisCfg (w_config worker)))
        (fst (Marshal_PhotoMetadata (set_Caption c md))))
     (snd (handleRedis W worker message))
  /\ handleRedis W' worker'
       (republished (channel (redisCfg (w_config worker)))
          (fst (Marshal_PhotoMetadata (set_Caption c md))))
     = (Ret tt, intake_log None).
Proof.
  intros HU Hcap Hp Hc. split.
  - rewrite (handleRedis_success W worker message md derr c tr HU Hcap Hp).
    cbn [snd]. apply in_or_app. right. apply in_or_app. right.
    apply In_persist_Publish.
  - apply (handleRedis_gated W' worker' _ (set_Caption c md) None).
    + exact (republished_decodes W worker message md derr c tr HU Hp).
    + exact Hc.
Qed.

Lemma X11_witness :
  In (Publish "queue"
        (fst (Marshal_PhotoMetadata (set_Caption "a dog running" recordA))))
     (snd (handleRedis
             (demo_world (Some (reply_of "a dog running" EmptyString)) None [])
             demo_worker (message_of payloadA)))
  /\ handleRedis (demo_world None None []) demo_worker
       (republished "queue"
          (fst (Marshal_PhotoMetadata (set_Caption "a dog running" recordA))))
     = (Ret tt, intake_log None).
Proof.
  apply (X11_enriched_message_is_dropped_on_reentry
           (demo_world (Some (reply_of "a dog running" EmptyString)) None [])
           demo_worker (message_of payloadA) recordA None "a dog running"
           (snd (process
                   (demo_world (Some (reply_of "a dog running" EmptyString))
                      None [])
                   demo_worker recordA))
           (demo_world None None []) demo_worker);
    [reflexivity | reflexivity | reflexivity | discriminate].
Defined.

(** X12.  When [process] returns an empty caption without error, the
    record is published with its caption still empty; handling the
    published message runs the captioning call again and publishes the
    same payload again, so the message feeds itself. *)
Theorem X12_empty_caption_feeds_back
  (W : World) (worker : Worker) (message : Message) (md : PhotoMetadata)
  (derr : option error) (tr : list Event) :
  Unmarshal_PhotoMetadata (Payload message) zero_PhotoMetadata = (md, derr) ->
  Caption md = EmptyString ->
  process W worker md = (Ret (EmptyString, None), tr) ->
  In (Publish (channel (redisCfg (w_config worker)))
        (fst (Marshal_PhotoMetadata md)))
     (snd (handleRedis W worker message))
  /\ handleRedis W worker
       (republished (channel (redisCfg (w_config worker)))
          (fst (Marshal_PhotoMetadata md)))
     = (Ret tt,
        (intake_log None ++ tr ++ persist_trace W worker md EmptyString)%list)
  /\ In (Publish (channel (redisCfg (w_config worker)))
           (fst (Marshal_PhotoMetadata md)))
        (persist_trace W worker md EmptyString).
Proof.
  intros HU Hcap Hp.
  assert (Hsame : set_Caption EmptyString md = md)
    by (rewrite <- Hcap; apply set_Caption_same).
  assert (Hpub : In (Publish (channel (redisCfg (w_config worker)))
                       (fst (Marshal_PhotoMetadata md)))
                    (persist_trace W worker md EmptyString)).
  { pose proof (In_persist_Publish W worker md EmptyString) as H.
    now rewrite Hsame in H. }
  refine (conj _ (conj _ Hpub)).
  - rewrite (handleRedis_success W worker message md derr EmptyString tr
               HU Hcap Hp).
    cbn [snd]. apply in_or_app. right. apply in_or_app. right. exact Hpub.
  - apply (handleRedis_success W worker _ md None EmptyString tr);
      [| exact Hcap | exact Hp].
    cbn [Payload republished].
    apply Unmarshal_Marshal. exact (decoded_wf _ md derr HU).
Qed.

Lemma X12_witness :
  In (Publish "queue" (fst (Marshal_PhotoMetadata recordA)))
     (snd (handleRedis
             (demo_world (Some (reply_of EmptyString EmptyString)) None [])
             demo_worker (message_of payloadA)))
  /\ handleRedis
       (demo_world (Some (reply_of EmptyString EmptyString)) None [])
       demo_worker
       (republished "queue" (fst (Marshal_PhotoMetadata recordA)))
     = (Ret tt,
        (intake_log None
         ++ snd (process
                   (demo_world (Some (reply_of EmptyString EmptyString))
                      None [])
                   demo_worker recordA)
         ++ persist_trace
              (demo_world (Some (reply_of EmptyString EmptyString)) None [])
              demo_worker recordA EmptyString)%list)
  /\ In (Publish "queue" (fst (Marshal_PhotoMetadata recordA)))
        (persist_trace
           (demo_world (Some (reply_of EmptyString EmptyString)) None [])
           demo_worker recordA EmptyString).
Proof.
  apply (X12_empty_caption_feeds_back
           (demo_world (Some (reply_of EmptyString EmptyString)) None [])
           demo_worker (message_of payloadA) recordA None
           (snd (process
                   (demo_world (Some (reply_of EmptyString EmptyString))
                      None [])
                   demo_worker recordA)));
    reflexivity.
Defined.

(** X13.  A reply of the API that is not JSON is not an error for
    [process]: the decoding error is logged, and the result is the empty
    caption with no error.  The handler then stores the empty caption and
    publishes the record as it came. *)
Theorem X13_unreadable_reply_is_a_success
  (W : World) (worker : Worker) (message : Message) (md : PhotoMetadata)
  (derr : option error) (p p' : URL) (e1 e2 e4 : option error)
  (r rs : Response) :
  Unmarshal_PhotoMetadata (Payload message) zero_PhotoMetadata = (md, derr) ->
  Caption md = EmptyString ->
  url_Parse W (PhotoUrl md) = (Some p, e1) ->
  http_Get W (PhotoUrl md) = (Some r, e2) ->
  url_Parse W (url (captionApi (w_config worker))) = (Some p', None) ->
  client_Do W (caption_request W worker (content (Body r))) = (Some rs, e4) ->
  json.parse_prefix (content (Body rs)) = None ->
  fst (process W worker md) = Ret (EmptyString, None)
  /\ In (Log "[ERROR] Couldn't read response from api: %s")
        (snd (process W worker md))
  /\ fst (handleRedis W worker message) = Ret tt
  /\ In (HSet (PhotoId md) "caption" EmptyString)
        (snd (handleRedis W worker message))
  /\ In (Publish (channel (redisCfg (w_config worker)))
           (fst (Marshal_PhotoMetadata md)))
        (snd (handleRedis W worker message)).
Proof.
  intros HU Hcap H1 H2 H3 H4 Hbad.
  assert (HD : Decode_CaptionApiResponse (Body rs) zero_CaptionApiResponse
               = (zero_CaptionApiResponse,
                  Some (match readErr (Body rs) with
                        | Some e => e
                        | None => SyntaxError
                        end))).
  { unfold Decode_CaptionApiResponse. rewrite Hbad. reflexivity. }
  pose proof (process_answered W worker md p p' e1 e2 e4 r rs H1 H2 H3 H4)
    as Hp.
  rewrite HD in Hp. cbn [fst] in Hp.
  change (caption_result zero_CaptionApiResponse)
    with (EmptyString, @None error) in Hp.
  assert (Hsame : set_Caption EmptyString md = md)
    by (rewrite <- Hcap; apply set_Caption_same).
  pose proof (handleRedis_success W worker message md derr EmptyString _
                HU Hcap Hp) as Hh.
  rewrite Hh, Hp. cbn [fst snd].
  refine (conj eq_refl (conj _ (conj eq_refl (conj _ _)))).
  - apply in_or_app. right. unfold reply_trace. rewrite HD. cbn [snd is_err].
    apply in_or_app. right. left. reflexivity.
  - apply in_or_app. right. apply in_or_app. right. apply In_persist_HSet.
  - apply in_or_app. right. apply in_or_app. right.
    pose proof (In_persist_Publish W worker md EmptyString) as H.
    now rewrite Hsame in H.
Qed.

Lemma X13_witness :
  fst (process (demo_world (Some "<html>Bad Gateway</html>") None [])
         demo_worker recordA) = Ret (EmptyString, None)
  /\ In (Log "[ERROR] Couldn't read response from api: %s")
        (snd (process (demo_world (Some "<html>Bad Gateway</html>") None [])
                demo_worker recordA))
  /\ fst (handleRedis (demo_world (Some "<html>Bad Gateway</html>") None [])
            demo_worker (message_of payloadA)) = Ret tt
  /\ In (HSet "p1" "caption" EmptyString)
        (snd (handleRedis
                (demo_world (Some "<html>Bad Gateway</html>") None [])
                demo_worker (message_of payloadA)))
  /\ In (Publish "queue" (fst (Marshal_PhotoMetadata recordA)))
        (snd (handleRedis
                (demo_world (Some "<html>Bad Gateway</html>") None [])
                demo_worker (message_of payloadA))).
Proof.
  apply (X13_unreadable_reply_is_a_success
           (demo_world (Some "<html>Bad Gateway</html>") None [])
           demo_worker (message_of payloadA) recordA None
           {| Host := "img.example" |} {| Host := "api.deepai.org" |}
           None None None
           {| Body := {| content := "JPEG"; readErr := None |} |}
           {| Body := {| content := "<html>Bad Gateway</html>";
                         readErr := None |} |});
    reflexivity.
Defined.

(** ** The subscription loop *)

Lemma handleRedis_returns_or_panics (W : World) (worker : Worker)
  (message : Message) :
  fst (handleRedis W worker message) = Ret tt
  \/ fst (handleRedis W worker message) = Panic.
Proof.
  destruct (Unmarshal_PhotoMetadata (Payload message) zero_PhotoMetadata)
    as [md derr] eqn:HU.
  destruct (handleRedis_cases W worker message md derr HU)
    as [Hcap Hh | tr Hcap Hp Hh | c e tr Hcap Hp Hh | c tr Hcap Hp Hh];
    rewrite Hh; auto.
Qed.

(** The loop starts a goroutine for each message, up to the first whose
    handler panics; it ends with that panic, or waits for ever. *)
Lemma dispatch_run (W : World) (worker : Worker) (ch : list Message) :
  dispatch W worker ch
  = (loop_end W worker ch, map (spawned W worker) (handled W worker ch)).
Proof.
  induction ch as [| m ch IH]; [reflexivity |].
  cbn [dispatch handled map]. unfold loop_end. cbn [forallb].
  unfold go, spawned.
  destruct (handleRedis_returns_or_panics W worker m) as [H | H];
    rewrite H; cbn [goes_on andb].
  - rewrite bind_Ret, IH. reflexivity.
  - reflexivity.
Qed.


Lemma setupRedis_run (W : World) (worker : Worker) :
  setupRedis W worker
  = (loop_end W worker (redis_Channel W),
     (subscribe_trace W worker
      ++ map (spawned W worker) (handled W worker (redis_Channel W)))%list).
Proof.
  unfold setupRedis, subscribe_trace. rewrite dispatch_run.
  unfold loop_end.
  destruct (redis_Ping W) as [pong [e |]];
    destruct (redis_ReceiveTimeout W);
    destruct (forallb _ (redis_Channel W)); reflexivity.
Qed.

Lemma NewWorker_with_key (W : World) :
  key (captionApi (config W)) <> EmptyString ->
  NewWorker W
  = (loop_end W (worker_of W) (redis_Channel W),
     (subscribe_trace W (worker_of W)
      ++ map (spawned W (worker_of W))
           (handled W (worker_of W) (redis_Channel W)))%list).
Proof.
  intros Hkey. unfold NewWorker.
  destruct (String.length (key (captionApi (config W))) =? 0)%nat eqn:E.
  - apply length_zero_iff in E. contradiction.
  - fold (worker_of W). rewrite setupRedis_run.
    unfold loop_end.
    destruct (forallb _ (redis_Channel W)); reflexivity.
Qed.

Lemma main_with_key (W : World) :
  key (captionApi (config W)) <> EmptyString ->
  main W
  = (loop_end W (worker_of W) (redis_Channel W),
     (subscribe_trace W (worker_of W)
      ++ map (spawned W (worker_of W))
           (handled W (worker_of W) (redis_Channel W)))%list).
Proof.
  intros Hkey. unfold main. rewrite (NewWorker_with_key W Hkey).
  unfold loop_end.
  destruct (forallb _ (redis_Channel W)); reflexivity.
Qed.

Lemma main_without_key (W : World) :
  key (captionApi (config W)) = EmptyString ->
  main W
  = (Exit 1,
     [Log "[FATAL] Couldn't create worker due to laking caption api key"]).
Proof.
  intros Hkey. unfold main. rewrite (NewWorker_without_key W Hkey).
  reflexivity.
Qed.



(** ** Start-up *)

Lemma In_subscribe_trace (W : World) (worker : Worker) :
  In (Subscribe (channel (redisCfg (w_config worker))))
     (subscribe_trace W worker).
Proof.
  unfold subscribe_trace. apply in_or_app. left.
  right. right. left. reflexivity.
Qed.

Lemma Go_not_in_subscribe_trace (W : World) (worker : Worker)
  (o : Outcome unit) (tr : list Event) :
  ~ In (Go o tr) (subscribe_trace W worker).
Proof.
  unfold subscribe_trace. intros H.
  apply in_app_or in H. destruct H as [H | H].
  - destruct H as [H | [H | [H | [H | []]]]]; try discriminate H.
    destruct (is_err (snd (redis_Ping W))); discriminate H.
  - apply in_app_or in H. destruct H as [H | [H | []]]; [| discriminate H].
    destruct (is_err (redis_ReceiveTimeout W)); [| destruct H].
    destruct H as [H | []]. discriminate H.
Qed.

(** X1.  When the variable of the API key is not set, the configuration
    has an empty key: [NewWorker], and so [main], logs the fatal line and
    exits with status 1, before any ping or subscription. *)
Theorem X1_missing_key_is_fatal (W : World) :
  viper_env W envWorkerCaptionApiKey = None ->
  NewWorker W
  = (Exit 1,
     [Log "[FATAL] Couldn't create worker due to laking caption api key"])
  /\ main W
     = (Exit 1,
        [Log "[FATAL] Couldn't create worker due to laking caption api key"]).
Proof.
  intros Henv.
  assert (Hkey : key (captionApi (config W)) = EmptyString).
  { cbn [config captionApi key]. unfold viper_GetString.
    rewrite Henv. reflexivity. }
  split; [apply NewWorker_without_key | apply main_without_key]; exact Hkey.
Qed.

Lemma X1_witness :
  NewWorker keyless_world
  = (Exit 1,
     [Log "[FATAL] Couldn't create worker due to laking caption api key"])
  /\ main keyless_world
     = (Exit 1,
        [Log "[FATAL] Couldn't create worker due to laking caption api key"]).
Proof. apply (X1_missing_key_is_fatal keyless_world). reflexivity. Defined.

(** X2.  The channel the worker publishes to is the channel it listens
    to: whenever a goroutine started by [main] publishes, [main] has
    subscribed to that very channel. *)
Theorem X2_publishes_to_the_subscribed_channel
  (W : World) (o : Outcome unit) (tr : list Event) (ch payload : string) :
  In (Go o tr) (snd (main W)) ->
  In (Publish ch payload) tr ->
  In (Subscribe ch) (snd (main W)).
Proof.
  intros HGo HPub.
  destruct (string_dec (key (captionApi (config W))) EmptyString)
    as [Hkey | Hkey].
  - rewrite (main_without_key W Hkey) in HGo.
    destruct HGo as [H | []]. discriminate H.
  - rewrite (main_with_key W Hkey) in HGo |- *. cbn [snd] in HGo |- *.
    apply in_app_or in HGo. destruct HGo as [HGo | HGo].
    + exfalso. exact (Go_not_in_subscribe_trace _ _ _ _ HGo).
    + apply in_map_iff in HGo. destruct HGo as (message & Hsp & _).
      unfold spawned in Hsp. injection Hsp as _ <-.
      destruct (Unmarshal_PhotoMetadata (Payload message) zero_PhotoMetadata)
        as [md derr] eqn:HU.
      assert (Hf : In (Publish ch payload)
                     (filter is_write
                        (snd (handleRedis W (worker_of W) message))))
        by (apply filter_In; split; [exact HPub | reflexivity]).
      destruct (handleRedis_writes W (worker_of W) message md derr HU)
        as [H | (c & _ & _ & _ & Hw)].
      * rewrite H in Hf. destruct Hf.
      * rewrite Hw in Hf.
        destruct Hf as [Hf | [Hf | []]]; [discriminate Hf |].
        injection Hf as Hch _. rewrite <- Hch.
        apply in_or_app. left.
        exact (In_subscribe_trace W (worker_of W)).
Qed.

Lemma X2_witness :
  In (Subscribe "queue")
     (snd (main (demo_world (Some (reply_of "a dog running" EmptyString))
                   None [message_of payloadA]))).
Proof.
  apply (X2_publishes_to_the_subscribed_channel
           (demo_world (Some (reply_of "a dog running" EmptyString))
              None [message_of payloadA])
           (Ret tt)
           (snd (handleRedis
                   (demo_world (Some (reply_of "a dog running" EmptyString))
                      None [message_of payloadA])
                   demo_worker (message_of payloadA)))
           "queue"
           (fst (Marshal_PhotoMetadata (set_Caption "a dog running" recordA)))).
  - vm_compute. do 5 right. left. reflexivity.
  - vm_compute. do 7 right. left. reflexivity.
Defined.

(** ** The wire format, for every record *)

(** An encoded string is read back as a valid string, the same one when it
    was valid. *)
Lemma parse_string_encode_any (s x : string) :
  exists u,
    json.parse_string
      (json.encode_bytes (String.length s) s ++ String dquote x)
    = Some (u, x)
    /\ utf8.ValidString u = true
    /\ (utf8.ValidString s = true -> u = s).
Proof.
  destruct (parse_string_total _ _ _
              (scan_string_encode (String.length s) s x)) as (u & Hu).
  exists u. refine (conj Hu (conj _ _)).
  - exact (parse_string_Valid _ _ _ Hu).
  - intros Hv. rewrite (parse_string_encode s x Hv) in Hu.
    now injection Hu as <-.
Qed.

Lemma parse_value_encodeString_any (f : nat) (s x : string) :
  exists u,
    json.parse_value (S f) (json.encodeString s ++ x)
    = Some (json.Str u, x)
    /\ utf8.ValidString u = true
    /\ (utf8.ValidString s = true -> u = s).
Proof.
  destruct (parse_string_encode_any s x) as (u & Hu & Hv & Hs).
  exists u. refine (conj _ (conj Hv Hs)).
  unfold json.encodeString. cbn [append].
  rewrite append_assoc. cbn [append str1].
  change (json.parse_value (S f)
            (String dquote
               (json.encode_bytes (String.length s) s ++ String dquote x)))
    with (match json.parse_string
                  (json.encode_bytes (String.length s) s ++ String dquote x)
          with
          | Some (u, rest) => Some (json.Str u, rest)
          | None => None
          end).
  rewrite Hu. reflexivity.
Qed.

(** The encoding of any record with an int64 chatId is read as the members
    of a well-formed record. *)
Lemma parse_value_Marshal_any (m : PhotoMetadata) :
  int64 (ChatId m) ->
  exists u1 u2 u3 u4,
    json.parse_value 7 (fst (Marshal_PhotoMetadata m))
    = Some (json.Object
              (members_of
                 {| ChatId := ChatId m; PhotoUrl := u1; Caption := u2;
                    StyledUrl := u3; Published := Published m;
                    PhotoId := u4 |}),
            EmptyString)
    /\ (utf8.ValidString u1 = true
        /\ (utf8.ValidString (PhotoUrl m) = true -> u1 = PhotoUrl m))
    /\ (utf8.ValidString u2 = true
        /\ (utf8.ValidString (Caption m) = true -> u2 = Caption m))
    /\ (utf8.ValidString u3 = true
        /\ (utf8.ValidString (StyledUrl m) = true -> u3 = StyledUrl m))
    /\ (utf8.ValidString u4 = true
        /\ (utf8.ValidString (PhotoId m) = true -> u4 = PhotoId m)).
Proof.
  intros Hid.
  unfold Marshal_PhotoMetadata, members_of.
  cbn [fst append ChatId PhotoUrl Caption StyledUrl Published PhotoId].
  rewrite parse_value_S, value_step_chat_id. unfold member_then.
  rewrite parse_value_FormatInt by assumption.
  rewrite parse_members_S, members_step_photo_url. unfold member_then.
  match goal with
  | |- context [json.parse_value 5 (json.encodeString ?s ++ ?x)] =>
    destruct (parse_value_encodeString_any 4 s x) as (u1 & -> & H1)
  end.
  rewrite parse_members_S, members_step_caption. unfold member_then.
  match goal with
  | |- context [json.parse_value 4 (json.encodeString ?s ++ ?x)] =>
    destruct (parse_value_encodeString_any 3 s x) as (u2 & -> & H2)
  end.
  rewrite parse_members_S, members_step_styled_url. unfold member_then.
  match goal with
  | |- context [json.parse_value 3 (json.encodeString ?s ++ ?x)] =>
    destruct (parse_value_encodeString_any 2 s x) as (u3 & -> & H3)
  end.
  rewrite parse_members_S, members_step_published. unfold member_then.
  rewrite parse_value_encodeBool.
  rewrite parse_members_S, members_step_photo_id. unfold member_then.
  match goal with
  | |- context [json.parse_value 1 (json.encodeString ?s ++ ?x)] =>
    destruct (parse_value_encodeString_any 0 s x) as (u4 & -> & H4)
  end.
  rewrite parse_members_S, members_step_end.
  exists u1, u2, u3, u4. repeat split; tauto.
Qed.

(** X14.  Whatever the payload, the record [json.Unmarshal] leaves in a
    zero record has a chatId in the range of an int64 and string fields
    that are valid UTF-8; encoding it and decoding the result gives it
    back, with no error. *)
Theorem X14_decoded_record_survives_roundtrip (data : string) :
  wf_PhotoMetadata (fst (Unmarshal_PhotoMetadata data zero_PhotoMetadata))
  /\ Unmarshal_PhotoMetadata
       (fst (Marshal_PhotoMetadata
               (fst (Unmarshal_PhotoMetadata data zero_PhotoMetadata))))
       zero_PhotoMetadata
     = (fst (Unmarshal_PhotoMetadata data zero_PhotoMetadata), None).
Proof.
  assert (Hwf : wf_PhotoMetadata
                  (fst (Unmarshal_PhotoMetadata data zero_PhotoMetadata)))
    by exact (Unmarshal_wf data zero_PhotoMetadata wf_zero).
  split; [exact Hwf | exact (Unmarshal_Marshal _ Hwf)].
Qed.

(** X15.  For every record whose chatId is an int64, whatever bytes its
    strings hold, decoding its encoding succeeds and gives a well-formed
    record: chatId and published are kept, each string field that was
    valid UTF-8 is kept, and the record obtained is a fixed point of the
    round trip. *)
Theorem X15_roundtrip_normalises (m : PhotoMetadata) :
  int64 (ChatId m) ->
  exists m',
    Unmarshal_PhotoMetadata (fst (Marshal_PhotoMetadata m)) zero_PhotoMetadata
    = (m', None)
    /\ wf_PhotoMetadata m'
    /\ ChatId m' = ChatId m
    /\ Published m' = Published m
    /\ (utf8.ValidString (PhotoUrl m) = true -> PhotoUrl m' = PhotoUrl m)
    /\ (utf8.ValidString (Caption m) = true -> Caption m' = Caption m)
    /\ (utf8.ValidString (StyledUrl m) = true -> StyledUrl m' = StyledUrl m)
    /\ (utf8.ValidString (PhotoId m) = true -> PhotoId m' = PhotoId m)
    /\ Unmarshal_PhotoMetadata (fst (Marshal_PhotoMetadata m'))
         zero_PhotoMetadata
       = (m', None).
Proof.
  intros Hid.
  destruct (parse_value_Marshal_any m Hid)
    as (u1 & u2 & u3 & u4 & Hp & [V1 E1] & [V2 E2] & [V3 E3] & [V4 E4]).
  set (m' := {| ChatId := ChatId m; PhotoUrl := u1; Caption := u2;
                StyledUrl := u3; Published := Published m;
                PhotoId := u4 |}) in *.
  assert (Hwf : wf_PhotoMetadata m')
    by (unfold wf_PhotoMetadata; cbn; tauto).
  exists m'.
  refine (conj _ (conj Hwf (conj eq_refl (conj eq_refl
            (conj E1 (conj E2 (conj E3 (conj E4 _)))))))).
  - unfold Unmarshal_PhotoMetadata, json.parse, json.parse_prefix.
    rewrite (parse_value_fuel 7 _ _ _ (Marshal_length m) Hp).
    cbn [json.skip_space].
    apply decode_members_of. exact Hid.
  - exact (Unmarshal_Marshal m' Hwf).
Qed.

Lemma X15_witness :
  exists m',
    Unmarshal_PhotoMetadata (fst (Marshal_PhotoMetadata recordBad))
      zero_PhotoMetadata
    = (m', None)
    /\ wf_PhotoMetadata m'
    /\ ChatId m' = ChatId recordBad
    /\ Published m' = Published recordBad
    /\ (utf8.ValidString (PhotoUrl recordBad) = true ->
        PhotoUrl m' = PhotoUrl recordBad)
    /\ (utf8.ValidString (Caption recordBad) = true ->
        Caption m' = Caption recordBad)
    /\ (utf8.ValidString (StyledUrl recordBad) = true ->
        StyledUrl m' = StyledUrl recordBad)
    /\ (utf8.ValidString (PhotoId recordBad) = true ->
        PhotoId m' = PhotoId recordBad)
    /\ Unmarshal_PhotoMetadata (fst (Marshal_PhotoMetadata m'))
         zero_PhotoMetadata
       = (m', None).
Proof.
  apply (X15_roundtrip_normalises recordBad).
  unfold int64. cbn [ChatId recordBad]. lia.
Defined.

(** ** The bytes of a published payload *)

Lemma safe_encode_ascii (c : byte) :
  all_bytes safe (json.encode_ascii c) = true.
Proof.
  destruct c as [[] [] [] [] [] [] [] []]; vm_compute; reflexivity.
Qed.

Lemma safe_hex (n : Z) : safe (json.hex n) = true.
Proof.
  unfold json.hex. generalize (Z.to_nat n) as k. intros k.
  do 16 (destruct k as [| k]; [reflexivity |]).
  reflexivity.
Qed.

Lemma high_safe (c : byte) : high c = true -> safe c = true.
Proof.
  destruct c as [[] [] [] [] [] [] [] []]; vm_compute;
    intros H; try reflexivity; discriminate H.
Qed.

Lemma all_high_safe (p : string) :
  all_bytes high p = true -> all_bytes safe p = true.
Proof.
  induction p as [| c p IH]; [reflexivity |].
  cbn [all_bytes]. intros H. apply andb_true_iff in H. destruct H as [Hc Hp].
  now rewrite (high_safe c Hc), IH.
Qed.

Lemma digit_safe (c : byte) : json.isDigit c = true -> safe c = true.
Proof.
  destruct c as [[] [] [] [] [] [] [] []]; vm_compute;
    intros H; try reflexivity; discriminate H.
Qed.

Lemma all_digit_safe (p : string) :
  all_bytes json.isDigit p = true -> all_bytes safe p = true.
Proof.
  induction p as [| c p IH]; [reflexivity |].
  cbn [all_bytes]. intros H. apply andb_true_iff in H. destruct H as [Hc Hp].
  now rewrite (digit_safe c Hc), IH.
Qed.

Lemma safe_encode_bytes (n : nat) (s : string) :
  all_bytes safe (json.encode_bytes n s) = true.
Proof.
  revert s. induction n as [| n IH]; intros s; [reflexivity |].
  destruct s as [| c t]; [reflexivity |].
  cbn [json.encode_bytes].
  destruct (bv c <? utf8.RuneSelf) eqn:Ec.
  - now rewrite all_bytes_app, safe_encode_ascii, IH.
  - destruct (utf8.DecodeRune (String c t)) as [r size] eqn:Hd.
    destruct ((r =? utf8.RuneError) && (size =? 1)%nat) eqn:Hbad.
    + now rewrite all_bytes_app, IH.
    + destruct ((r =? 0x2028) || (r =? 0x2029)).
      * rewrite !all_bytes_app, IH. cbn [all_bytes str1].
        now rewrite safe_hex.
      * rewrite all_bytes_app, IH, andb_true_r.
        unfold utf8.RuneSelf in Ec.
        destruct (DecodeRune_multibyte c t r size Hd ltac:(lia) Hbad)
          as (p & rest & Hs & Hlen & _ & Hhigh & _).
        rewrite Hs, <- Hlen, take_app. now apply all_high_safe.
Qed.

Lemma safe_encodeString (s : string) :
  all_bytes safe (json.encodeString s) = true.
Proof.
  unfold json.encodeString. cbn [all_bytes].
  now rewrite all_bytes_app, safe_encode_bytes.
Qed.

Lemma formatBits_digits_any (f : nat) (u : Z) :
  all_bytes json.isDigit (strconv.formatBits f u EmptyString) = true.
Proof.
  assert (G : forall f u acc,
             all_bytes json.isDigit acc = true ->
             all_bytes json.isDigit (strconv.formatBits f u acc) = true).
  { clear. induction f as [| f IH]; intros u acc Hacc; [exact Hacc |].
    cbn [strconv.formatBits].
    assert (Hd : json.isDigit (strconv.digit (u mod 10)) = true).
    { pose proof (Z.mod_pos_bound u 10 ltac:(lia)) as Hm.
      assert (C : u mod 10 = 0 \/ u mod 10 = 1 \/ u mod 10 = 2
                  \/ u mod 10 = 3 \/ u mod 10 = 4 \/ u mod 10 = 5
                  \/ u mod 10 = 6 \/ u mod 10 = 7 \/ u mod 10 = 8
                  \/ u mod 10 = 9) by lia.
      repeat (destruct C as [-> | C]; [reflexivity |]).
      rewrite C. reflexivity. }
    destruct (u <? 10).
    - cbn [all_bytes]. now rewrite Hd, Hacc.
    - apply IH. cbn [all_bytes]. now rewrite Hd, Hacc. }
  apply G. reflexivity.
Qed.

Lemma safe_FormatInt (i : Z) : all_bytes safe (strconv.FormatInt i) = true.
Proof.
  unfold strconv.FormatInt. destruct (i <? 0).
  - cbn [all_bytes]. rewrite all_digit_safe by apply formatBits_digits_any.
    reflexivity.
  - apply all_digit_safe, formatBits_digits_any.
Qed.

(** X16.  The text [json.Marshal] gives for a record holds no control
    byte and none of the characters less-than, greater-than and ampersand,
    whatever the fields of the record hold. *)
Theorem X16_payload_has_no_unsafe_byte (m : PhotoMetadata) :
  all_bytes (fun c => negb (unsafe c)) (fst (Marshal_PhotoMetadata m)) = true.
Proof.
  change (all_bytes safe (fst (Marshal_PhotoMetadata m)) = true).
  unfold Marshal_PhotoMetadata. cbn [fst].
  rewrite !all_bytes_app, !safe_encodeString, safe_FormatInt.
  destruct (Published m); reflexivity.
Qed.


Lemma Valid_all_ascii (s : string) :
  all_bytes (fun c => bv c <? 0x80) s = true -> Valid s.
Proof.
  induction s as [| c s IH]; [constructor |].
  cbn [all_bytes]. intros H. apply andb_true_iff in H. destruct H as [Hc Hs].
  apply Valid_ascii; [lia | now apply IH].
Qed.

Lemma ascii_encode_ascii (c : byte) :
  all_bytes (fun c => bv c <? 0x80) (json.encode_ascii c) = true.
Proof.
  destruct c as [[] [] [] [] [] [] [] []]; vm_compute; reflexivity.
Qed.

Lemma ascii_hex (n : Z) : (bv (json.hex n) <? 0x80) = true.
Proof.
  unfold json.hex. generalize (Z.to_nat n) as k. intros k.
  do 16 (destruct k as [| k]; [reflexivity |]).
  reflexivity.
Qed.

Lemma Valid_encode_bytes (n : nat) (s : string) :
  Valid (json.encode_bytes n s).
Proof.
  revert s. induction n as [| n IH]; intros s; [constructor |].
  destruct s as [| c t]; [constructor |].
  cbn [json.encode_bytes].
  destruct (bv c <? utf8.RuneSelf) eqn:Ec.
  - apply Valid_app; [| apply IH].
    apply Valid_all_ascii, ascii_encode_ascii.
  - destruct (utf8.DecodeRune (String c t)) as [r size] eqn:Hd.
    destruct ((r =? utf8.RuneError) && (size =? 1)%nat) eqn:Hbad.
    + apply Valid_app; [| apply IH].
      apply Valid_all_ascii. reflexivity.
    + destruct ((r =? 0x2028) || (r =? 0x2029)).
      * apply Valid_app; [| apply Valid_app; [| apply IH]].
        -- apply Valid_all_ascii. reflexivity.
        -- apply Valid_all_ascii. cbn [all_bytes str1].
           now rewrite ascii_hex.
      * apply Valid_app; [| apply IH].
        unfold utf8.RuneSelf in Ec.
        destruct (DecodeRune_multibyte c t r size Hd ltac:(lia) Hbad)
          as (p & rest & Hs & Hlen & Henc & _ & _).
        rewrite Hs, <- Hlen, take_app, <- Henc. apply Valid_EncodeRune.
Qed.

Lemma Valid_encodeString (s : string) : Valid (json.encodeString s).
Proof.
  unfold json.encodeString.
  apply (Valid_app (str1 dquote)); [apply Valid_all_ascii; reflexivity |].
  apply Valid_app; [apply Valid_encode_bytes |].
  apply Valid_all_ascii. reflexivity.
Qed.

Lemma digit_ascii (c : byte) :
  json.isDigit c = true -> (bv c <? 0x80) = true.
Proof.
  destruct c as [[] [] [] [] [] [] [] []]; vm_compute;
    intros H; try reflexivity; discriminate H.
Qed.

Lemma all_digit_ascii (p : string) :
  all_bytes json.isDigit p = true ->
  all_bytes (fun c => bv c <? 0x80) p = true.
Proof.
  induction p as [| c p IH]; [reflexivity |].
  cbn [all_bytes]. intros H. apply andb_true_iff in H. destruct H as [Hc Hp].
  now rewrite (digit_ascii c Hc), IH.
Qed.

Lemma Valid_FormatInt (i : Z) : Valid (strconv.FormatInt i).
Proof.
  apply Valid_all_ascii.
  unfold strconv.FormatInt. destruct (i <? 0).
  - cbn [all_bytes]. rewrite all_digit_ascii by apply formatBits_digits_any.
    reflexivity.
  - apply all_digit_ascii, formatBits_digits_any.
Qed.

(** X17.  The text [json.Marshal] gives for a record is valid UTF-8, also
    when string fields of the record are not. *)
Theorem X17_payload_is_valid_utf8 (m : PhotoMetadata) :
  utf8.ValidString (fst (Marshal_PhotoMetadata m)) = true.
Proof.
  apply Valid_ValidString.
  unfold Marshal_PhotoMetadata. cbn [fst].
  repeat first
    [ apply Valid_encodeString
    | apply Valid_FormatInt
    | apply Valid_app
    | apply Valid_all_ascii; destruct (Published m); reflexivity ].
Qed.

(** ** Replies with keys in lower case *)

Section ReplySteps.

Variable pv : string -> option (json.value * string).
Variable pe : string -> list json.value -> option (json.value * string).
Variable pm
  : string -> list (string * json.value) -> option (json.value * string).

Lemma value_step_output (rest : string) :
  json.value_step pv pe pm (String "{" (quoted "output" ++ String ":" rest))
  = member_then pv pm "output" rest [].
Proof. reflexivity. Qed.

Lemma members_step_err rest acc :
  json.members_step pv pm (String "," (quoted "err" ++ String ":" rest)) acc
  = member_then pv pm "err" rest acc.
Proof. reflexivity. Qed.

End ReplySteps.

Lemma parse_value_lower_reply (o e : string) :
  utf8.ValidString o = true -> utf8.ValidString e = true ->
  json.parse_value 3 (lower_reply o e)
  = Some (json.Object [("output", json.Str o); ("err", json.Str e)],
          EmptyString).
Proof.
  intros Ho He. unfold lower_reply.
  change ("{" ++ quoted "output" ++ ":" ++ json.encodeString o
          ++ "," ++ quoted "err" ++ ":" ++ json.encodeString e ++ "}")
    with (String "{" (quoted "output" ++ String ":"
            (json.encodeString o
             ++ String "," (quoted "err" ++ String ":"
                  (json.encodeString e ++ "}"))))).
  rewrite parse_value_S, value_step_output. unfold member_then.
  rewrite parse_value_encodeString by assumption.
  rewrite parse_members_S, members_step_err. unfold member_then.
  rewrite parse_value_encodeString by assumption.
  rewrite parse_members_S, members_step_end. reflexivity.
Qed.

Lemma lower_reply_length (o e : string) :
  (3 <= S (String.length (lower_reply o e)))%nat.
Proof. unfold lower_reply, quoted. cbn [append String.length]. lia. Qed.

Lemma Decode_lower_reply (o e : string) (re : option error) :
  utf8.ValidString o = true -> utf8.ValidString e = true ->
  Decode_CaptionApiResponse {| content := lower_reply o e; readErr := re |}
    zero_CaptionApiResponse
  = ({| Output := o; Job_id := 0; Err := e |}, None).
Proof.
  intros Ho He. unfold Decode_CaptionApiResponse, json.parse_prefix.
  cbn [content readErr].
  rewrite (parse_value_fuel 3 _ _ _ (lower_reply_length o e)
             (parse_value_lower_reply o e Ho He)).
  destruct re; reflexivity.
Qed.

(** X18.  The fields of the reply are found whatever the case of its keys:
    a reply with the keys output and err, in lower case, gives [process]
    the caption and the error as one with the names of the Go fields
    does.  The strings are any valid UTF-8, written as JSON strings. *)
Theorem X18_lower_case_reply_is_understood
  (W : World) (worker : Worker) (md : PhotoMetadata) (p p' : URL)
  (e1 e2 e4 : option error) (r rs : Response) (o e : string) :
  url_Parse W (PhotoUrl md) = (Some p, e1) ->
  http_Get W (PhotoUrl md) = (Some r, e2) ->
  url_Parse W (url (captionApi (w_config worker))) = (Some p', None) ->
  client_Do W (caption_request W worker (content (Body r))) = (Some rs, e4) ->
  content (Body rs) = lower_reply o e ->
  utf8.ValidString o = true ->
  utf8.ValidString e = true ->
  Decode_CaptionApiResponse (Body rs) zero_CaptionApiResponse
  = ({| Output := o; Job_id := 0; Err := e |}, None)
  /\ fst (process W worker md)
     = Ret (o, if String.eqb e EmptyString then None
               else Some (errorString e)).
Proof.
  intros H1 H2 H3 H4 Hc Ho He.
  assert (HD : Decode_CaptionApiResponse (Body rs) zero_CaptionApiResponse
               = ({| Output := o; Job_id := 0; Err := e |}, None)).
  { destruct rs as [[data re]]. cbn [content Body] in Hc. subst data.
    exact (Decode_lower_reply o e re Ho He). }
  split; [exact HD |].
  rewrite (process_answered W worker md p p' e1 e2 e4 r rs H1 H2 H3 H4), HD.
  cbn [fst]. unfold caption_result. cbn [Output Err].
  destruct e; reflexivity.
Qed.

Lemma X18_witness :
  Decode_CaptionApiResponse
    {| content := lower_reply "a dog" EmptyString; readErr := None |}
    zero_CaptionApiResponse
  = ({| Output := "a dog"; Job_id := 0; Err := EmptyString |}, None)
  /\ fst (process (demo_world (Some (lower_reply "a dog" EmptyString)) None [])
            demo_worker recordA)
     = Ret ("a dog", if String.eqb EmptyString EmptyString then None
                     else Some (errorString EmptyString)).
Proof.
  apply (X18_lower_case_reply_is_understood
           (demo_world (Some (lower_reply "a dog" EmptyString)) None [])
           demo_worker recordA
           {| Host := "img.example" |} {| Host := "api.deepai.org" |}
           None None None
           {| Body := {| content := "JPEG"; readErr := None |} |}
           {| Body := {| content := lower_reply "a dog" EmptyString;
                         readErr := None |} |}
           "a dog" EmptyString);
    reflexivity.
Defined.

(** ** Failures of Redis, and the defaults *)

(** X19.  A failure of the publish is only logged: the handler returns,
    its last event is the error line after the publish, and the caption
    written to the keyed store before stays written. *)
Theorem X19_publish_failure_is_only_logged
  (W : World) (worker : Worker) (message : Message) (md : PhotoMetadata)
  (derr : option error) (c : string) (tr : list Event) (n : Z) (e : error) :
  Unmarshal_PhotoMetadata (Payload message) zero_PhotoMetadata = (md, derr) ->
  Caption md = EmptyString ->
  process W worker md = (Ret (c, None), tr) ->
  redis_Publish W (channel (redisCfg (w_config worker)))
    (fst (Marshal_PhotoMetadata (set_Caption c md))) = (n, Some e) ->
  exists mid,
    handleRedis W worker message
    = (Ret tt,
       (intake_log derr ++ tr
        ++ HSet (PhotoId md) "caption" c :: mid
        ++ [Publish (channel (redisCfg (w_config worker)))
              (fst (Marshal_PhotoMetadata (set_Caption c md)));
            Log "[ERROR] Couldn't publish photo metadata to redis channel: %s"])%list)
    /\ forallb is_Log mid = true.
Proof.
  intros HU Hcap Hp HP.
  rewrite (handleRedis_success W worker message md derr c tr HU Hcap Hp).
  unfold persist_trace. rewrite HP. cbn [snd is_err].
  exists (if is_err (snd (redis_HSet W (PhotoId md) "caption" c))
          then [Log "[ERROR] Couldn't set caption in redis for %s: %s"]
          else []).
  split; [reflexivity |].
  destruct (is_err (snd (redis_HSet W (PhotoId md) "caption" c)));
    reflexivity.
Qed.

Lemma X19_witness :
  exists mid,
    handleRedis (redis_down_world (Some (reply_of "a dog" EmptyString)) [])
      demo_worker (message_of payloadA)
    = (Ret tt,
       (intake_log None
        ++ snd (process
                  (redis_down_world (Some (reply_of "a dog" EmptyString)) [])
                  demo_worker recordA)
        ++ HSet "p1" "caption" "a dog" :: mid
        ++ [Publish "queue"
              (fst (Marshal_PhotoMetadata (set_Caption "a dog" recordA)));
            Log "[ERROR] Couldn't publish photo metadata to redis channel: %s"])%list)
    /\ forallb is_Log mid = true.
Proof.
  apply (X19_publish_failure_is_only_logged
           (redis_down_world (Some (reply_of "a dog" EmptyString)) [])
           demo_worker (message_of payloadA) recordA None "a dog"
           (snd (process
                   (redis_down_world (Some (reply_of "a dog" EmptyString)) [])
                   demo_worker recordA))
           0 (externalError "connection refused"));
    reflexivity.
Defined.





(** ** Examples *)

(** The encoder escapes the quote, the backslash, control bytes and the
    characters HTML gives a meaning to. *)
Example encodeString_escapes :
  json.encodeString ("a<" ++ str1 dquote ++ str1 "010"%char)
  = quoted ("a" ++ escape_u "0" "0" "3" "c" ++ str1 backslash
            ++ str1 dquote ++ str1 backslash ++ "n").
Proof. reflexivity. Qed.

(** Keys are matched without regard to case; a field of the wrong type is
    reported and skipped, the other fields are stored. *)
Example Unmarshal_partial :
  Unmarshal_PhotoMetadata
    ("{" ++ quoted "CHAT_ID" ++ ": 1.5, " ++ quoted "Caption" ++ ":"
     ++ quoted "x" ++ ", " ++ quoted "photo_id" ++ ": null}")
    zero_PhotoMetadata
  = (set_Caption "x" zero_PhotoMetadata,
     Some (UnmarshalTypeError "number 1.5" "PhotoMetadata.chat_id")).
Proof. reflexivity. Qed.

(** A JSON text that is not an object leaves the record as it is. *)
Example Unmarshal_array :
  Unmarshal_PhotoMetadata "[1]" zero_PhotoMetadata
  = (zero_PhotoMetadata, Some (UnmarshalTypeError "array" EmptyString)).
Proof. reflexivity. Qed.

(** The two payloads of the scenarios decode without error. *)
Example Unmarshal_payloadA :
  Unmarshal_PhotoMetadata payloadA zero_PhotoMetadata = (recordA, None).
Proof. reflexivity. Qed.

Example Unmarshal_payloadB :
  Unmarshal_PhotoMetadata payloadB zero_PhotoMetadata
  = (set_Caption "a dog running" recordA, None).
Proof. reflexivity. Qed.

(** Scenario A, in full: the image is fetched and posted, the caption is
    stored under the photo id and the captioned record is published. *)
Example scenario_A :
  handleRedis (demo_world (Some (reply_of "a dog running" EmptyString)) None [])
    demo_worker (message_of payloadA)
  = (Ret tt,
     [Log "[DEBUG] Got message from redis channel %s: %v";
      Log "[DEBUG] Got metadata from message %v";
      HttpGet photo1;
      Close;
      HttpDo (caption_request
                (demo_world (Some (reply_of "a dog running" EmptyString))
                   None [])
                demo_worker "JPEG");
      Close;
      HSet "p1" "caption" "a dog running";
      Publish "queue"
        ("{" ++ quoted "chat_id" ++ ":0,"
         ++ quoted "photo_url" ++ ":" ++ quoted photo1 ++ ","
         ++ quoted "caption" ++ ":" ++ quoted "a dog running" ++ ","
         ++ quoted "styled_url" ++ ":" ++ quoted EmptyString ++ ","
         ++ quoted "published" ++ ":false,"
         ++ quoted "photo_id" ++ ":" ++ quoted "p1" ++ "}")]).
Proof. reflexivity. Qed.

(** Scenario C: the API reports an error; nothing is stored or published. *)
Example scenario_C :
  handleRedis (demo_world (Some (reply_of EmptyString "invalid image")) None [])
    demo_worker (message_of payloadA)
  = (Ret tt,
     [Log "[DEBUG] Got message from redis channel %s: %v";
      Log "[DEBUG] Got metadata from message %v";
      HttpGet photo1;
      Close;
      HttpDo (caption_request
                (demo_world (Some (reply_of EmptyString "invalid image"))
                   None [])
                demo_worker "JPEG");
      Close;
      Log "[ERROR] Couldn't get caption from API: %s"]).
Proof. reflexivity. Qed.

(** An empty caption from the API counts as a success: the record is
    published with its caption still empty. *)
Example empty_caption_republished :
  handleRedis (demo_world (Some (reply_of EmptyString EmptyString)) None [])
    demo_worker (message_of payloadA)
  = (Ret tt,
     [Log "[DEBUG] Got message from redis channel %s: %v";
      Log "[DEBUG] Got metadata from message %v";
      HttpGet photo1;
      Close;
      HttpDo (caption_request
                (demo_world (Some (reply_of EmptyString EmptyString)) None [])
                demo_worker "JPEG");
      Close;
      HSet "p1" "caption" EmptyString;
      Publish "queue" (fst (Marshal_PhotoMetadata recordA))]).
Proof. reflexivity. Qed.

(** The panic of a handler ends the program: the message that follows is
    never handled, and [main] ends with the panic. *)
Example panic_ends_main :
  main (demo_world None None [message_of payloadA; message_of payloadB])
  = (Panic,
     [Ping; Log "[DEBUG] got pong from redis %v"; Subscribe "queue"; Receive;
      Log "[DEBUG] subscribed to redis channel %s: %v";
      Go Panic
        [Log "[DEBUG] Got message from redis channel %s: %v";
         Log "[DEBUG] Got metadata from message %v";
         HttpGet photo1;
         Close;
         HttpDo (caption_request (demo_world None None []) demo_worker "JPEG");
         Log "[ERROR] Couldn't make a request to caption api: %s"]]).
Proof. reflexivity. Qed.

(** With no panic, [main] handles every message and then waits. *)
Example main_waits :
  main (demo_world (Some (reply_of "a dog running" EmptyString)) None
          [message_of payloadB; message_of payloadB])
  = (Blocked,
     [Ping; Log "[DEBUG] got pong from redis %v"; Subscribe "queue"; Receive;
      Log "[DEBUG] subscribed to redis channel %s: %v";
      Go (Ret tt) (intake_log None); Go (Ret tt) (intake_log None)]).
Proof. reflexivity. Qed.

(** A key set to the empty string is no key. *)
Example empty_key_is_fatal :
  main (with_viper_env (fun _ => Some EmptyString) (demo_world None None []))
  = (Exit 1,
     [Log "[FATAL] Couldn't create worker due to laking caption api key"]).
Proof. reflexivity. Qed.
